(** * beads-ui: subscription shell, views and workspace registry

    A shallow embedding of the parts of the beads-ui client and server that
    carry the subscription and push-synchronisation contract:

    - [src/app/state.js]               the application store ([State],
                                       [CreateStore]);
    - [src/app/main.js]                push routing, [computeIssuesSpec],
                                       [ensureTabSubscriptions] ([Main],
                                       [Tabs]), the persisted preferences
                                       ([Prefs]), [getProjectName] and the
                                       connection toasts ([MainHelpers]);
    - [src/app/views/board.js]         [refreshFromStores], [applyClosedFilter]
                                       ([Board]), the filter actions
                                       ([BoardActions]), the keyboard
                                       ([BoardKeys]);
    - [src/app/views/list.js]          the list template's filters
                                       ([ListView]), [updateInline] and the
                                       store subscriber ([ListActions]);
    - [src/app/views/epics.js]         [toggle] (in [Main]), the groups and
                                       [load] ([EpicsView]);
    - [src/server/registry-watcher.js] [getAvailableWorkspaces]
                                       ([RegistryWatcher]), the in-memory
                                       registry and [findWorkspaceEntry]
                                       ([Registry]), [watchRegistry]
                                       ([Watcher]).

    JavaScript values are modelled at the types their JSDoc declares, except
    the status and type filters, which hold the declared string or the array
    the list view stores there; strings hold UTF-8 text, and where JavaScript
    looks at their UTF-16 code units (the default sort order) these are
    computed from it.  Mutable closures become explicit state records,
    promises become in-flight call records that an explicit settle step
    resolves or rejects, and every observable call (store registration,
    subscribe, release, log) is appended to an effect trace.

    Three modules the sources import are not among them:
    [src/app/data/subscription-issue-stores.js] ([Stores]),
    [src/app/data/subscriptions-store.js] ([Subscriptions]) and
    [src/app/data/sort.js] ([Sort]).  What is used of them is modelled from
    the specification and marked so. *)

From Stdlib Require Import ZArith QArith String Ascii List Lia Permutation Sorted Bool.
From stdpp Require Import base gmap strings list sets pretty.
Import ListNotations.

Local Open Scope string_scope.
Local Open Scope Z_scope.

(** ** JavaScript scalars and JSON *)

Module Js.

(** Scalar JavaScript values as they occur in payload fields and spec
    parameters. *)
Inductive JsVal :=
| JUndefined
| JNull
| JBool (b : bool)
| JNum (z : Z)
| JStr (s : string).

#[global] Instance JsVal_eq_dec : EqDecision JsVal.
Proof. solve_decision. Defined.

(** [ToBoolean]. *)
Definition truthy (v : JsVal) : bool :=
  match v with
  | JUndefined | JNull => false
  | JBool b => b
  | JNum z => negb (z =? 0)
  | JStr s => negb (String.eqb s EmptyString)
  end.

(** [typeof v === 'string']. *)
Definition is_string (v : JsVal) : bool :=
  match v with JStr _ => true | _ => false end.

(** [v === s] for a string literal [s] (strict equality, no coercion). *)
Definition strict_eq_str (v : JsVal) (s : string) : bool :=
  match v with JStr t => String.eqb t s | _ => false end.

Definition dquote : ascii := "034"%char.
Definition backslash : ascii := "092"%char.

Definition hex_digit (n : N) : ascii :=
  if (n <? 10)%N then ascii_of_N (48 + n) else ascii_of_N (87 + n).

(** [QuoteJSONString] on one code unit: the two-character escapes, [\u00xx]
    for the other control characters, the character itself otherwise. *)
Definition escape_char (c : ascii) : string :=
  let n := N_of_ascii c in
  if Ascii.eqb c dquote then String backslash (String dquote EmptyString)
  else if Ascii.eqb c backslash then String backslash (String backslash EmptyString)
  else if (n =? 8)%N then String backslash "b"
  else if (n =? 9)%N then String backslash "t"
  else if (n =? 10)%N then String backslash "n"
  else if (n =? 12)%N then String backslash "f"
  else if (n =? 13)%N then String backslash "r"
  else if (n <? 32)%N then
    String backslash ("u00" ++ String (hex_digit (n / 16)) (String (hex_digit (n mod 16)) EmptyString))
  else String c EmptyString.

Fixpoint escape (s : string) : string :=
  match s with
  | EmptyString => EmptyString
  | String c s' => escape_char c ++ escape s'
  end.

Definition quote (s : string) : string :=
  String dquote (escape s) ++ String dquote EmptyString.

(** [Array.prototype.join]. *)
Fixpoint join (sep : string) (l : list string) : string :=
  match l with
  | [] => EmptyString
  | [x] => x
  | x :: rest => x ++ sep ++ join sep rest
  end.

(** [JSON.stringify] on an array of strings. *)
Definition JSON_stringify_strings (l : list string) : string :=
  "[" ++ join "," (map quote l) ++ "]".

(** [JSON.stringify] on a scalar; [None] for [undefined], which an
    enclosing object omits. *)
Definition JSON_stringify_scalar (v : JsVal) : option string :=
  match v with
  | JUndefined => None
  | JNull => Some "null"
  | JBool true => Some "true"
  | JBool false => Some "false"
  | JNum z => Some (pretty z)
  | JStr s => Some (quote s)
  end.

(** [String.prototype.includes]: [needle] occurs in [s]. *)
Fixpoint includes (s needle : string) : bool :=
  String.prefix needle s
  || match s with
     | EmptyString => false
     | String _ s' => includes s' needle
     end.

(** A continuation byte of UTF-8, [10xxxxxx]. *)
Definition continuation (b : N) : bool := ((128 <=? b) && (b <? 192))%N.

(** The code point of a two-, three- or four-byte sequence of UTF-8, when
    the sequence is well formed: continuation bytes after the lead byte, no
    longer than the code point needs, no surrogate, at most U+10FFFF. *)
Definition decode2 (b0 b1 : N) : option N :=
  let cp := ((b0 - 192) * 64 + (b1 - 128))%N in
  if ((192 <=? b0) && (b0 <? 224) && continuation b1 && (128 <=? cp))%N
  then Some cp else None.

Definition decode3 (b0 b1 b2 : N) : option N :=
  let cp := ((b0 - 224) * 4096 + (b1 - 128) * 64 + (b2 - 128))%N in
  if ((224 <=? b0) && (b0 <? 240) && continuation b1 && continuation b2
      && (2048 <=? cp) && negb ((55296 <=? cp) && (cp <? 57344)))%N
  then Some cp else None.

Definition decode4 (b0 b1 b2 b3 : N) : option N :=
  let cp := ((b0 - 240) * 262144 + (b1 - 128) * 4096 + (b2 - 128) * 64 + (b3 - 128))%N in
  if ((240 <=? b0) && (b0 <? 248) && continuation b1 && continuation b2
      && continuation b3 && (65536 <=? cp) && (cp <? 1114112))%N
  then Some cp else None.

(** The code points of a string, which holds UTF-8 text as the sources do.
    A byte that starts no well-formed sequence, which the text of a
    JavaScript string never has, reads as U+FFFD. *)
Fixpoint code_points (s : string) : list N :=
  match s with
  | EmptyString => []
  | String c0 s1 =>
      let b0 := N_of_ascii c0 in
      if (b0 <? 128)%N then b0 :: code_points s1
      else
        match s1 with
        | String c1 s2 =>
            match decode2 b0 (N_of_ascii c1) with
            | Some cp => cp :: code_points s2
            | None =>
                match s2 with
                | String c2 s3 =>
                    match decode3 b0 (N_of_ascii c1) (N_of_ascii c2) with
                    | Some cp => cp :: code_points s3
                    | None =>
                        match s3 with
                        | String c3 s4 =>
                            match decode4 b0 (N_of_ascii c1) (N_of_ascii c2)
                                          (N_of_ascii c3) with
                            | Some cp => cp :: code_points s4
                            | None => 65533%N :: code_points s1
                            end
                        | EmptyString => 65533%N :: code_points s1
                        end
                    end
                | EmptyString => 65533%N :: code_points s1
                end
            end
        | EmptyString => [65533%N]
        end
  end.

(** The UTF-16 code units of a code point: itself in the basic plane, a
    surrogate pair above it. *)
Definition utf16 (cp : N) : list N :=
  if (cp <? 65536)%N then [cp]
  else [(55296 + (cp - 65536) / 1024)%N; (56320 + (cp - 65536) mod 1024)%N].

(** The code units of a string as JavaScript holds it. *)
Definition code_units (s : string) : list N := flat_map utf16 (code_points s).

(** [a < b] on strings, by their code units: the first code unit that
    differs decides, and a proper prefix is smaller. *)
Fixpoint units_ltb (a b : list N) : bool :=
  match a, b with
  | _, [] => false
  | [], _ :: _ => true
  | x :: a', y :: b' => (x <? y)%N || ((x =? y)%N && units_ltb a' b')
  end.

(** [Array.prototype.sort(cmp)], which is stable: an element goes before the
    first one it does not compare greater than. *)
Fixpoint sort_insert {A : Type} (cmp : A -> A -> Z) (x : A) (l : list A) : list A :=
  match l with
  | [] => [x]
  | y :: l' => if cmp x y <=? 0 then x :: y :: l' else y :: sort_insert cmp x l'
  end.

Definition sort {A : Type} (cmp : A -> A -> Z) (l : list A) : list A :=
  foldr (sort_insert cmp) [] l.

End Js.

(** ** src/app/state.js *)

Module State.

(** [WorkspaceInfo]. *)
Record WorkspaceInfo := {
  path : string;
  database : string;
  pid : option Z;
  version : option string
}.

(** A value of [filters.status] or [filters.type]: the string the typedef
    declares, or the array of selected chips that the list view puts there
    ([store.setState({ filters: { status: status_filters } })]).  An array
    is an object: [ref] is its identity, [items] its elements. *)
Inductive FilterValue :=
| FStr (s : string)
| FArr (ref : nat) (items : list string).

(** [a === b]: strings by their characters, arrays by identity. *)
Definition strict_eq (a b : FilterValue) : bool :=
  match a, b with
  | FStr x, FStr y => String.eqb x y
  | FArr r _, FArr r' _ => Nat.eqb r r'
  | _, _ => false
  end.

(** [ToBoolean]: an array is truthy, also when it is empty. *)
Definition truthy (v : FilterValue) : bool :=
  match v with
  | FStr s => negb (String.eqb s EmptyString)
  | FArr _ _ => true
  end.

(** [String(v)]: an array gives its items joined by commas. *)
Definition to_String (v : FilterValue) : string :=
  match v with
  | FStr s => s
  | FArr _ items => Js.join "," items
  end.

(** [Filters]. *)
Record Filters := {
  status : FilterValue;
  search : string;
  type : FilterValue;
  client : list string;
  work : list string
}.

(** [BoardState]. *)
Record BoardState := { closed_filter : string }.

(** [WorkspaceState]. *)
Record WorkspaceState := {
  current : option WorkspaceInfo;
  available : list WorkspaceInfo
}.

(** [AppState]. *)
Record AppState := {
  selected_id : option string;
  view : string;
  filters : Filters;
  board : BoardState;
  workspace : WorkspaceState
}.

(** The argument of [setState]: every key may be absent ([None]).  A key
    that is present and [null] is [Some None]. *)
Record FiltersPatch := {
  patch_status : option FilterValue;
  patch_search : option string;
  patch_type : option FilterValue;
  patch_client : option (list string);
  patch_work : option (list string)
}.

Record BoardPatch := { patch_closed_filter : option string }.

Record WorkspacePatch := {
  patch_current : option (option WorkspaceInfo);
  patch_available : option (list WorkspaceInfo)
}.

Record Patch := {
  patch_selected_id : option (option string);
  patch_view : option string;
  patch_filters : option FiltersPatch;
  patch_board : option BoardPatch;
  patch_workspace : option WorkspacePatch
}.

(** A subscriber function: [sub_fn s] is [true] when the call returns and
    [false] when it throws.  [sub_id] is the identity of the function object,
    which is what the [Set] of subscribers compares. *)
Record Subscriber := {
  sub_id : nat;
  sub_fn : AppState -> bool
}.

(** One call [fn(state)] made by [emit]. *)
Record Invocation := {
  inv_sub : nat;
  inv_arg : AppState;
  inv_returned : bool
}.

(** The closure created by [createStore]: the [state] variable and the
    [subs] set, in insertion order. *)
Record Store := {
  state : AppState;
  subs : list Subscriber
}.

(** [{ ...state.filters, ...(patch.filters || {}) }]. *)
Definition merge_filters (f : Filters) (p : option FiltersPatch) : Filters :=
  match p with
  | None => f
  | Some p =>
      {| status := default (status f) (patch_status p);
         search := default (search f) (patch_search p);
         type := default (type f) (patch_type p);
         client := default (client f) (patch_client p);
         work := default (work f) (patch_work p) |}
  end.

(** [{ ...state.board, ...(patch.board || {}) }]. *)
Definition merge_board (b : BoardState) (p : option BoardPatch) : BoardState :=
  match p with
  | None => b
  | Some p => {| closed_filter := default (closed_filter b) (patch_closed_filter p) |}
  end.

(** The [workspace] field of [next]: a key of the patch wins when it is not
    [undefined]. *)
Definition merge_workspace (w : WorkspaceState) (p : option WorkspacePatch) : WorkspaceState :=
  {| current :=
       match p with
       | Some p => match patch_current p with Some c => c | None => current w end
       | None => current w
       end;
     available :=
       match p with
       | Some p => match patch_available p with Some a => a | None => available w end
       | None => available w
       end |}.

(** The object [next] built at the top of [setState]. *)
Definition merge (s : AppState) (patch : Patch) : AppState :=
  {| selected_id := default (selected_id s) (patch_selected_id patch);
     view := default (view s) (patch_view patch);
     filters := merge_filters (filters s) (patch_filters patch);
     board := merge_board (board s) (patch_board patch);
     workspace := merge_workspace (workspace s) (patch_workspace patch) |}.

(** [w.current?.path]. *)
Definition current_path (w : WorkspaceState) : option string :=
  path <$> current w.

Definition workspace_changed (next s : AppState) : bool :=
  negb (bool_decide (current_path (workspace next) = current_path (workspace s)))
  || negb (bool_decide (length (available (workspace next)) = length (available (workspace s)))).

Definition client_changed (next s : AppState) : bool :=
  negb (String.eqb (Js.JSON_stringify_strings (client (filters next)))
                   (Js.JSON_stringify_strings (client (filters s)))).

Definition work_changed (next s : AppState) : bool :=
  negb (String.eqb (Js.JSON_stringify_strings (work (filters next)))
                   (Js.JSON_stringify_strings (work (filters s)))).

(** The condition of the early [return] in [setState]. *)
Definition nothing_changed (next s : AppState) : bool :=
  bool_decide (selected_id next = selected_id s)
  && String.eqb (view next) (view s)
  && strict_eq (status (filters next)) (status (filters s))
  && String.eqb (search (filters next)) (search (filters s))
  && strict_eq (type (filters next)) (type (filters s))
  && negb (client_changed next s)
  && negb (work_changed next s)
  && String.eqb (closed_filter (board next)) (closed_filter (board s))
  && negb (workspace_changed next s).

(** [emit]: every function of [Array.from(subs)] is called with the current
    state inside its own [try]/[catch]. *)
Fixpoint emit (fns : list Subscriber) (s : AppState) : list Invocation :=
  match fns with
  | [] => []
  | fn :: rest =>
      {| inv_sub := sub_id fn; inv_arg := s; inv_returned := sub_fn fn s |}
      :: emit rest s
  end.

(** [setState(patch)]: the store afterwards and the calls made to
    subscribers. *)
Definition setState (patch : Patch) (st : Store) : Store * list Invocation :=
  let next := merge (state st) patch in
  if nothing_changed next (state st) then (st, [])
  else
    let st' := {| state := next; subs := subs st |} in
    (st', emit (subs st') (state st')).

(** [subscribe(fn)]: [subs.add(fn)]; a function already in the set is not
    added again. *)
Definition subscribe (fn : Subscriber) (st : Store) : Store :=
  if bool_decide (sub_id fn ∈ map sub_id (subs st)) then st
  else {| state := state st; subs := subs st ++ [fn] |}.

(** The function returned by [subscribe]: [subs.delete(fn)]. *)
Definition unsubscribe (fn : Subscriber) (st : Store) : Store :=
  {| state := state st;
     subs := filter (fun g => sub_id g ≠ sub_id fn) (subs st) |}.

End State.

(** ** src/server/registry-watcher.js *)

Module RegistryWatcher.

(** [RegistryEntry]. *)
Record RegistryEntry := {
  workspace_path : string;
  socket_path : string;
  database_path : string;
  entry_pid : Z;
  entry_version : string;
  started_at : string
}.

(** A workspace descriptor [{ path, database, pid, version }]. *)
Record Workspace := {
  path : string;
  database : string;
  pid : option Z;
  version : string
}.

Section GetAvailableWorkspaces.

(** [path.resolve] of Node, for the process's working directory. *)
Variable resolve : string -> string.

(** [entries.map(entry => ({ path: entry.workspace_path, ... }))]. *)
Definition fileWorkspaces (entries : list RegistryEntry) : list Workspace :=
  map (fun entry =>
         {| path := workspace_path entry;
            database := database_path entry;
            pid := Some (entry_pid entry);
            version := entry_version entry |}) entries.

Definition resolved_paths (ws : list Workspace) : gset string :=
  list_to_set (map (fun w => resolve (path w)) ws).

(** [getAvailableWorkspaces], with the results of [readRegistry()],
    [getInMemoryWorkspaces()] and [discoverWorkspaces()] as arguments. *)
Definition getAvailableWorkspaces
  (entries : list RegistryEntry) (in_memory discovered_all : list Workspace)
  : list Workspace :=
  let file := fileWorkspaces entries in
  let seen := resolved_paths file in
  let inMemory := filter (fun w => resolve (path w) ∉ seen) in_memory in
  let seen := seen ∪ resolved_paths inMemory in
  let discovered := filter (fun w => resolve (path w) ∉ seen) discovered_all in
  file ++ inMemory ++ discovered.

End GetAvailableWorkspaces.

End RegistryWatcher.

(** ** Issues, specs and push envelopes *)

Module Data.

(** A JavaScript number: [NaN], an infinity, or a finite value, which is a
    rational.  The views only compare these numbers, which is exact. *)
Inductive Num :=
| NaN
| PosInf
| NegInf
| Fin (q : Q).

(** [Number.isFinite]; [undefined] is [None]. *)
Definition isFinite (n : option Num) : bool :=
  match n with Some (Fin _) => true | _ => false end.

(** [IssueLite] / [Issue] of the views: the fields the views read.
    [labels] is [None] when the property is not an array. *)
Record Issue := {
  id : string;
  title : option string;
  status : option string;
  priority : option Z;
  issue_type : option string;
  labels : option (list string);
  closed_at : option Num
}.

(** The query specification [{ type, params? }]. *)
Record Spec := {
  spec_type : string;
  spec_params : option (list (string * Js.JsVal))
}.

#[global] Instance Spec_eq_dec : EqDecision Spec.
Proof. solve_decision. Defined.

Fixpoint stringify_members (ps : list (string * Js.JsVal)) : list string :=
  match ps with
  | [] => []
  | (k, v) :: rest =>
      match Js.JSON_stringify_scalar v with
      | Some s => (Js.quote k ++ ":" ++ s) :: stringify_members rest
      | None => stringify_members rest
      end
  end.

(** [JSON.stringify(spec)]: own properties in insertion order, [type]
    first. *)
Definition JSON_stringify_spec (spec : Spec) : string :=
  "{" ++ Js.quote "type" ++ ":" ++ Js.quote (spec_type spec)
  ++ match spec_params spec with
     | None => EmptyString
     | Some ps => "," ++ Js.quote "params" ++ ":{" ++ Js.join "," (stringify_members ps) ++ "}"
     end
  ++ "}".

(** A push payload that is an object: its [id] and [type] properties as
    received, the entities of a snapshot or upsert, the ids of a delete. *)
Record Envelope := {
  env_id : Js.JsVal;
  env_type : Js.JsVal;
  env_items : list Issue;
  env_ids : list string
}.

(** A push payload: an object, or a scalar ([null], [undefined], a number,
    ...). *)
Inductive Payload :=
| PScalar (v : Js.JsVal)
| PObject (e : Envelope).

End Data.

(** ** src/app/data/subscription-issue-stores.js *)

Module Stores.
Import Data.

(** Modelled from the spec: the Entity Mirror Store state of
    [src/app/data/subscription-issue-stores.js], which is not among the
    sources: [{ key, spec, membership, entities }]. *)
Record Store := {
  key : string;
  spec : Spec;
  membership : list string;
  entities : gmap string Issue
}.

(** Modelled from the spec: the store [register] creates, with no members. *)
Definition empty_store (k : string) (sp : Spec) : Store :=
  {| key := k; spec := sp; membership := []; entities := ∅ |}.

(** Modelled from the spec: [register(key, spec)] of the missing registry
    creates a store if absent and is a no-op if one exists for [key]. *)
Definition register (k : string) (sp : Spec) (reg : gmap string Store) : gmap string Store :=
  match reg !! k with
  | Some _ => reg
  | None => <[k := empty_store k sp]> reg
  end.

(** Modelled from the spec: [unregister(key)] of the missing registry destroys
    the store; a no-op on an unknown key. *)
Definition unregister (k : string) (reg : gmap string Store) : gmap string Store :=
  delete k reg.

(** Modelled from the spec: [getStore(id)] of the missing registry, the store
    registered for [id], if any. *)
Definition getStore (reg : gmap string Store) (k : string) : option Store :=
  reg !! k.

(** Modelled from the spec: one item of an upsert updates [entities[id]] and
    is appended to [membership] when its id is not a member yet. *)
Definition upsert_item (st : Store) (it : Issue) : Store :=
  {| key := key st;
     spec := spec st;
     membership :=
       if decide (id it ∈ membership st) then membership st
       else membership st ++ [id it];
     entities := <[id it := it]> (entities st) |}.

(** Modelled from the spec: a delete removes the id from [membership] and
    drops its [entities] entry. *)
Definition delete_id (st : Store) (i : string) : Store :=
  {| key := key st;
     spec := spec st;
     membership := filter (fun j => j ≠ i) (membership st);
     entities := delete i (entities st) |}.

(** Modelled from the spec: [applyPush(envelope)] of the missing store.
    [snapshot] replaces membership and entities wholesale, [upsert] and
    [delete] work item by item; [None] stands for a thrown exception, which
    leaves the store as it was. *)
Definition applyPush (st : Store) (e : Envelope) : option Store :=
  match env_type e with
  | Js.JStr "snapshot" =>
      Some (foldl upsert_item (empty_store (key st) (spec st)) (env_items e))
  | Js.JStr "upsert" => Some (foldl upsert_item st (env_items e))
  | Js.JStr "delete" => Some (foldl delete_id st (env_ids e))
  | _ => None
  end.

(** Modelled from the spec: [snapshotFor(key)] of the missing registry returns
    the entities in membership order, and nothing for an unknown key. *)
Definition snapshotFor (reg : gmap string Store) (k : string) : list Issue :=
  match reg !! k with
  | Some st => omap (fun i => entities st !! i) (membership st)
  | None => []
  end.

End Stores.

(** ** src/app/main.js *)

Module Main.
Import Data.

(** The function [subscribeList(key, spec)] resolves to: calling it releases
    that subscription. *)
Record Handle := {
  handle_key : string;
  handle_spec : Spec
}.

#[global] Instance Handle_eq_dec : EqDecision Handle.
Proof. solve_decision. Defined.

(** The calls the shell makes on its collaborators, in program order. *)
Inductive Effect :=
| ERegister (key : string) (spec : Spec)       (* sub_issue_stores.register(key, spec) *)
| EUnregister (key : string)                   (* sub_issue_stores.unregister(key) *)
| ESubscribeList (key : string) (spec : Spec)  (* subscriptions.subscribeList(key, spec) *)
| ERelease (h : Handle)                        (* a call of an unsubscribe function *)
| ELog (msg : string)                          (* log(msg, ...) *)
| EFatal (context : string)                    (* showFatalFromError(err, context) *)
| ENotify (key : string).                      (* the store's change notification *)

#[global] Instance Effect_eq_dec : EqDecision Effect.
Proof. solve_decision. Defined.

(** *** Routing of push envelopes *)

(** [p && ...]: the payload as a condition. *)
Definition payload_truthy (p : Payload) : bool :=
  match p with
  | PObject _ => true
  | PScalar v => Js.truthy v
  end.

(** [p.id] and [p.type] of a payload that passed [p && ...]. *)
Definition prop_id (p : Payload) : Js.JsVal :=
  match p with PObject e => env_id e | PScalar _ => Js.JUndefined end.

Definition prop_type (p : Payload) : Js.JsVal :=
  match p with PObject e => env_type e | PScalar _ => Js.JUndefined end.

(** [const id = p && typeof p.id === 'string' ? p.id : '']. *)
Definition routed_id (p : Payload) : string :=
  if payload_truthy p && Js.is_string (prop_id p) then
    match prop_id p with Js.JStr s => s | _ => EmptyString end
  else EmptyString.

Section Routing.

(** [store.applyPush(p)]; [None] when it throws. *)
Variable applyPush : Stores.Store -> Envelope -> option Stores.Store.

(** The body shared by the three handlers, [kind] being the literal each
    compares [p.type] with.  A completed [applyPush] is followed by the
    store's one change notification. *)
Definition route (kind : string) (p : Payload) (reg : gmap string Stores.Store)
  : gmap string Stores.Store * list Effect :=
  let id := routed_id p in
  let store := if negb (String.eqb id EmptyString) then Stores.getStore reg id else None in
  match store with
  | Some st =>
      if payload_truthy p && Js.strict_eq_str (prop_type p) kind then
        match p with
        | PObject e =>
            match applyPush st e with
            | Some st' => (<[id := st']> reg, [ENotify id])
            | None => (reg, [])
            end
        | PScalar _ => (reg, [])
        end
      else (reg, [])
  | None => (reg, [])
  end.

(** [client.on('snapshot', ...)], [client.on('upsert', ...)] and
    [client.on('delete', ...)]. *)
Definition on_snapshot := route "snapshot".
Definition on_upsert := route "upsert".
Definition on_delete := route "delete".

(** Delivery of the event [event] with payload [p] to the handlers above. *)
Definition deliver (event : string) (p : Payload) (reg : gmap string Stores.Store)
  : gmap string Stores.Store * list Effect :=
  if String.eqb event "snapshot" then on_snapshot p reg
  else if String.eqb event "upsert" then on_upsert p reg
  else if String.eqb event "delete" then on_delete p reg
  else (reg, []).

End Routing.

(** *** Tab-level subscriptions *)

(** [computeIssuesSpec(filters)]. *)
Definition computeIssuesSpec (filters : State.Filters) : Spec :=
  let st := if State.truthy (State.status filters)
            then State.to_String (State.status filters) else "all" in
  if String.eqb st "ready" then {| spec_type := "ready-issues"; spec_params := None |}
  else if String.eqb st "in_progress" then {| spec_type := "in-progress-issues"; spec_params := None |}
  else if String.eqb st "closed" then {| spec_type := "closed-issues"; spec_params := None |}
  else {| spec_type := "all-issues"; spec_params := None |}.

(** The variables that hold unsubscribe functions. *)
Inductive UnsubVar :=
| unsub_issues_tab
| unsub_epics_tab
| unsub_board_ready
| unsub_board_in_progress
| unsub_board_closed
| unsub_board_blocked
| unsub_detail.

#[global] Instance UnsubVar_eq_dec : EqDecision UnsubVar.
Proof. solve_decision. Defined.

(** What is attached to the promise of a call:
    - [KTab v last pk failed context]: [.then(u => { v = u;
      last_issues_spec_key = last })] when [last] is given, [.catch] logging
      [failed] and showing the fatal dialog for [context],
      [.finally(() => pending_subscriptions.delete(pk))];
    - [KDetail]: the chain of the selection subscriber;
    - [KDeepLink]: the chain of the initial deep link, a [.catch] only;
    - [KEpic epic_id]: the rest of [toggle] after [await subscribeList];
    - [KCollapse epic_id]: the rest of [toggle] after [await u()]. *)
Inductive Continuation :=
| KTab (v : UnsubVar) (last : option string) (pending_key : string)
       (failed : string) (context : string)
| KDetail
| KDeepLink
| KEpic (epic_id : string)
| KCollapse (epic_id : string).

(** A call whose promise has not settled. *)
Record Call := {
  call_key : string;
  call_spec : Spec;
  call_then : Continuation
}.

(** The mutable variables of [bootstrap] that the subscription logic reads
    and writes, the in-flight calls and the effects so far. *)
Record Shell := {
  sub_issue_stores : gmap string Stores.Store;
  handles : UnsubVar -> option Handle;
  last_issues_spec_key : option string;
  pending_subscriptions : gset string;
  expanded : gset string;
  epic_unsubs : gmap string Handle;
  in_flight : list Call;
  trace : list Effect
}.

Definition set_stores (f : gmap string Stores.Store -> gmap string Stores.Store) (sh : Shell) : Shell :=
  {| sub_issue_stores := f (sub_issue_stores sh); handles := handles sh;
     last_issues_spec_key := last_issues_spec_key sh;
     pending_subscriptions := pending_subscriptions sh;
     expanded := expanded sh; epic_unsubs := epic_unsubs sh;
     in_flight := in_flight sh; trace := trace sh |}.

Definition set_unsub (v : UnsubVar) (h : option Handle) (sh : Shell) : Shell :=
  {| sub_issue_stores := sub_issue_stores sh;
     handles := fun w => if decide (w = v) then h else handles sh w;
     last_issues_spec_key := last_issues_spec_key sh;
     pending_subscriptions := pending_subscriptions sh;
     expanded := expanded sh; epic_unsubs := epic_unsubs sh;
     in_flight := in_flight sh; trace := trace sh |}.

Definition set_last (k : option string) (sh : Shell) : Shell :=
  {| sub_issue_stores := sub_issue_stores sh; handles := handles sh;
     last_issues_spec_key := k;
     pending_subscriptions := pending_subscriptions sh;
     expanded := expanded sh; epic_unsubs := epic_unsubs sh;
     in_flight := in_flight sh; trace := trace sh |}.

Definition set_pending (f : gset string -> gset string) (sh : Shell) : Shell :=
  {| sub_issue_stores := sub_issue_stores sh; handles := handles sh;
     last_issues_spec_key := last_issues_spec_key sh;
     pending_subscriptions := f (pending_subscriptions sh);
     expanded := expanded sh; epic_unsubs := epic_unsubs sh;
     in_flight := in_flight sh; trace := trace sh |}.

Definition set_expanded (f : gset string -> gset string) (sh : Shell) : Shell :=
  {| sub_issue_stores := sub_issue_stores sh; handles := handles sh;
     last_issues_spec_key := last_issues_spec_key sh;
     pending_subscriptions := pending_subscriptions sh;
     expanded := f (expanded sh); epic_unsubs := epic_unsubs sh;
     in_flight := in_flight sh; trace := trace sh |}.

Definition set_epic_unsubs (f : gmap string Handle -> gmap string Handle) (sh : Shell) : Shell :=
  {| sub_issue_stores := sub_issue_stores sh; handles := handles sh;
     last_issues_spec_key := last_issues_spec_key sh;
     pending_subscriptions := pending_subscriptions sh;
     expanded := expanded sh; epic_unsubs := f (epic_unsubs sh);
     in_flight := in_flight sh; trace := trace sh |}.

Definition set_in_flight (l : list Call) (sh : Shell) : Shell :=
  {| sub_issue_stores := sub_issue_stores sh; handles := handles sh;
     last_issues_spec_key := last_issues_spec_key sh;
     pending_subscriptions := pending_subscriptions sh;
     expanded := expanded sh; epic_unsubs := epic_unsubs sh;
     in_flight := l; trace := trace sh |}.

(** Appends effects to the trace. *)
Definition tell (es : list Effect) (sh : Shell) : Shell :=
  {| sub_issue_stores := sub_issue_stores sh; handles := handles sh;
     last_issues_spec_key := last_issues_spec_key sh;
     pending_subscriptions := pending_subscriptions sh;
     expanded := expanded sh; epic_unsubs := epic_unsubs sh;
     in_flight := in_flight sh; trace := trace sh ++ es |}.

(** [try { sub_issue_stores.register(key, spec) } catch ...]. *)
Definition do_register (key : string) (spec : Spec) (sh : Shell) : Shell :=
  tell [ERegister key spec] (set_stores (Stores.register key spec) sh).

(** [try { sub_issue_stores.unregister(key) } catch ...]. *)
Definition do_unregister (key : string) (sh : Shell) : Shell :=
  tell [EUnregister key] (set_stores (Stores.unregister key) sh).

(** [subscriptions.subscribeList(key, spec)] with the chain [k] attached to
    the promise it returns. *)
Definition do_subscribe (key : string) (spec : Spec) (k : Continuation) (sh : Shell) : Shell :=
  tell [ESubscribeList key spec]
    (set_in_flight (in_flight sh ++ [{| call_key := key; call_spec := spec; call_then := k |}]) sh).

(** [void unsub().catch(() => {})]. *)
Definition do_release (h : Handle) (sh : Shell) : Shell :=
  tell [ERelease h] sh.

Definition is_set (o : option Handle) : bool :=
  match o with Some _ => true | None => false end.

(** The [Issues tab] part of [ensureTabSubscriptions]. *)
Definition ensureIssuesTab (s : State.AppState) (sh : Shell) : Shell :=
  if String.eqb (State.view s) "issues" then
    let spec := computeIssuesSpec (State.filters s) in
    let key := JSON_stringify_spec spec in
    let sh := do_register "tab:issues" spec sh in
    let issues_sub_key := "tab:issues:" ++ key in
    if (negb (is_set (handles sh unsub_issues_tab))
        || negb (bool_decide (Some key = last_issues_spec_key sh)))
       && negb (bool_decide (issues_sub_key ∈ pending_subscriptions sh))
    then
      let sh := set_pending (fun p => {[issues_sub_key]} ∪ p) sh in
      do_subscribe "tab:issues" spec
        (KTab unsub_issues_tab (Some key) issues_sub_key
           "subscribe issues failed" "issues list") sh
    else sh
  else
    match handles sh unsub_issues_tab with
    | Some unsub =>
        let sh := do_release unsub sh in
        let sh := set_unsub unsub_issues_tab None sh in
        let sh := set_last None sh in
        do_unregister "tab:issues" sh
    | None => sh
    end.

(** The [Epics tab] part of [ensureTabSubscriptions]. *)
Definition ensureEpicsTab (s : State.AppState) (sh : Shell) : Shell :=
  let spec := {| spec_type := "epics"; spec_params := None |} in
  if String.eqb (State.view s) "epics" then
    let sh := do_register "tab:epics" spec sh in
    if negb (is_set (handles sh unsub_epics_tab))
       && negb (bool_decide ("tab:epics" ∈ pending_subscriptions sh))
    then
      let sh := set_pending (fun p => {["tab:epics"]} ∪ p) sh in
      do_subscribe "tab:epics" spec
        (KTab unsub_epics_tab None "tab:epics" "subscribe epics failed" "epics") sh
    else sh
  else
    match handles sh unsub_epics_tab with
    | Some unsub =>
        let sh := do_release unsub sh in
        let sh := set_unsub unsub_epics_tab None sh in
        do_unregister "tab:epics" sh
    | None => sh
    end.

(** One column of the board while the board is shown; the source repeats
    this block for Ready, In Progress, Closed and Blocked with the variable
    [v], the key, the spec, the log message and the dialog context as the
    only differences. *)
Definition subscribeBoardColumn
  (v : UnsubVar) (key : string) (spec : Spec) (failed context : string) (sh : Shell)
  : Shell :=
  if negb (is_set (handles sh v))
     && negb (bool_decide (key ∈ pending_subscriptions sh))
  then
    let sh := do_register key spec sh in
    let sh := set_pending (fun p => {[key]} ∪ p) sh in
    do_subscribe key spec (KTab v None key failed context) sh
  else sh.

(** One column of the board when another view is shown. *)
Definition releaseBoardColumn (v : UnsubVar) (key : string) (sh : Shell) : Shell :=
  match handles sh v with
  | Some unsub =>
      let sh := do_release unsub sh in
      let sh := set_unsub v None sh in
      do_unregister key sh
  | None => sh
  end.

(** The [Board tab] part of [ensureTabSubscriptions]. *)
Definition ensureBoardTab (s : State.AppState) (sh : Shell) : Shell :=
  if String.eqb (State.view s) "board" then
    let sh := subscribeBoardColumn unsub_board_ready "tab:board:ready"
                {| spec_type := "ready-issues"; spec_params := None |}
                "subscribe board ready failed" "board (Ready)" sh in
    let sh := subscribeBoardColumn unsub_board_in_progress "tab:board:in-progress"
                {| spec_type := "in-progress-issues"; spec_params := None |}
                "subscribe board in-progress failed" "board (In Progress)" sh in
    let sh := subscribeBoardColumn unsub_board_closed "tab:board:closed"
                {| spec_type := "closed-issues"; spec_params := None |}
                "subscribe board closed failed" "board (Closed)" sh in
    subscribeBoardColumn unsub_board_blocked "tab:board:blocked"
      {| spec_type := "blocked-issues"; spec_params := None |}
      "subscribe board blocked failed" "board (Blocked)" sh
  else
    let sh := releaseBoardColumn unsub_board_ready "tab:board:ready" sh in
    let sh := releaseBoardColumn unsub_board_in_progress "tab:board:in-progress" sh in
    let sh := releaseBoardColumn unsub_board_closed "tab:board:closed" sh in
    releaseBoardColumn unsub_board_blocked "tab:board:blocked" sh.

(** [ensureTabSubscriptions(s)]. *)
Definition ensureTabSubscriptions (s : State.AppState) (sh : Shell) : Shell :=
  ensureBoardTab s (ensureEpicsTab s (ensureIssuesTab s sh)).

(** [if (id)] on [selected_id]: neither [null] nor the empty string. *)
Definition truthy_id (o : option string) : option string :=
  match o with
  | Some i => if String.eqb i EmptyString then None else Some i
  | None => None
  end.

Definition detail_spec (i : string) : Spec :=
  {| spec_type := "issue-detail"; spec_params := Some [("id", Js.JStr i)] |}.

(** The selection subscriber, [store.subscribe((s) => { const id =
    s.selected_id; ... })], without its calls on the dialog and the detail
    view. *)
Definition onSelection (s : State.AppState) (sh : Shell) : Shell :=
  match truthy_id (State.selected_id s) with
  | Some i =>
      let client_id := "detail:" ++ i in
      let spec := detail_spec i in
      let sh := do_register client_id spec sh in
      do_subscribe client_id spec KDetail sh
  | None =>
      match handles sh unsub_detail with
      | Some unsub => set_unsub unsub_detail None (do_release unsub sh)
      | None => sh
      end
  end.

(** The deep-link block of [bootstrap]: [if (initial_id) { ... }]. *)
Definition deepLink (s : State.AppState) (sh : Shell) : Shell :=
  match truthy_id (State.selected_id s) with
  | Some i =>
      let client_id := "detail:" ++ i in
      let spec := detail_spec i in
      let sh := do_register client_id spec sh in
      do_subscribe client_id spec KDeepLink sh
  | None => sh
  end.

Definition release_if_set (v : UnsubVar) (sh : Shell) : Shell :=
  match handles sh v with
  | Some unsub => set_unsub v None (do_release unsub sh)
  | None => sh
  end.

(** [clearAndResubscribe()], [s] being [store.getState()]. *)
Definition clearAndResubscribe (s : State.AppState) (sh : Shell) : Shell :=
  let sh := release_if_set unsub_issues_tab sh in
  let sh := release_if_set unsub_epics_tab sh in
  let sh := release_if_set unsub_board_ready sh in
  let sh := release_if_set unsub_board_in_progress sh in
  let sh := release_if_set unsub_board_closed sh in
  let sh := release_if_set unsub_board_blocked sh in
  let storeIds := ["tab:issues"; "tab:epics"; "tab:board:ready";
                   "tab:board:in-progress"; "tab:board:closed"; "tab:board:blocked"] in
  let sh := foldl (fun sh i => do_unregister i sh) sh storeIds in
  let sh := match truthy_id (State.selected_id s) with
            | Some i => do_unregister ("detail:" ++ i) sh
            | None => sh
            end in
  let sh := set_last None sh in
  ensureTabSubscriptions s sh.

(** [toggle(epic_id)] of the epics view up to its [await], the view being
    created with the shell's [subscriptions] and [sub_issue_stores]. *)
Definition toggle (epic_id : string) (sh : Shell) : Shell :=
  let client_id := "detail:" ++ epic_id in
  if bool_decide (epic_id ∉ expanded sh) then
    let sh := set_expanded (fun e => {[epic_id]} ∪ e) sh in
    let sh := do_register client_id (detail_spec epic_id) sh in
    do_subscribe client_id (detail_spec epic_id) (KEpic epic_id) sh
  else
    let sh := set_expanded (fun e => e ∖ {[epic_id]}) sh in
    match epic_unsubs sh !! epic_id with
    | Some u =>
        let sh := do_release u sh in
        set_in_flight
          (in_flight sh ++ [{| call_key := handle_key u; call_spec := handle_spec u;
                               call_then := KCollapse epic_id |}]) sh
    | None => sh
    end.

(** What runs when the promise of the call [c] settles; [resolved] tells
    fulfilment from rejection. *)
Definition settle (c : Call) (resolved : bool) (sh : Shell) : Shell :=
  let unsub := {| handle_key := call_key c; handle_spec := call_spec c |} in
  match call_then c with
  | KTab v last pending_key failed context =>
      let sh :=
        if resolved then
          let sh := set_unsub v (Some unsub) sh in
          match last with
          | Some key => set_last (Some key) sh
          | None => sh
          end
        else tell [ELog failed; EFatal context] sh in
      set_pending (fun p => p ∖ {[pending_key]}) sh
  | KDetail =>
      if resolved then
        let sh := match handles sh unsub_detail with
                  | Some previous => do_release previous sh
                  | None => sh
                  end in
        set_unsub unsub_detail (Some unsub) sh
      else tell [ELog "detail subscribe failed"; EFatal "issue details"] sh
  | KDeepLink =>
      if resolved then sh
      else tell [ELog "detail subscribe failed"; EFatal "issue details"] sh
  | KEpic epic_id =>
      if resolved then set_epic_unsubs (fun m => <[epic_id := unsub]> m) sh
      else sh
  | KCollapse epic_id =>
      let sh := set_epic_unsubs (fun m => delete epic_id m) sh in
      do_unregister ("detail:" ++ epic_id) sh
  end.

(** A push event reaching the handlers of the shell, whose stores apply it
    with the missing module's [applyPush]. *)
Definition push (event : string) (p : Payload) (sh : Shell) : Shell :=
  let r := deliver Stores.applyPush event p (sub_issue_stores sh) in
  tell (snd r) (set_stores (fun _ => fst r) sh).

Definition empty_shell : Shell :=
  {| sub_issue_stores := ∅; handles := fun _ => None;
     last_issues_spec_key := None; pending_subscriptions := ∅;
     expanded := ∅; epic_unsubs := ∅; in_flight := []; trace := [] |}.

(** The subscription work of [bootstrap] for the initial state [s]: the
    deep-link block, then [onRouteChange(store.getState())]. *)
Definition bootstrap (s : State.AppState) : Shell :=
  ensureTabSubscriptions s (deepLink s empty_shell).

(** What can happen next: the store emits a state to the route and selection
    subscribers, a workspace switch clears and resubscribes, an epic is
    toggled, a pending promise settles, a push event arrives. *)
Inductive step : Shell -> Shell -> Prop :=
| step_route s sh : step sh (ensureTabSubscriptions s sh)
| step_selection s sh : step sh (onSelection s sh)
| step_clear s sh : step sh (clearAndResubscribe s sh)
| step_toggle epic_id sh : step sh (toggle epic_id sh)
| step_settle c resolved (pre post : list Call) sh :
    in_flight sh = (pre ++ c :: post)%list ->
    step sh (settle c resolved (set_in_flight (pre ++ post)%list sh))
| step_push event p sh : step sh (push event p sh).

(** The shells a run of the application can be in. *)
Inductive reachable : Shell -> Prop :=
| reachable_bootstrap s : reachable (bootstrap s)
| reachable_step sh sh' : reachable sh -> step sh sh' -> reachable sh'.

(** The entry of [pending_subscriptions] that guards a call, if it has
    one. *)
Definition pending_key_of (c : Call) : option string :=
  match call_then c with
  | KTab _ _ pk _ _ => Some pk
  | _ => None
  end.

(** The calls of [subscribeList] among the in-flight calls. *)
Definition is_subscribe (c : Call) : bool :=
  match call_then c with
  | KCollapse _ => false
  | _ => true
  end.

(** The entry of [pending_subscriptions] under which a tab-level call of
    [subscribeList(key, spec)] is tracked: the key and the fingerprint of the
    spec for [tab:issues], the key for the epics tab and the board columns. *)
Definition guard_entry (key : string) (spec : Spec) : string :=
  if String.eqb key "tab:issues" then "tab:issues:" ++ JSON_stringify_spec spec
  else key.

(** In a trace, every call of [subscribeList] comes directly after the
    [register] of the same key and spec. *)
Definition registers_first (tr : list Effect) : Prop :=
  forall (i : nat) key spec,
    tr !! i = Some (ESubscribeList key spec) ->
    exists j : nat, i = S j /\ tr !! j = Some (ERegister key spec).

(** The in-flight set mirrors the tracked calls in flight: each has its entry
    in the set, the entry is that of its key and spec, no two share an entry,
    and the set holds nothing else. *)
Definition pending_tracks_in_flight (sh : Shell) : Prop :=
  (forall c pk, c ∈ in_flight sh -> pending_key_of c = Some pk ->
     pk ∈ pending_subscriptions sh /\ pk = guard_entry (call_key c) (call_spec c))
  /\ NoDup (omap pending_key_of (in_flight sh))
  /\ (forall pk, pk ∈ pending_subscriptions sh ->
      exists c, c ∈ in_flight sh /\ pending_key_of c = Some pk).

(** An effect other than a call of [subscribeList]. *)
Definition quiet (e : Effect) : Prop :=
  match e with ESubscribeList _ _ => False | _ => True end.

(** [sh'] continues [sh]: its trace extends that of [sh] by effects in which
    every subscribe directly follows its register, and it keeps the pending
    set in step with the in-flight calls. *)
Definition step_ok (sh sh' : Shell) : Prop :=
  exists es, trace sh' = (trace sh ++ es)%list
    /\ registers_first es
    /\ (pending_tracks_in_flight sh -> pending_tracks_in_flight sh').

(** The same for a part of [ensureTabSubscriptions], which moreover
    subscribes only under an entry that was not pending and removes nothing
    from the pending set. *)
Definition block_ok (sh sh' : Shell) : Prop :=
  exists es, trace sh' = (trace sh ++ es)%list
    /\ registers_first es
    /\ (forall key spec, In (ESubscribeList key spec) es ->
        guard_entry key spec ∉ pending_subscriptions sh)
    /\ pending_subscriptions sh ⊆ pending_subscriptions sh'
    /\ (pending_tracks_in_flight sh -> pending_tracks_in_flight sh').



End Main.

(** ** src/app/data/subscriptions-store.js *)

Module Subscriptions.
Import Data.

(** Modelled from the spec: the status of a subscription record of the
    Subscription Manager, [src/app/data/subscriptions-store.js], which is not
    among the sources.  A record that is closed is dropped. *)
Inductive Status := pending | active.

(** Modelled from the spec: the subscription record [{ key, spec, status }];
    the manager holds at most one per key, which makes it a map. *)
Record Subscription := {
  sub_spec : Spec;
  sub_status : Status
}.




(** Modelled from the spec: the server's answer to the subscribe of [key]:
    the record becomes active, or is dropped when the request failed. *)
Definition answered (key : string) (ok : bool) (m : gmap string Subscription)
  : gmap string Subscription :=
  match m !! key with
  | Some r =>
      if ok then <[key := {| sub_spec := sub_spec r; sub_status := active |}]> m
      else delete key m
  | None => m
  end.




End Subscriptions.

(** ** src/app/data/sort.js *)

Module Sort.
Import Data.

(** The close time a comparison reads: [closed_at] when it is a finite
    number, 0 otherwise. *)
Definition closed_ts (it : Issue) : Q :=
  match closed_at it with
  | Some (Fin q) => q
  | _ => 0%Q
  end.

(** Modelled from the spec: [cmpClosedDesc] of [src/app/data/sort.js], which
    is not among the sources, orders issues by close time, latest first. *)
Definition cmpClosedDesc (a b : Issue) : Z :=
  if negb (Qle_bool (closed_ts b) (closed_ts a)) then 1
  else if negb (Qle_bool (closed_ts a) (closed_ts b)) then -1
  else 0.

End Sort.

(** ** src/app/views/board.js *)

Module Board.
Import Data.

(** The mutable variables of [createBoardView] that hold the columns and
    the filters. *)
Record View := {
  list_ready : list Issue;
  list_blocked : list Issue;
  list_in_progress : list Issue;
  list_closed : list Issue;
  list_closed_raw : list Issue;
  all_issues_cache : list Issue;
  client_filters : list string;
  work_filters : list string;
  closed_filter_mode : string
}.

(** [matchesLabelFilters(issue)]: the issue carries every selected label. *)
Definition matchesLabelFilters (v : View) (issue : Issue) : bool :=
  let labels := default [] (labels issue) in
  forallb (fun client => bool_decide (("client:" ++ client)%string ∈ labels)) (client_filters v)
  && forallb (fun work => bool_decide (("work:" ++ work)%string ∈ labels)) (work_filters v).

Section WithClock.

(** [new Date(y, m, d, 0, 0, 0, 0).getTime()] for the local day of the
    instant [now]: the start of that day in the local time zone. *)
Variable start_of_local_day : Z -> Z.

(** [since_ts] of [applyClosedFilter]. *)
Definition since_ts (mode : string) (now : Z) : Z :=
  if String.eqb mode "today" then start_of_local_day now
  else if String.eqb mode "3" then now - 3 * 24 * 60 * 60 * 1000
  else if String.eqb mode "7" then now - 7 * 24 * 60 * 60 * 1000
  else 0.

(** The callback of [items.filter] in [applyClosedFilter]. *)
Definition closed_since (since : Z) (it : Issue) : bool :=
  match closed_at it with
  | Some (Fin s) => Qle_bool (inject_Z since) s
  | _ => false
  end.

(** [applyClosedFilter()], [now] being [new Date().getTime()]. *)
Definition applyClosedFilter (now : Z) (v : View) : View :=
  let items := list_closed_raw v in
  let items := List.filter (closed_since (since_ts (closed_filter_mode v) now)) items in
  let items := Js.sort Sort.cmpClosedDesc items in
  {| list_ready := list_ready v; list_blocked := list_blocked v;
     list_in_progress := list_in_progress v;
     list_closed := items;
     list_closed_raw := list_closed_raw v;
     all_issues_cache := all_issues_cache v;
     client_filters := client_filters v; work_filters := work_filters v;
     closed_filter_mode := closed_filter_mode v |}.

(** [selectors.selectBoardColumn(key, kind)] of the missing
    [list-selectors.js], [None] when the call throws; the outer [None] is a
    view created without [issueStores]. *)
Variable selectors : option (string -> string -> option (list Issue)).

(** The [catch] block of [refreshFromStores]. *)
Definition refresh_failed (v : View) : View :=
  {| list_ready := []; list_blocked := []; list_in_progress := [];
     list_closed := [];
     list_closed_raw := list_closed_raw v;
     all_issues_cache := all_issues_cache v;
     client_filters := client_filters v; work_filters := work_filters v;
     closed_filter_mode := closed_filter_mode v |}.

(** [refreshFromStores()]. *)
Definition refreshFromStores (now : Z) (v : View) : View :=
  match selectors with
  | Some selectBoardColumn =>
      match selectBoardColumn "tab:board:in-progress" "in_progress",
            selectBoardColumn "tab:board:blocked" "blocked",
            selectBoardColumn "tab:board:ready" "ready",
            selectBoardColumn "tab:board:closed" "closed" with
      | Some in_progress, Some blocked, Some ready_raw, Some closed =>
          let in_prog_ids : gset string := list_to_set (map id in_progress) in
          let ready := List.filter (fun i => negb (bool_decide (id i ∈ in_prog_ids))) ready_raw in
          let has_label_filters :=
            (0 <? length (client_filters v))%nat || (0 <? length (work_filters v))%nat in
          let pick (l : list Issue) :=
            if has_label_filters then List.filter (matchesLabelFilters v) l else l in
          applyClosedFilter now
            {| list_ready := pick ready;
               list_blocked := pick blocked;
               list_in_progress := pick in_progress;
               list_closed := list_closed v;
               list_closed_raw := pick closed;
               all_issues_cache := in_progress ++ blocked ++ ready ++ closed;
               client_filters := client_filters v; work_filters := work_filters v;
               closed_filter_mode := closed_filter_mode v |}
      | _, _, _, _ => refresh_failed v
      end
  | None => applyClosedFilter now v
  end.

End WithClock.

End Board.

(** ** src/app/views/list.js *)

Module ListView.
Import Data.

(** The mutable variables of [createListView] that the template reads. *)
Record View := {
  status_filters : list string;
  search_text : string;
  type_filters : list string;
  client_filters : list string;
  work_filters : list string;
  issues_cache : list Issue
}.

(** [matchesLabelFilters(issue)]. *)
Definition matchesLabelFilters (v : View) (issue : Issue) : bool :=
  let labels := default [] (labels issue) in
  forallb (fun client => bool_decide (("client:" ++ client)%string ∈ labels)) (client_filters v)
  && forallb (fun work => bool_decide (("work:" ++ work)%string ∈ labels)) (work_filters v).

Section Template.

(** [String.prototype.toLowerCase]. *)
Variable toLowerCase : string -> string.

Definition status_shown (v : View) (it : Issue) : bool :=
  bool_decide (default EmptyString (status it) ∈ status_filters v).

Definition search_shown (v : View) (it : Issue) : bool :=
  let needle := toLowerCase (search_text v) in
  let a := toLowerCase (id it) in
  let b := toLowerCase (default EmptyString (title it)) in
  Js.includes a needle || Js.includes b needle.

Definition type_shown (v : View) (it : Issue) : bool :=
  bool_decide (default EmptyString (issue_type it) ∈ type_filters v).

(** The rows [template()] renders: [filtered] at the point where the
    table is built. *)
Definition template (v : View) : list Issue :=
  let filtered := issues_cache v in
  let filtered :=
    if (0 <? length (status_filters v))%nat
       && negb (bool_decide ("ready" ∈ status_filters v))
    then List.filter (status_shown v) filtered else filtered in
  let filtered :=
    if negb (String.eqb (search_text v) EmptyString)
    then List.filter (search_shown v) filtered else filtered in
  let filtered :=
    if (0 <? length (type_filters v))%nat
    then List.filter (type_shown v) filtered else filtered in
  let filtered :=
    if (0 <? length (client_filters v))%nat || (0 <? length (work_filters v))%nat
    then List.filter (matchesLabelFilters v) filtered else filtered in
  if bool_decide (status_filters v = ["closed"])
  then Js.sort Sort.cmpClosedDesc filtered else filtered.

(** [selectors.selectIssuesFor(key)] of the missing [list-selectors.js],
    [None] when the call throws; the outer [None] is a view created without
    [issue_stores]. *)
Variable selectors : option (string -> option (list Issue)).

(** [load()] and the callback of [selectors.subscribe], as far as the
    cache goes. *)
Definition load (v : View) : View :=
  {| status_filters := status_filters v; search_text := search_text v;
     type_filters := type_filters v;
     client_filters := client_filters v; work_filters := work_filters v;
     issues_cache :=
       match selectors with
       | Some selectIssuesFor => default [] (selectIssuesFor "tab:issues")
       | None => []
       end |}.

End Template.

End ListView.

(** ** Values of unknown type *)

Module Dyn.

(** A JavaScript value of unknown type, as far as the code looks at it:
    whether it is a string, and for any other value its truthiness and the
    text [String(v)] gives.  Every combination of the two is allowed for, so
    that no value is left out. *)
Inductive Value :=
| OStr (s : string)
| OOther (truthy : bool) (text : string).

(** [undefined]. *)
Definition undefined : Value := OOther false "undefined".

(** [ToBoolean]. *)
Definition truthy (v : Value) : bool :=
  match v with
  | OStr s => negb (String.eqb s EmptyString)
  | OOther b _ => b
  end.

(** [String(v)]. *)
Definition to_String (v : Value) : string :=
  match v with
  | OStr s => s
  | OOther _ text => text
  end.

(** [list.includes(v)] for an array of string literals: [v] is a string and
    one of them. *)
Definition one_of (l : list string) (v : Value) : bool :=
  match v with
  | OStr s => bool_decide (s ∈ l)
  | OOther _ _ => false
  end.

End Dyn.

(** ** src/app/state.js: the initial state *)

Module CreateStore.
Import State.

(** The [filters] key of [initial]. *)
Record InitialFilters := {
  initial_status : option FilterValue;
  initial_search : option string;
  initial_type : Dyn.Value;
  initial_client : option (list string);
  initial_work : option (list string)
}.

(** The [board] and the [workspace] key of [initial]. *)
Record InitialBoard := { initial_closed_filter : Dyn.Value }.

Record InitialWorkspace := {
  initial_current : option WorkspaceInfo;
  initial_available : option (list WorkspaceInfo)
}.

(** The argument of [createStore]: a key that is absent or [null] is
    [None]; [initial_client] and [initial_work] are [Some] for an array. *)
Record Initial := {
  initial_selected_id : option string;
  initial_view : option string;
  initial_filters : option InitialFilters;
  initial_board : option InitialBoard;
  initial_workspace : option InitialWorkspace
}.

(** [initial.filters?.type]. *)
Definition filters_type (initial : Initial) : Dyn.Value :=
  match initial_filters initial with
  | Some f => initial_type f
  | None => Dyn.undefined
  end.

(** [initial.board?.closed_filter]. *)
Definition board_closed_filter (initial : Initial) : Dyn.Value :=
  match initial_board initial with
  | Some b => initial_closed_filter b
  | None => Dyn.undefined
  end.

(** [createStore(initial)]: the initial [state] and the empty [subs]. *)
Definition createStore (initial : Initial) : Store :=
  {| state :=
       {| selected_id := initial_selected_id initial;
          view := default "issues" (initial_view initial);
          filters :=
            {| status := default (FStr "all") (initial_filters initial ≫= initial_status);
               search := default EmptyString (initial_filters initial ≫= initial_search);
               type :=
                 match filters_type initial with
                 | Dyn.OStr s => FStr s
                 | Dyn.OOther _ _ => FStr EmptyString
                 end;
               client := default [] (initial_filters initial ≫= initial_client);
               work := default [] (initial_filters initial ≫= initial_work) |};
          board :=
            {| closed_filter :=
                 match board_closed_filter initial with
                 | Dyn.OStr s =>
                     if String.eqb s "3" || String.eqb s "7" || String.eqb s "today"
                     then s else "today"
                 | Dyn.OOther _ _ => "today"
                 end |};
          workspace :=
            {| current := initial_workspace initial ≫= initial_current;
               available := default [] (initial_workspace initial ≫= initial_available) |} |};
     subs := [] |}.

End CreateStore.

(** ** src/app/main.js: persisted preferences *)

Module Prefs.
Import State.

(** What [localStorage.getItem] followed by [JSON.parse] gives. *)
Inductive Parsed (A : Type) :=
| NoItem
| Throws
| NotObject
| Object (obj : A).
Arguments NoItem {A}.
Arguments Throws {A}.
Arguments NotObject {A}.
Arguments Object {A} obj.

(** The keys read of the object stored under [beads-ui.filters];
    [obj_types] is [Some] when [obj.types] is an array. *)
Record FiltersObject := {
  obj_status : Dyn.Value;
  obj_search : Dyn.Value;
  obj_type : Dyn.Value;
  obj_types : option (list Dyn.Value)
}.

(** The key read of the object stored under [beads-ui.board]. *)
Record BoardObject := { obj_closed_filter : Dyn.Value }.

(** [persisted_filters]; its [type] is whatever the loop over [obj.types]
    picked. *)
Record PersistedFilters := {
  pf_status : string;
  pf_search : string;
  pf_type : Dyn.Value
}.

(** [ALLOWED] and the array of statuses the loader accepts. *)
Definition ALLOWED : list string := ["bug"; "feature"; "task"; "epic"; "chore"].

Definition STATUSES : list string := ["all"; "open"; "in_progress"; "closed"; "ready"].

(** The [for] loop over [obj.types]. *)
Fixpoint first_valid (types : list Dyn.Value) : Dyn.Value :=
  match types with
  | [] => Dyn.OStr EmptyString
  | it :: rest =>
      if bool_decide (Dyn.to_String it ∈ ALLOWED) then it else first_valid rest
  end.

(** [parsed_type]. *)
Definition parsed_type (obj : FiltersObject) : Dyn.Value :=
  if Dyn.one_of ALLOWED (obj_type obj) then obj_type obj
  else match obj_types obj with
       | Some types => first_valid types
       | None => Dyn.OStr EmptyString
       end.

(** [persisted_filters] after the first [try] block. *)
Definition persisted_filters (raw : Parsed FiltersObject) : PersistedFilters :=
  match raw with
  | Object obj =>
      {| pf_status :=
           if Dyn.one_of STATUSES (obj_status obj) then Dyn.to_String (obj_status obj)
           else "all";
         pf_search :=
           match obj_search obj with Dyn.OStr s => s | Dyn.OOther _ _ => EmptyString end;
         pf_type := parsed_type obj |}
  | _ => {| pf_status := "all"; pf_search := EmptyString; pf_type := Dyn.OStr EmptyString |}
  end.

(** [last_view]; [raw_view] is [None] when [getItem] gives [null] or throws. *)
Definition last_view (raw_view : option string) : string :=
  match raw_view with
  | Some v =>
      if String.eqb v "issues" || String.eqb v "epics" || String.eqb v "board"
      then v else "issues"
  | None => "issues"
  end.

(** [persistedBoard.closed_filter]. *)
Definition persistedBoard (raw_board : Parsed BoardObject) : string :=
  match raw_board with
  | Object obj =>
      let cf :=
        if Dyn.truthy (obj_closed_filter obj) then Dyn.to_String (obj_closed_filter obj)
        else "today" in
      if String.eqb cf "today" || String.eqb cf "3" || String.eqb cf "7"
      then cf else "today"
  | _ => "today"
  end.

(** The store [bootstrap] creates from the three stored items. *)
Definition initial_store
  (raw : Parsed FiltersObject) (raw_view : option string) (raw_board : Parsed BoardObject)
  : Store :=
  let pf := persisted_filters raw in
  CreateStore.createStore
    {| CreateStore.initial_selected_id := None;
       CreateStore.initial_view := Some (last_view raw_view);
       CreateStore.initial_filters :=
         Some {| CreateStore.initial_status := Some (FStr (pf_status pf));
                 CreateStore.initial_search := Some (pf_search pf);
                 CreateStore.initial_type := pf_type pf;
                 CreateStore.initial_client := None;
                 CreateStore.initial_work := None |};
       CreateStore.initial_board :=
         Some {| CreateStore.initial_closed_filter := Dyn.OStr (persistedBoard raw_board) |};
       CreateStore.initial_workspace := None |}.

(** A filter value after [JSON.stringify] and [JSON.parse]: a string comes
    back as it was, an array as an array of its items. *)
Definition reparsed (v : FilterValue) : Dyn.Value :=
  match v with
  | FStr s => Dyn.OStr s
  | FArr _ items => Dyn.OOther true (Js.join "," items)
  end.

(** What the two persisting subscribers leave in [localStorage] for a state,
    as [JSON.parse] reads it back; the subscriber stores
    [typeof s.filters.type === 'string' ? s.filters.type : ''] as the
    type. *)
Definition stored_filters (s : AppState) : Parsed FiltersObject :=
  Object {| obj_status := reparsed (status (filters s));
            obj_search := Dyn.OStr (search (filters s));
            obj_type :=
              match type (filters s) with
              | FStr t => Dyn.OStr t
              | FArr _ _ => Dyn.OStr EmptyString
              end;
            obj_types := None |}.

Definition stored_board (s : AppState) : Parsed BoardObject :=
  Object {| obj_closed_filter := Dyn.OStr (closed_filter (board s)) |}.

End Prefs.

(** ** Strings *)

Module Text.

(** [s.split(sep)] for a one-character separator: the pieces between the
    occurrences of [sep], of which there is always at least one. *)
Fixpoint split (sep : ascii) (s : string) : list string :=
  match s with
  | EmptyString => [EmptyString]
  | String c s' =>
      if Ascii.eqb c sep then EmptyString :: split sep s'
      else match split sep s' with
           | [] => [String c EmptyString]
           | piece :: pieces => String c piece :: pieces
           end
  end.

(** [Boolean(s)] on a string. *)
Definition nonempty (s : string) : bool := negb (String.eqb s EmptyString).

(** [c] does not occur in [s]. *)
Fixpoint free_of (c : ascii) (s : string) : bool :=
  match s with
  | EmptyString => true
  | String d s' => negb (Ascii.eqb d c) && free_of c s'
  end.

(** [label.slice(n)]: the string without its first [n] code units. *)
Fixpoint slice (n : nat) (s : string) : string :=
  match n, s with
  | O, _ => s
  | S n', String _ s' => slice n' s'
  | S _, EmptyString => EmptyString
  end.

End Text.

(** ** src/app/main.js: project names and connection toasts *)

Module MainHelpers.

(** [getProjectName(path)]. *)
Definition getProjectName (path : string) : string :=
  if negb (Text.nonempty path) then "Unknown"
  else
    let parts := List.filter Text.nonempty (Text.split "/" path) in
    match last parts with
    | Some part => part
    | None => "Unknown"
    end.

(** The two toasts of the connection handler:
    [showToast('Connection lost. Reconnecting...', 'error', 4000)] and
    [showToast('Reconnected', 'success', 2200)]. *)
Inductive ConnToast := ConnectionLost | Reconnected.

#[global] Instance ConnToast_eq_dec : EqDecision ConnToast.
Proof. solve_decision. Defined.

(** [onConn(s)]: the new value of [had_disconnect] and the toasts shown. *)
Definition onConn (s : string) (had_disconnect : bool) : bool * list ConnToast :=
  if String.eqb s "reconnecting" || String.eqb s "closed" then (true, [ConnectionLost])
  else if String.eqb s "open" && had_disconnect then (false, [Reconnected])
  else (had_disconnect, []).

(** The handler run over a sequence of connection states. *)
Definition onConn_all (events : list string) (start : bool * list ConnToast)
  : bool * list ConnToast :=
  foldl (fun acc s => let r := onConn s acc.1 in (r.1, (acc.2 ++ r.2)%list)) start events.

End MainHelpers.

(** ** src/server/registry-watcher.js: the in-memory registry *)

Module Registry.
Import RegistryWatcher.

(** The argument of [registerWorkspace]. *)
Record WorkspaceRef := { ref_path : string; ref_database : string }.

(** [Map.prototype.set]: the value of a key that is present is replaced in
    place; a new key goes last. *)
Fixpoint map_set {V : Type} (k : string) (v : V) (m : list (string * V)) : list (string * V) :=
  match m with
  | [] => [(k, v)]
  | (k', v') :: rest =>
      if String.eqb k' k then (k, v) :: rest else (k', v') :: map_set k v rest
  end.

Section WithNode.

(** [path.resolve] and [path.sep] of Node, and [process.pid]. *)
Variable resolve : string -> string.
Variable sep : string.
Variable process_pid : Z.

(** [registerWorkspace(workspace)] on the [inMemoryWorkspaces] map, kept in
    insertion order. *)
Definition registerWorkspace (workspace : WorkspaceRef) (inMemoryWorkspaces : list (string * Workspace))
  : list (string * Workspace) :=
  let normalized := resolve (ref_path workspace) in
  map_set normalized
    {| path := normalized;
       database := ref_database workspace;
       pid := Some process_pid;
       version := "dynamic" |}
    inMemoryWorkspaces.

(** [getInMemoryWorkspaces()]. *)
Definition getInMemoryWorkspaces (inMemoryWorkspaces : list (string * Workspace)) : list Workspace :=
  map snd inMemoryWorkspaces.

(** [findWorkspaceEntry(root_dir)], with the result of [readRegistry()] as
    an argument; [None] is [null]. *)
Definition findWorkspaceEntry (entries : list RegistryEntry) (root_dir : string)
  : option RegistryEntry :=
  let normalized := resolve root_dir in
  match List.find (fun entry => String.eqb (resolve (workspace_path entry)) normalized) entries with
  | Some entry => Some entry
  | None =>
      List.find (fun entry => String.prefix (resolve (workspace_path entry) ++ sep) normalized)
                entries
  end.

(** The map after a sequence of [registerWorkspace] calls on the empty one. *)
Definition registerAll (workspaces : list WorkspaceRef) : list (string * Workspace) :=
  foldl (fun m w => registerWorkspace w m) [] workspaces.

(** The entry [registerWorkspace] stores for a workspace. *)
Definition dynamic (workspace : WorkspaceRef) : Workspace :=
  {| path := resolve (ref_path workspace);
     database := ref_database workspace;
     pid := Some process_pid;
     version := "dynamic" |}.

End WithNode.

(** The map has one entry per key, and the key of an entry is its path. *)
Definition keyed (m : list (string * Workspace)) : Prop :=
  NoDup (map fst m) /\ Forall (fun kv => path kv.2 = kv.1) m.

End Registry.

(** ** src/server/registry-watcher.js: the watcher *)

Module Watcher.

(** What happens to a watcher created by [watchRegistry]: the directory
    watcher reports an event, the pending timeout fires, or [close()] is
    called. *)
Inductive WatchEvent :=
| FsEvent (event_type : string) (filename : option string)
| TimerFires
| Close.

(** The closure of [watchRegistry]: whether a timeout set by [schedule] is
    still pending, and whether the directory watcher has been closed. *)
Record Watch := {
  timer_pending : bool;
  watcher_closed : bool
}.

(** [path.basename(getRegistryPath())]. *)
Definition registry_file : string := "registry.json".

(** The guard of the watcher's listener: the event is about another file. *)
Definition other_file (filename : option string) : bool :=
  match filename with
  | Some f => negb (String.eqb f EmptyString) && negb (String.eqb f registry_file)
  | None => false
  end.

(** The listener schedules a read of the registry for this event. *)
Definition schedules (event_type : string) (filename : option string) : bool :=
  negb (other_file filename)
  && (String.eqb event_type "change" || String.eqb event_type "rename").

(** One event: the watcher afterwards and the number of [onChange] calls it
    makes (the timeout's callback reads the registry and calls [onChange]
    once).  A closed directory watcher reports nothing, and only a pending
    timeout fires. *)
Definition watch_step (w : Watch) (ev : WatchEvent) : Watch * nat :=
  match ev with
  | FsEvent event_type filename =>
      if watcher_closed w then (w, 0%nat)
      else if schedules event_type filename
           then ({| timer_pending := true; watcher_closed := false |}, 0%nat)
           else (w, 0%nat)
  | TimerFires =>
      if timer_pending w
      then ({| timer_pending := false; watcher_closed := watcher_closed w |}, 1%nat)
      else (w, 0%nat)
  | Close => ({| timer_pending := false; watcher_closed := true |}, 0%nat)
  end.

(** A sequence of events: the watcher afterwards and the number of
    [onChange] calls made. *)
Fixpoint watch_run (w : Watch) (evs : list WatchEvent) : Watch * nat :=
  match evs with
  | [] => (w, 0%nat)
  | ev :: rest =>
      let r := watch_step w ev in
      let r' := watch_run r.1 rest in
      (r'.1, (r.2 + r'.2)%nat)
  end.

(** The watcher [watchRegistry] returns. *)
Definition watching : Watch := {| timer_pending := false; watcher_closed := false |}.

(** The events for which the listener calls [schedule]. *)
Definition scheduling (ev : WatchEvent) : bool :=
  match ev with
  | FsEvent event_type filename => schedules event_type filename
  | _ => false
  end.

End Watcher.

(** ** src/app/main.js: the blocks of the tab subscriptions *)

Module Tabs.
Import Data Main.

(** The view whose block of [ensureTabSubscriptions] assigns the
    variable. *)
Definition tab_of (v : UnsubVar) : option string :=
  match v with
  | unsub_issues_tab => Some "issues"
  | unsub_epics_tab => Some "epics"
  | unsub_board_ready | unsub_board_in_progress
  | unsub_board_closed | unsub_board_blocked => Some "board"
  | unsub_detail => None
  end.

(** The key of the store and subscription of a tab variable. *)
Definition store_key (v : UnsubVar) : option string :=
  match v with
  | unsub_issues_tab => Some "tab:issues"
  | unsub_epics_tab => Some "tab:epics"
  | unsub_board_ready => Some "tab:board:ready"
  | unsub_board_in_progress => Some "tab:board:in-progress"
  | unsub_board_closed => Some "tab:board:closed"
  | unsub_board_blocked => Some "tab:board:blocked"
  | unsub_detail => None
  end.

(** The effects [sh'] adds to the trace of [sh]. *)
Definition added (sh sh' : Shell) (es : list Effect) : Prop :=
  trace sh' = (trace sh ++ es)%list.

(** The condition under which the issues block calls [subscribeList]. *)
Definition issues_guard (s : State.AppState) (sh : Shell) : bool :=
  let key := JSON_stringify_spec (computeIssuesSpec (State.filters s)) in
  (negb (is_set (handles sh unsub_issues_tab))
   || negb (bool_decide (Some key = last_issues_spec_key sh)))
  && negb (bool_decide ("tab:issues:" ++ key ∈ pending_subscriptions sh)).

(** The same for the epics block and for a board column's block. *)
Definition column_guard (v : UnsubVar) (key : string) (sh : Shell) : bool :=
  negb (is_set (handles sh v)) && negb (bool_decide (key ∈ pending_subscriptions sh)).

(** The [register] call that the issues and the epics block make on every
    run while their view is shown. *)
Definition register_active_tab (s : State.AppState) (sh : Shell) : Shell :=
  if String.eqb (State.view s) "issues"
  then do_register "tab:issues" (computeIssuesSpec (State.filters s)) sh
  else if String.eqb (State.view s) "epics"
       then do_register "tab:epics" {| spec_type := "epics"; spec_params := None |} sh
       else sh.

(** An effect on the store or the subscription of [key]: its registration or
    a call of [subscribeList] for it. *)
Definition opens (key : string) (e : Effect) : Prop :=
  match e with
  | ERegister k _ | ESubscribeList k _ => k = key
  | _ => False
  end.

(** The six releases at the head of [clearAndResubscribe]. *)
Definition release_tabs (sh : Shell) : Shell :=
  release_if_set unsub_board_blocked
    (release_if_set unsub_board_closed
       (release_if_set unsub_board_in_progress
          (release_if_set unsub_board_ready
             (release_if_set unsub_epics_tab
                (release_if_set unsub_issues_tab sh))))).

(** The unregistrations in the middle of [clearAndResubscribe] and the reset
    of [last_issues_spec_key]. *)
Definition unregister_tabs (s : State.AppState) (sh : Shell) : Shell :=
  let sh := foldl (fun sh i => do_unregister i sh) sh
              ["tab:issues"; "tab:epics"; "tab:board:ready";
               "tab:board:in-progress"; "tab:board:closed"; "tab:board:blocked"] in
  let sh := match truthy_id (State.selected_id s) with
            | Some i => do_unregister ("detail:" ++ i) sh
            | None => sh
            end in
  set_last None sh.

(** The call the issues block leaves in flight for the filters of [s]. *)
Definition issues_call (s : State.AppState) : Call :=
  let spec := computeIssuesSpec (State.filters s) in
  let key := JSON_stringify_spec spec in
  {| call_key := "tab:issues"; call_spec := spec;
     call_then := KTab unsub_issues_tab (Some key) ("tab:issues:" ++ key)
                       "subscribe issues failed" "issues list" |}.

(** The call [toggle] leaves in flight when it expands [epic_id]. *)
Definition epic_call (epic_id : string) : Call :=
  {| call_key := "detail:" ++ epic_id; call_spec := detail_spec epic_id;
     call_then := KEpic epic_id |}.

(** The call [toggle] leaves in flight when it collapses [epic_id] and
    awaits the unsubscribe function [u] found in [epic_unsubs]. *)
Definition collapse_call (epic_id : string) (u : Handle) : Call :=
  {| call_key := handle_key u; call_spec := handle_spec u; call_then := KCollapse epic_id |}.

(** The call the selection subscriber leaves in flight for the issue
    [i]. *)
Definition detail_call (i : string) : Call :=
  {| call_key := "detail:" ++ i; call_spec := detail_spec i; call_then := KDetail |}.

(** The handle that call resolves to. *)
Definition detail_handle (i : string) : Handle :=
  {| handle_key := "detail:" ++ i; handle_spec := detail_spec i |}.

End Tabs.

(** ** src/app/main.js: the keys of the handles held *)

Module Keyed.
Import Data Main Tabs.

(** A call whose handle goes to a tab variable is a call for that tab's
    key, and one whose handle goes to [unsub_detail] is a call for a detail
    key. *)
Definition well_keyed_call (c : Call) : Prop :=
  match call_then c with
  | KTab v _ _ _ _ => store_key v = Some (call_key c)
  | KDetail => exists i, call_key c = "detail:" ++ i
  | _ => True
  end.

(** A handle held in a tab variable is one of that tab's key, and one held
    in [unsub_detail] is one of a detail key. *)
Definition well_keyed_handle (v : UnsubVar) (h : Handle) : Prop :=
  match store_key v with
  | Some key => handle_key h = key
  | None => exists i, handle_key h = "detail:" ++ i
  end.

(** The calls in flight and the handles held are well keyed. *)
Definition well_keyed (sh : Shell) : Prop :=
  Forall well_keyed_call (in_flight sh)
  /\ forall v h, handles sh v = Some h -> well_keyed_handle v h.

End Keyed.

(** ** src/app/main.js: the calls in flight of the issues tab *)

Module Retry.
Import Data Main Tabs.

(** A call in flight is still wanted: a call of the issues tab carries the
    fingerprint of its spec and the pending entry made of it, and the tab
    holds no handle or one subscribed under another fingerprint; the calls
    of the other tabs carry no fingerprint. *)
Definition wanted (held : option Handle) (last_key : option string) (c : Call) : Prop :=
  match call_then c with
  | KTab v last pk _ _ =>
      if decide (v = unsub_issues_tab) then
        last = Some (JSON_stringify_spec (call_spec c))
        /\ pk = "tab:issues:" ++ JSON_stringify_spec (call_spec c)
        /\ (held = None \/ last_key <> last)
      else last = None
  | _ => True
  end.

Definition all_wanted (sh : Shell) : Prop :=
  Forall (wanted (handles sh unsub_issues_tab) (last_issues_spec_key sh)) (in_flight sh).

End Retry.

(** ** Label filters of the views *)

Module Labels.
Import Data.

(** [values.add(x)] on a [Set], kept in insertion order. *)
Definition set_add (x : string) (values : list string) : list string :=
  if bool_decide (x ∈ values) then values else values ++ [x].

(** The inner loop of [getLabelsByPrefix] over the labels of one issue. *)
Definition add_labels (prefix : string) (values : list string) (issue : Issue) : list string :=
  match labels issue with
  | Some labels =>
      foldl (fun values label =>
               if String.prefix prefix label
               then set_add (Text.slice (String.length prefix) label) values
               else values)
            values labels
  | None => values
  end.

(** The comparison [Array.prototype.sort] uses without a comparator: -1
    when [a < b], 1 when [b < a], 0 otherwise, [<] comparing strings by their
    UTF-16 code units. *)
Definition cmpDefault (a b : string) : Z :=
  if Js.units_ltb (Js.code_units a) (Js.code_units b) then -1
  else if Js.units_ltb (Js.code_units b) (Js.code_units a) then 1
  else 0.

(** [getLabelsByPrefix(prefix)] of the board and list views over their cache
    of issues. *)
Definition getLabelsByPrefix (prefix : string) (cache : list Issue) : list string :=
  Js.sort cmpDefault (foldl (add_labels prefix) [] cache).

(** [selected.includes(x) ? selected.filter(c => c !== x) : [...selected, x]],
    the body shared by the filter toggles. *)
Definition toggled (x : string) (selected : list string) : list string :=
  if bool_decide (x ∈ selected)
  then List.filter (fun c => negb (String.eqb c x)) selected
  else selected ++ [x].

(** The order of strings by their UTF-16 code units: [a] comes before [b]
    when its code units are a proper prefix of those of [b], or when the first
    code unit in which the two differ is the smaller one in [a]. *)
Definition code_unit_lt (a b : string) : Prop :=
  let ua := Js.code_units a in
  let ub := Js.code_units b in
  (exists y rest, ub = (ua ++ y :: rest)%list)
  \/ (exists p x y ra rb,
        ua = (p ++ x :: ra)%list /\ ub = (p ++ y :: rb)%list /\ (x < y)%N).

(** U+1F600, which UTF-16 holds as the surrogate pair D83D DE00, and
    U+FF5E. *)
Definition grinning_face : string :=
  String "240"%char (String "159"%char (String "152"%char (String "128"%char EmptyString))).

Definition fullwidth_tilde : string :=
  String "239"%char (String "189"%char (String "158"%char EmptyString)).

End Labels.

(** ** src/app/views/board.js: filter actions *)

Module BoardActions.
Import Data Board.

(** The view with other label filters, and with another closed-filter
    mode. *)
Definition with_filters (client work : list string) (v : View) : View :=
  {| list_ready := list_ready v; list_blocked := list_blocked v;
     list_in_progress := list_in_progress v; list_closed := list_closed v;
     list_closed_raw := list_closed_raw v; all_issues_cache := all_issues_cache v;
     client_filters := client; work_filters := work;
     closed_filter_mode := closed_filter_mode v |}.

Definition with_mode (mode : string) (v : View) : View :=
  {| list_ready := list_ready v; list_blocked := list_blocked v;
     list_in_progress := list_in_progress v; list_closed := list_closed v;
     list_closed_raw := list_closed_raw v; all_issues_cache := all_issues_cache v;
     client_filters := client_filters v; work_filters := work_filters v;
     closed_filter_mode := mode |}.

(** The patches [{ filters: { client } }] and
    [{ board: { closed_filter } }] passed to [store.setState]. *)
Definition filters_patch (client work : option (list string)) : State.Patch :=
  {| State.patch_selected_id := None; State.patch_view := None;
     State.patch_filters :=
       Some {| State.patch_status := None; State.patch_search := None;
               State.patch_type := None;
               State.patch_client := client; State.patch_work := work |};
     State.patch_board := None; State.patch_workspace := None |}.

Definition board_patch (mode : string) : State.Patch :=
  {| State.patch_selected_id := None; State.patch_view := None;
     State.patch_filters := None;
     State.patch_board := Some {| State.patch_closed_filter := Some mode |};
     State.patch_workspace := None |}.

(** The initial [closed_filter_mode] of a view created with a store, read
    from the store's state. *)
Definition initial_closed_filter_mode (s : State.AppState) : string :=
  let cf := if String.eqb (State.closed_filter (State.board s)) EmptyString then "today"
            else State.closed_filter (State.board s) in
  if String.eqb cf "today" || String.eqb cf "3" || String.eqb cf "7" then cf else "today".

Section WithClock.

(** The clock and the selectors of [Board.refreshFromStores]. *)
Variable start_of_local_day : Z -> Z.
Variable selectors : option (string -> string -> option (list Issue)).

(** [toggleClientFilter(client)] of a view created with a store: the view
    afterwards and the patch passed to [store.setState]. *)
Definition toggleClientFilter (client : string) (now : Z) (v : View) : View * State.Patch :=
  let client_filters := Labels.toggled client (client_filters v) in
  (refreshFromStores start_of_local_day selectors now
     (with_filters client_filters (work_filters v) v),
   filters_patch (Some client_filters) None).

(** [onClosedFilterChange(ev)], [value] being [ev.target.value]. *)
Definition onClosedFilterChange (value : string) (now : Z) (v : View) : View * State.Patch :=
  let v0 := if String.eqb value EmptyString then "today" else value in
  let mode := if String.eqb v0 "3" || String.eqb v0 "7" then v0 else "today" in
  (applyClosedFilter start_of_local_day now (with_mode mode v), board_patch mode).

End WithClock.

End BoardActions.

(** ** src/app/views/board.js: keyboard navigation *)

Module BoardKeys.

(** What the [keydown] listener of the board does for a key pressed on a
    card: it opens the issue, moves the focus to the card at a column and
    row index, or does nothing. *)
Inductive Action :=
| Goto (id : string)
| Focus (column row : nat)
| Nothing.

(** The [while] loop for [ArrowRight]: the first column with a card among
    [columns], which start at index [next_idx]. *)
Fixpoint scan_right (columns : list (list string)) (next_idx : nat) : option nat :=
  match columns with
  | [] => None
  | cards :: rest =>
      if (0 <? length cards)%nat then Some next_idx else scan_right rest (S next_idx)
  end.

(** The [while] loop for [ArrowLeft], which looks at the columns below
    index [col_idx] from the nearest on. *)
Fixpoint scan_left (columns : list (list string)) (col_idx : nat) : option nat :=
  match col_idx with
  | O => None
  | S next_idx =>
      match columns !! next_idx with
      | Some cards =>
          if (0 <? length cards)%nat then Some next_idx else scan_left columns next_idx
      | None => None
      end
  end.

(** The listener, for a key pressed on the card at row [idx] of column
    [col_idx]; [columns] lists the [data-issue-id] of the cards of every
    column, and [editable] tells that the target is an input, a textarea, a
    select or editable content. *)
Definition onKeydown (key : string) (editable : bool) (columns : list (list string))
  (col_idx idx : nat) : Action :=
  if editable then Nothing
  else
    match columns !! col_idx with
    | None => Nothing
    | Some cards =>
        match cards !! idx with
        | None => Nothing
        | Some id =>
            if String.eqb key "Enter" || String.eqb key " " then
              if negb (String.eqb id EmptyString) then Goto id else Nothing
            else if String.eqb key "ArrowDown" && (idx <? length cards - 1)%nat then
              Focus col_idx (idx + 1)
            else if String.eqb key "ArrowUp" && (0 <? idx)%nat then
              Focus col_idx (idx - 1)
            else if String.eqb key "ArrowRight" then
              match scan_right (drop (S col_idx) columns) (S col_idx) with
              | Some target => Focus target 0
              | None => Nothing
              end
            else if String.eqb key "ArrowLeft" then
              match scan_left columns col_idx with
              | Some target => Focus target 0
              | None => Nothing
              end
            else Nothing
        end
    end.

(** Column [j] of [columns] has no card. *)
Definition empty_column (columns : list (list string)) (j : nat) : Prop :=
  columns !! j = Some [].

End BoardKeys.

(** ** src/app/views/list.js: inline updates and the store subscriber *)

Module ListActions.
Import Data ListView.

(** The messages [updateInline] sends, with their payloads. *)
Inductive Mutation :=
| EditText (id field value : string)        (* 'edit-text' *)
| UpdateAssignee (id assignee : string)     (* 'update-assignee' *)
| UpdateStatus (id status : string)         (* 'update-status' *)
| UpdatePriority (id : string) (priority : Num).  (* 'update-priority' *)

(** The keys [updateInline] looks at; a key is [Some] when it holds a value
    of the type the function tests for. *)
Record InlinePatch := {
  inline_title : option string;
  inline_assignee : option string;
  inline_status : option string;
  inline_priority : option Num
}.

(** The mutations the four [if] statements would send, in their order. *)
Definition mutations (id : string) (patch : InlinePatch) : list Mutation :=
  match inline_title patch with Some t => [EditText id "title" t] | None => [] end
  ++ match inline_assignee patch with Some a => [UpdateAssignee id a] | None => [] end
  ++ match inline_status patch with Some s => [UpdateStatus id s] | None => [] end
  ++ match inline_priority patch with Some p => [UpdatePriority id p] | None => [] end.

Section UpdateInline.

(** [sendFn(type, payload)]: [true] when the promise is fulfilled, [false]
    when it is rejected. *)
Variable sendFn : Mutation -> bool.

(** The awaited calls one after the other: a rejection leaves the [try]
    block. *)
Fixpoint send_until_failure (ms : list Mutation) : list Mutation :=
  match ms with
  | [] => []
  | m :: rest => if sendFn m then m :: send_until_failure rest else [m]
  end.

(** [updateInline(id, patch)]: the calls of [sendFn] it makes. *)
Definition updateInline (id : string) (patch : InlinePatch) : list Mutation :=
  send_until_failure (mutations id patch).

End UpdateInline.

(** A filter as the store holds it: the legacy string, the array the list
    view writes, or nothing. *)
Inductive FilterValue :=
| FUndefined
| FString (s : string)
| FArray (l : list string).

(** [normalizeStatusFilter(val)]. *)
Definition normalizeStatusFilter (val : FilterValue) : list string :=
  match val with
  | FArray l => l
  | FString s =>
      if negb (String.eqb s EmptyString) && negb (String.eqb s "all") then [s] else []
  | FUndefined => []
  end.

(** [normalizeTypeFilter(val)]. *)
Definition normalizeTypeFilter (val : FilterValue) : list string :=
  match val with
  | FArray l => l
  | FString s => if negb (String.eqb s EmptyString) then [s] else []
  | FUndefined => []
  end.

(** The [filters] object of a state the store emits, as the list view reads
    it; [em_client] and [em_work] are [Some] for an array. *)
Record EmittedFilters := {
  em_status : FilterValue;
  em_search : string;
  em_type : FilterValue;
  em_client : option (list string);
  em_work : option (list string)
}.

(** The state the store emits, as the list view reads it. *)
Record Emitted := {
  em_selected_id : option string;
  em_filters : option EmittedFilters
}.

(** The variables of [createListView] the store subscriber works on. *)
Record Viewer := {
  view : View;
  selected_id : option string
}.

(** The view with another status filter. *)
Definition with_status (l : list string) (v : View) : View :=
  {| status_filters := l; search_text := search_text v; type_filters := type_filters v;
     client_filters := client_filters v; work_filters := work_filters v;
     issues_cache := issues_cache v |}.

(** [JSON.stringify(a) === JSON.stringify(b)]. *)
Definition same_json (a b : list string) : bool :=
  String.eqb (Js.JSON_stringify_strings a) (Js.JSON_stringify_strings b).

Section Subscriber.

(** [selectors.selectIssuesFor], as for [ListView.load]. *)
Variable selectors : option (string -> option (list Issue)).

(** The store subscriber of the list view, [store.subscribe((s) => ...)]. *)
Definition onStoreState (s : Emitted) (w : Viewer) : Viewer :=
  let w := if bool_decide (em_selected_id s = selected_id w) then w
           else {| view := view w; selected_id := em_selected_id s |} in
  match em_filters s with
  | None => w
  | Some f =>
      let v := view w in
      let next_status := normalizeStatusFilter (em_status f) in
      if negb (same_json next_status (status_filters v)) then
        {| view := load selectors (with_status next_status v);
           selected_id := selected_id w |}
      else
        let next_type := normalizeTypeFilter (em_type f) in
        let next_client := default [] (em_client f) in
        let next_work := default [] (em_work f) in
        {| view :=
             {| status_filters := status_filters v;
                search_text := em_search f;
                type_filters :=
                  if negb (same_json next_type (type_filters v)) then next_type
                  else type_filters v;
                client_filters :=
                  if negb (same_json next_client (client_filters v)) then next_client
                  else client_filters v;
                work_filters :=
                  if negb (same_json next_work (work_filters v)) then next_work
                  else work_filters v;
                issues_cache := issues_cache v |};
           selected_id := selected_id w |}
  end.

End Subscriber.

End ListActions.

(** ** src/app/views/epics.js: groups *)

Module EpicsView.
Import Data.

(** An entity of the [tab:epics] snapshot: the issue, its [dependents] when
    they are an array, and the two counters when they are numbers. *)
Record EpicEntity := {
  epic : Issue;
  dependents : option (list Issue);
  total_children : option Num;
  closed_children : option Num
}.

(** One element of [groups]. *)
Record Group := {
  group_epic : EpicEntity;
  group_total_children : Q;
  group_closed_children : Q
}.

(** [Number.isFinite(x) ? Number(x) || 0 : fallback]. *)
Definition counter (x : option Num) (fallback : Q) : Q :=
  match x with
  | Some (Fin q) => q
  | _ => fallback
  end.

(** [String(d.status || '') === 'closed']. *)
Definition is_closed (d : Issue) : bool :=
  String.eqb (default EmptyString (status d)) "closed".

(** The body of the loop of [buildGroupsFromSnapshot] for one epic. *)
Definition group_of (e : EpicEntity) : Group :=
  let dependents := default [] (dependents e) in
  {| group_epic := e;
     group_total_children :=
       counter (total_children e) (inject_Z (Z.of_nat (length dependents)));
     group_closed_children :=
       counter (closed_children e)
               (inject_Z (Z.of_nat (length (List.filter is_closed dependents)))) |}.

(** [buildGroupsFromSnapshot()], [epic_entities] being the snapshot of
    [tab:epics]: the groups and the new [all_issues_cache]. *)
Definition buildGroupsFromSnapshot (epic_entities : list EpicEntity)
  : list Group * list Issue :=
  (map group_of epic_entities,
   concat (map (fun e => epic e :: default [] (dependents e)) epic_entities)).

(** [load()] of the epics view as far as the subscriptions go: the first
    epic on screen is expanded when it is not yet. *)
Definition load (epic_entities : list EpicEntity) (sh : Main.Shell) : Main.Shell :=
  match (buildGroupsFromSnapshot epic_entities).1 with
  | g :: _ =>
      let first_id := id (epic (group_epic g)) in
      if negb (String.eqb first_id EmptyString)
         && negb (bool_decide (first_id ∈ Main.expanded sh))
      then Main.toggle first_id sh
      else sh
  | [] => sh
  end.

End EpicsView.

(** ** Sample data *)

Module Samples.
Import Data.

(** The state of a fresh store showing [view] with the status filter
    [status]. *)
Definition app_state (view status : string) (selected : option string) : State.AppState :=
  {| State.selected_id := selected;
     State.view := view;
     State.filters :=
       {| State.status := State.FStr status; State.search := EmptyString;
          State.type := State.FStr EmptyString;
          State.client := []; State.work := [] |};
     State.board := {| State.closed_filter := "today" |};
     State.workspace := {| State.current := None; State.available := [] |} |}.

(** A store with two subscribers, the first of which throws. *)
Definition store2 : State.Store :=
  {| State.state := app_state "issues" "all" None;
     State.subs := [ {| State.sub_id := 1%nat; State.sub_fn := fun _ => false |};
                     {| State.sub_id := 2%nat; State.sub_fn := fun _ => true |} ] |}.

Definition empty_patch : State.Patch :=
  {| State.patch_selected_id := None; State.patch_view := None;
     State.patch_filters := None; State.patch_board := None;
     State.patch_workspace := None |}.

(** [{ filters: { search: 'ui' } }]. *)
Definition search_patch : State.Patch :=
  {| State.patch_selected_id := None; State.patch_view := None;
     State.patch_filters :=
       Some {| State.patch_status := None; State.patch_search := Some "ui";
               State.patch_type := None; State.patch_client := None;
               State.patch_work := None |};
     State.patch_board := None; State.patch_workspace := None |}.

(** [{ board: { closed_filter: '7' } }]. *)
Definition board_patch : State.Patch :=
  {| State.patch_selected_id := None; State.patch_view := None;
     State.patch_filters := None;
     State.patch_board := Some {| State.patch_closed_filter := Some "7" |};
     State.patch_workspace := None |}.

(** [{ filters: { status: status_filters } }] of the list view's
    [toggleStatusFilter], [status_filters] being the array [ref] with the
    elements [items]. *)
Definition chips_patch (ref : nat) (items : list string) : State.Patch :=
  {| State.patch_selected_id := None; State.patch_view := None;
     State.patch_filters :=
       Some {| State.patch_status := Some (State.FArr ref items);
               State.patch_search := None; State.patch_type := None;
               State.patch_client := None; State.patch_work := None |};
     State.patch_board := None; State.patch_workspace := None |}.

Definition issue (i : string) (lbls : option (list string)) (closed : option Num) : Issue :=
  {| id := i; title := None; status := None; priority := None; issue_type := None;
     labels := lbls; closed_at := closed |}.

(** The start of the UTC day, for a browser whose local zone is UTC. *)
Definition utc_day (now : Z) : Z := now - now mod 86400000.

(** A board whose raw closed list holds items closed recently, long ago,
    and without a usable close time, with the filter on the last 3 days. *)
Definition board3 : Board.View :=
  {| Board.list_ready := []; Board.list_blocked := []; Board.list_in_progress := [];
     Board.list_closed := [];
     Board.list_closed_raw :=
       [ issue "a" None (Some (Fin (inject_Z 900000000)));
         issue "b" None (Some NaN);
         issue "c" None (Some (Fin (999000000001 # 1000)));
         issue "d" None None;
         issue "e" None (Some (Fin (inject_Z 100))) ];
     Board.all_issues_cache := [];
     Board.client_filters := []; Board.work_filters := [];
     Board.closed_filter_mode := "3" |}.

(** A board with the client label [acme] selected. *)
Definition board_acme : Board.View :=
  {| Board.list_ready := []; Board.list_blocked := []; Board.list_in_progress := [];
     Board.list_closed := []; Board.list_closed_raw := [];
     Board.all_issues_cache := [];
     Board.client_filters := ["acme"]; Board.work_filters := [];
     Board.closed_filter_mode := "today" |}.

(** Mirrors in which [UI-1] is ready and carries no label, [UI-2] is ready
    and in progress, and [UI-3] is ready with the label [client:acme]. *)
Definition board_mirrors (key kind : string) : option (list Issue) :=
  if String.eqb key "tab:board:ready" then
    Some [ issue "UI-1" None None;
           issue "UI-2" (Some ["client:acme"]) None;
           issue "UI-3" (Some ["client:acme"]) None ]
  else if String.eqb key "tab:board:in-progress" then
    Some [ issue "UI-2" (Some ["client:acme"]) None ]
  else Some [].

(** A registry in which only [tab:issues] is registered. *)
Definition issues_only : gmap string Stores.Store :=
  Stores.register "tab:issues" {| spec_type := "all-issues"; spec_params := None |} ∅.

(** A snapshot envelope for [key] carrying [items]. *)
Definition snapshot_for (key : string) (items : list Issue) : Payload :=
  PObject {| env_id := Js.JStr key; env_type := Js.JStr "snapshot";
             env_items := items; env_ids := [] |}.

(** An envelope for [tab:issues] without an [id] property, and one whose
    [type] is no known kind. *)
Definition no_id_envelope : Payload :=
  PObject {| env_id := Js.JUndefined; env_type := Js.JStr "snapshot";
             env_items := [issue "UI-1" None None]; env_ids := [] |}.

Definition odd_type_envelope : Payload :=
  PObject {| env_id := Js.JStr "tab:issues"; env_type := Js.JStr "replace";
             env_items := [issue "UI-1" None None]; env_ids := [] |}.

Definition all_issues : Spec := {| spec_type := "all-issues"; spec_params := None |}.

(** The shell after [bootstrap] on the issues tab, nothing selected. *)
Definition booted : Main.Shell := Main.bootstrap (app_state "issues" "all" None).

(** The call of [subscribeList] that [booted] has in flight. *)
Definition first_call : Main.Call :=
  {| Main.call_key := "tab:issues"; Main.call_spec := all_issues;
     Main.call_then :=
       Main.KTab Main.unsub_issues_tab (Some (JSON_stringify_spec all_issues))
         ("tab:issues:" ++ JSON_stringify_spec all_issues)
         "subscribe issues failed" "issues list" |}.

(** The shell once that call has resolved: the issues tab is subscribed
    with [all-issues]. *)
Definition issues_active : Main.Shell :=
  Main.settle first_call true (Main.set_in_flight [] booted).


(** The epic [E-1] expanded and collapsed before its subscribe resolved,
    which then stored its handle in [epic_unsubs]. *)
Definition collapsed_early : Main.Shell :=
  Main.settle (Tabs.epic_call "E-1") true
    (Main.set_in_flight [] (Main.toggle "E-1" (Main.toggle "E-1" Main.empty_shell))).

(** A start on a deep link to [UI-1], then a workspace switch while the
    detail subscribe is still in flight, then its resolution, then the
    snapshot for [detail:UI-1]. *)
Definition deep_state : State.AppState := app_state "issues" "all" (Some "UI-1").

Definition deep_call : Main.Call :=
  {| Main.call_key := "detail:UI-1"; Main.call_spec := Main.detail_spec "UI-1";
     Main.call_then := Main.KDeepLink |}.

Definition switched : Main.Shell :=
  Main.clearAndResubscribe deep_state (Main.bootstrap deep_state).

Definition resolved_after_switch : Main.Shell :=
  Main.settle deep_call true (Main.set_in_flight [first_call] switched).

Definition snapshot_after_switch : Main.Shell :=
  Main.push "snapshot" (snapshot_for "detail:UI-1" [issue "UI-1" None None])
    resolved_after_switch.

(** The shell after the store has emitted twice while [UI-1] is selected
    and no promise has settled. *)
Definition selected_twice : Main.Shell :=
  Main.onSelection (app_state "issues" "all" (Some "UI-1"))
    (Main.onSelection (app_state "issues" "all" (Some "UI-1")) booted).

End Samples.

(** * Properties *)

(** ** The application store *)

Lemma strict_eq_spec (a b : State.FilterValue) :
  State.strict_eq a b = true <->
  match a, b with
  | State.FStr x, State.FStr y => x = y
  | State.FArr r _, State.FArr r' _ => r = r'
  | _, _ => False
  end.
Proof.
  destruct a as [x|r items], b as [y|r' items']; simpl.
  - apply String.eqb_eq.
  - split; [discriminate | contradiction].
  - split; [discriminate | contradiction].
  - apply Nat.eqb_eq.
Qed.

Lemma nothing_changed_spec (next s : State.AppState) :
  State.nothing_changed next s = true <->
  (State.selected_id next = State.selected_id s
   /\ State.view next = State.view s
   /\ match State.status (State.filters next), State.status (State.filters s) with
      | State.FStr x, State.FStr y => x = y
      | State.FArr r _, State.FArr r' _ => r = r'
      | _, _ => False
      end
   /\ State.search (State.filters next) = State.search (State.filters s)
   /\ match State.type (State.filters next), State.type (State.filters s) with
      | State.FStr x, State.FStr y => x = y
      | State.FArr r _, State.FArr r' _ => r = r'
      | _, _ => False
      end
   /\ Js.JSON_stringify_strings (State.client (State.filters next))
      = Js.JSON_stringify_strings (State.client (State.filters s))
   /\ Js.JSON_stringify_strings (State.work (State.filters next))
      = Js.JSON_stringify_strings (State.work (State.filters s))
   /\ State.closed_filter (State.board next) = State.closed_filter (State.board s)
   /\ State.current_path (State.workspace next) = State.current_path (State.workspace s)
   /\ length (State.available (State.workspace next))
      = length (State.available (State.workspace s))).
Proof.
  unfold State.nothing_changed, State.client_changed, State.work_changed,
    State.workspace_changed.
  rewrite <- !strict_eq_spec.
  rewrite !andb_true_iff, !negb_true_iff, !negb_false_iff, orb_false_iff,
    !negb_false_iff, !String.eqb_eq, !bool_decide_eq_true.
  tauto.
Qed.

(** The object [next] of [setState], key by key: the value the patch gives
    for the key when it has one, the stored value otherwise. *)
Lemma merge_keys (s : State.AppState) (patch : State.Patch) :
  let next := State.merge s patch in
  State.selected_id next = default (State.selected_id s) (State.patch_selected_id patch)
  /\ State.view next = default (State.view s) (State.patch_view patch)
  /\ State.status (State.filters next)
     = default (State.status (State.filters s))
               (State.patch_filters patch ≫= State.patch_status)
  /\ State.search (State.filters next)
     = default (State.search (State.filters s))
               (State.patch_filters patch ≫= State.patch_search)
  /\ State.type (State.filters next)
     = default (State.type (State.filters s))
               (State.patch_filters patch ≫= State.patch_type)
  /\ State.client (State.filters next)
     = default (State.client (State.filters s))
               (State.patch_filters patch ≫= State.patch_client)
  /\ State.work (State.filters next)
     = default (State.work (State.filters s))
               (State.patch_filters patch ≫= State.patch_work)
  /\ State.closed_filter (State.board next)
     = default (State.closed_filter (State.board s))
               (State.patch_board patch ≫= State.patch_closed_filter)
  /\ State.current (State.workspace next)
     = default (State.current (State.workspace s))
               (State.patch_workspace patch ≫= State.patch_current)
  /\ State.available (State.workspace next)
     = default (State.available (State.workspace s))
               (State.patch_workspace patch ≫= State.patch_available).
Proof.
  destruct patch as [psel pv pf pb pw]. unfold State.merge; simpl.
  repeat split.
  - destruct pf as [pf|]; reflexivity.
  - destruct pf as [pf|]; reflexivity.
  - destruct pf as [pf|]; reflexivity.
  - destruct pf as [pf|]; reflexivity.
  - destruct pf as [pf|]; reflexivity.
  - destruct pb as [pb|]; reflexivity.
  - destruct pw as [pw|]; simpl; [destruct (State.patch_current pw)|]; reflexivity.
  - destruct pw as [pw|]; simpl; [destruct (State.patch_available pw)|]; reflexivity.
Qed.

Lemma emit_map fns s :
  State.emit fns s
  = map (fun fn => {| State.inv_sub := State.sub_id fn; State.inv_arg := s;
                      State.inv_returned := State.sub_fn fn s |}) fns.
Proof. induction fns as [|fn fns IH]; simpl; [reflexivity | now rewrite IH]. Qed.

(** The subscribers form a set: [subscribe] never adds a function twice. *)
Lemma subscribe_NoDup fn st :
  NoDup (map State.sub_id (State.subs st)) ->
  NoDup (map State.sub_id (State.subs (State.subscribe fn st))).
Proof.
  intros Hnd. unfold State.subscribe. case_bool_decide as Hin; [exact Hnd|].
  simpl. rewrite map_app. simpl.
  apply NoDup_app; split; [exact Hnd|]. split.
  - intros x Hx Hx'. apply list_elem_of_singleton in Hx'. subst. contradiction.
  - apply NoDup_singleton.
Qed.

(** C9. The object [next] that [setState] builds holds, key by key, the
    value the patch gives for the key when it has one and the stored value
    otherwise.  [setState] is a silent no-op when [next] agrees with the
    stored state on [selected_id], [view], the status, search and type filters
    (compared with [===]: strings by their characters, arrays by identity),
    the JSON serialisations of the client and work filters, the board's closed
    filter, the current workspace's path and the number of available
    workspaces: the store is returned as it was and no subscriber is called.
    Otherwise [next] is installed and the subscribers are called in order with
    it, each one whatever the others return or throw; as the subscribers form
    a set, each is called exactly once. *)
Theorem setState_silent_or_emits_once (st : State.Store) (patch : State.Patch) :
  let s := State.state st in
  let next := State.merge s patch in
  let same (a b : State.FilterValue) :=
    match a, b with
    | State.FStr x, State.FStr y => x = y
    | State.FArr r _, State.FArr r' _ => r = r'
    | _, _ => False
    end in
  let unchanged :=
    State.selected_id next = State.selected_id s
    /\ State.view next = State.view s
    /\ same (State.status (State.filters next)) (State.status (State.filters s))
    /\ State.search (State.filters next) = State.search (State.filters s)
    /\ same (State.type (State.filters next)) (State.type (State.filters s))
    /\ Js.JSON_stringify_strings (State.client (State.filters next))
       = Js.JSON_stringify_strings (State.client (State.filters s))
    /\ Js.JSON_stringify_strings (State.work (State.filters next))
       = Js.JSON_stringify_strings (State.work (State.filters s))
    /\ State.closed_filter (State.board next) = State.closed_filter (State.board s)
    /\ State.current_path (State.workspace next) = State.current_path (State.workspace s)
    /\ length (State.available (State.workspace next))
       = length (State.available (State.workspace s)) in
  (State.selected_id next = default (State.selected_id s) (State.patch_selected_id patch)
   /\ State.view next = default (State.view s) (State.patch_view patch)
   /\ State.status (State.filters next)
      = default (State.status (State.filters s))
                (State.patch_filters patch ≫= State.patch_status)
   /\ State.search (State.filters next)
      = default (State.search (State.filters s))
                (State.patch_filters patch ≫= State.patch_search)
   /\ State.type (State.filters next)
      = default (State.type (State.filters s))
                (State.patch_filters patch ≫= State.patch_type)
   /\ State.client (State.filters next)
      = default (State.client (State.filters s))
                (State.patch_filters patch ≫= State.patch_client)
   /\ State.work (State.filters next)
      = default (State.work (State.filters s))
                (State.patch_filters patch ≫= State.patch_work)
   /\ State.closed_filter (State.board next)
      = default (State.closed_filter (State.board s))
                (State.patch_board patch ≫= State.patch_closed_filter)
   /\ State.current (State.workspace next)
      = default (State.current (State.workspace s))
                (State.patch_workspace patch ≫= State.patch_current)
   /\ State.available (State.workspace next)
      = default (State.available (State.workspace s))
                (State.patch_workspace patch ≫= State.patch_available))
  /\ (unchanged -> State.setState patch st = (st, []))
  /\ (~ unchanged ->
      State.setState patch st
      = ({| State.state := next; State.subs := State.subs st |},
         map (fun fn => {| State.inv_sub := State.sub_id fn; State.inv_arg := next;
                           State.inv_returned := State.sub_fn fn next |})
             (State.subs st))
      /\ (NoDup (map State.sub_id (State.subs st)) ->
          forall fn, In fn (State.subs st) ->
          count_occ Nat.eq_dec (map State.inv_sub (snd (State.setState patch st)))
                    (State.sub_id fn) = 1%nat)).
Proof.
  intros s next same unchanged.
  assert (Hspec : State.nothing_changed next s = true <-> unchanged)
    by (apply nothing_changed_spec).
  assert (Hstep : ~ unchanged ->
          State.setState patch st
          = ({| State.state := next; State.subs := State.subs st |},
             map (fun fn => {| State.inv_sub := State.sub_id fn; State.inv_arg := next;
                               State.inv_returned := State.sub_fn fn next |})
                 (State.subs st))).
  { intros Hch. unfold State.setState. fold s. fold next.
    destruct (State.nothing_changed next s) eqn:E.
    - exfalso. apply Hch, Hspec. reflexivity.
    - simpl. now rewrite emit_map. }
  split; [apply merge_keys|]. split.
  - intros Hun. unfold State.setState. fold s. fold next.
    apply Hspec in Hun. now rewrite Hun.
  - intros Hch. split; [now apply Hstep|].
    intros Hnd fn Hin. rewrite (Hstep Hch). simpl.
    rewrite map_map. simpl.
    apply NoDup_ListNoDup in Hnd.
    apply (proj1 (NoDup_count_occ' Nat.eq_dec _) Hnd).
    now apply in_map.
Qed.

(** On a store with two subscribers, the first of which throws: the empty
    patch is silent; a search patch and a board patch are installed and reach
    both subscribers; and so does the array of chips the list view sends for
    the status, a new object each time, also when its items are those of the
    array stored. *)
Lemma setState_silent_or_emits_once_witness :
  State.setState Samples.empty_patch Samples.store2 = (Samples.store2, [])
  /\ map State.inv_sub (snd (State.setState Samples.search_patch Samples.store2))
     = [1%nat; 2%nat]
  /\ map State.inv_returned (snd (State.setState Samples.search_patch Samples.store2))
     = [false; true]
  /\ map (fun i => State.closed_filter (State.board (State.inv_arg i)))
         (snd (State.setState Samples.board_patch Samples.store2))
     = ["7"; "7"]
  /\ map State.inv_sub
         (snd (State.setState (Samples.chips_patch 2 ["open"])
                 (fst (State.setState (Samples.chips_patch 1 ["open"]) Samples.store2))))
     = [1%nat; 2%nat].
Proof.
  split; [|split; [|split; [|split]]].
  - apply (proj1 (proj2 (setState_silent_or_emits_once Samples.store2 Samples.empty_patch))).
    vm_compute. repeat split.
  - destruct (proj2 (proj2 (setState_silent_or_emits_once Samples.store2 Samples.search_patch)))
      as [H _].
    + vm_compute. intros (_ & _ & _ & H & _). discriminate H.
    + rewrite H. reflexivity.
  - destruct (proj2 (proj2 (setState_silent_or_emits_once Samples.store2 Samples.search_patch)))
      as [H _].
    + vm_compute. intros (_ & _ & _ & H & _). discriminate H.
    + rewrite H. reflexivity.
  - destruct (proj2 (proj2 (setState_silent_or_emits_once Samples.store2 Samples.board_patch)))
      as [H _].
    + vm_compute. intros (_ & _ & _ & _ & _ & _ & _ & H & _). discriminate H.
    + rewrite H. reflexivity.
  - destruct (proj2 (proj2 (setState_silent_or_emits_once
                              (fst (State.setState (Samples.chips_patch 1 ["open"])
                                      Samples.store2))
                              (Samples.chips_patch 2 ["open"])))) as [H _].
    + vm_compute. intros (_ & _ & H & _). discriminate H.
    + rewrite H. reflexivity.
Defined.

(** ** The workspace registry *)

Section Workspaces.

Variable resolve : string -> string.

Lemma elem_of_resolved_paths (ws : list RegistryWatcher.Workspace) (p : string) :
  p ∈ RegistryWatcher.resolved_paths resolve ws
  <-> exists w, w ∈ ws /\ resolve (RegistryWatcher.path w) = p.
Proof.
  unfold RegistryWatcher.resolved_paths.
  rewrite elem_of_list_to_set, list_elem_of_In, in_map_iff.
  split; intros (w & H1 & H2).
  - exists w. split; [now apply list_elem_of_In | exact H1].
  - exists w. split; [exact H2 | now apply list_elem_of_In].
Qed.

(** C8. The result of [getAvailableWorkspaces] is the file-registry
    descriptors, then the in-memory registrations whose resolved path is that
    of no file-registry descriptor, then the discovered workspaces whose
    resolved path is that of no file-registry descriptor and of no in-memory
    registration; so every file-registry entry appears in it. *)
Theorem getAvailableWorkspaces_precedence
  (entries : list RegistryWatcher.RegistryEntry)
  (in_memory discovered_all : list RegistryWatcher.Workspace) :
  let file := RegistryWatcher.fileWorkspaces entries in
  exists inMemory discovered : list RegistryWatcher.Workspace,
    RegistryWatcher.getAvailableWorkspaces resolve entries in_memory discovered_all
    = (file ++ inMemory ++ discovered)%list
    /\ (forall entry, entry ∈ entries ->
        {| RegistryWatcher.path := RegistryWatcher.workspace_path entry;
           RegistryWatcher.database := RegistryWatcher.database_path entry;
           RegistryWatcher.pid := Some (RegistryWatcher.entry_pid entry);
           RegistryWatcher.version := RegistryWatcher.entry_version entry |}
        ∈ RegistryWatcher.getAvailableWorkspaces resolve entries in_memory discovered_all)
    /\ (forall w, w ∈ inMemory <->
          w ∈ in_memory
          /\ forall f, f ∈ file ->
             resolve (RegistryWatcher.path f) <> resolve (RegistryWatcher.path w))
    /\ (forall w, w ∈ discovered <->
          w ∈ discovered_all
          /\ (forall f, f ∈ file ->
              resolve (RegistryWatcher.path f) <> resolve (RegistryWatcher.path w))
          /\ (forall m, m ∈ in_memory ->
              resolve (RegistryWatcher.path m) <> resolve (RegistryWatcher.path w))).
Proof.
  intros file. unfold RegistryWatcher.getAvailableWorkspaces. fold file.
  set (seen := RegistryWatcher.resolved_paths resolve file).
  set (inMemory := filter (fun w => resolve (RegistryWatcher.path w) ∉ seen) in_memory).
  exists inMemory.
  exists (filter (fun w => resolve (RegistryWatcher.path w)
                           ∉ seen ∪ RegistryWatcher.resolved_paths resolve inMemory)
                 discovered_all).
  assert (Hmem : forall w, w ∈ inMemory <->
            w ∈ in_memory
            /\ forall f, f ∈ file ->
               resolve (RegistryWatcher.path f) <> resolve (RegistryWatcher.path w)).
  { intros w. unfold inMemory. rewrite list_elem_of_filter. unfold seen.
    rewrite elem_of_resolved_paths. split.
    - intros [Hn Hin]. split; [exact Hin|]. intros f Hf Heq. apply Hn. now exists f.
    - intros [Hin Hn]. split; [|exact Hin]. intros (f & Hf & Heq). now apply (Hn f). }
  split; [reflexivity|]. split; [|split; [exact Hmem|]].
  - intros entry Hentry. apply elem_of_app. left. unfold file, RegistryWatcher.fileWorkspaces.
    apply list_elem_of_In, in_map_iff. exists entry. split; [reflexivity|].
    now apply list_elem_of_In.
  - intros w. rewrite list_elem_of_filter, not_elem_of_union.
    unfold seen at 1. rewrite !elem_of_resolved_paths. split.
    + intros [[Hf Hm] Hin]. split; [exact Hin|]. split.
      * intros f Hfin Heq. apply Hf. now exists f.
      * intros m Hmin Heq. apply Hm. exists m. split; [|exact Heq].
        apply Hmem. split; [exact Hmin|]. intros f Hfin Heq'.
        apply Hf. exists f. split; [exact Hfin | congruence].
    + intros (Hin & Hf & Hm). split; [split|exact Hin].
      * intros (f & Hfin & Heq). now apply (Hf f).
      * intros (m & Hmin & Heq). apply Hmem in Hmin. now apply (Hm m).
Qed.

End Workspaces.

(** ** Sorting *)

Section SortFacts.

Context {A : Type} (cmp : A -> A -> Z) (le : A -> A -> Prop).
Hypothesis cmp_le : forall a b, cmp a b <= 0 <-> le a b.
Hypothesis le_total : forall a b, le a b \/ le b a.
Hypothesis le_trans : forall a b c, le a b -> le b c -> le a c.

Lemma sort_insert_perm (x : A) (l : list A) :
  Permutation (Js.sort_insert cmp x l) (x :: l).
Proof.
  induction l as [|y l IH]; simpl; [reflexivity|].
  destruct (cmp x y <=? 0); [reflexivity|].
  rewrite IH. apply perm_swap.
Qed.

Lemma sort_perm (l : list A) : Permutation (Js.sort cmp l) l.
Proof.
  induction l as [|x l IH]; simpl; [reflexivity|].
  unfold Js.sort in *. simpl. rewrite sort_insert_perm. now rewrite IH.
Qed.

Lemma sort_insert_sorted (x : A) (l : list A) :
  StronglySorted le l -> StronglySorted le (Js.sort_insert cmp x l).
Proof.
  induction l as [|y l IH]; intros Hs; simpl.
  - repeat constructor.
  - inversion Hs as [|? ? Hs' Hall]; subst.
    destruct (cmp x y <=? 0) eqn:E.
    + apply Z.leb_le, cmp_le in E.
      constructor; [exact Hs|]. constructor; [exact E|].
      eapply List.Forall_impl; [|exact Hall]. intros z Hz. now apply (le_trans x y z).
    + apply Z.leb_gt in E.
      assert (Hyx : le y x).
      { destruct (le_total x y) as [H|H]; [|exact H]. apply cmp_le in H. lia. }
      constructor; [now apply IH|].
      eapply Permutation_Forall; [symmetry; apply sort_insert_perm|].
      now constructor.
Qed.

Lemma sort_sorted (l : list A) : StronglySorted le (Js.sort cmp l).
Proof.
  induction l as [|x l IH]; simpl; [constructor|].
  unfold Js.sort in *. simpl. now apply sort_insert_sorted.
Qed.

End SortFacts.

Lemma cmpClosedDesc_le (a b : Data.Issue) :
  Sort.cmpClosedDesc a b <= 0 <-> (Sort.closed_ts b <= Sort.closed_ts a)%Q.
Proof.
  unfold Sort.cmpClosedDesc. rewrite <- Qle_bool_iff.
  destruct (Qle_bool (Sort.closed_ts b) (Sort.closed_ts a)); simpl.
  - destruct (Qle_bool (Sort.closed_ts a) (Sort.closed_ts b)); simpl;
      split; intros _; [reflexivity | lia | reflexivity | lia].
  - split; [lia | discriminate].
Qed.

Lemma sort_closed_perm (l : list Data.Issue) :
  Permutation (Js.sort Sort.cmpClosedDesc l) l.
Proof. apply sort_perm. Qed.

Lemma sort_closed_sorted (l : list Data.Issue) :
  StronglySorted (fun a b => (Sort.closed_ts b <= Sort.closed_ts a)%Q)
                 (Js.sort Sort.cmpClosedDesc l).
Proof.
  apply (sort_sorted Sort.cmpClosedDesc
           (fun a b => (Sort.closed_ts b <= Sort.closed_ts a)%Q)).
  - apply cmpClosedDesc_le.
  - intros a b.
    destruct (Qlt_le_dec (Sort.closed_ts a) (Sort.closed_ts b)) as [H | H];
      [right; now apply Qlt_le_weak | now left].
  - intros a b c Hab Hbc. now apply (Qle_trans _ (Sort.closed_ts b)).
Qed.

Lemma StronglySorted_refine {A : Type} (R R' : A -> A -> Prop) (P : A -> Prop) (l : list A) :
  (forall a b, P a -> P b -> R a b -> R' a b) ->
  List.Forall P l -> StronglySorted R l -> StronglySorted R' l.
Proof.
  intros HR HP Hs. induction Hs as [|a l Hs IH Hall]; [constructor|].
  inversion HP as [|? ? Pa Pl]; subst.
  constructor; [now apply IH|].
  rewrite List.Forall_forall in *. intros b Hb. apply HR; auto.
Qed.

(** ** The board *)

Section BoardFacts.

Variable start_of_local_day : Z -> Z.

Lemma closed_since_spec (since : Z) (it : Data.Issue) :
  Board.closed_since since it = true
  <-> exists t, Data.closed_at it = Some (Data.Fin t) /\ (inject_Z since <= t)%Q.
Proof.
  unfold Board.closed_since.
  destruct (Data.closed_at it) as [[| | |q]|]; split;
    try discriminate; try (intros (t & H & _); discriminate).
  - intros H. apply Qle_bool_iff in H. now exists q.
  - intros (t & H & Hle). injection H as ->. now apply Qle_bool_iff.
Qed.

(** C10. For the modes [today], [3] and [7], the Closed column that
    [applyClosedFilter] produces holds exactly the raw closed items whose
    [closed_at] is a finite number not below the cutoff (the start of the
    current local day, or now minus 3 or 7 days of 86400000 ms), each as
    often as in the raw list, ordered by [closed_at] descending; an item
    without a finite [closed_at] is never in it. *)
Theorem applyClosedFilter_closed_column (now : Z) (v : Board.View) :
  Board.closed_filter_mode v = "today"
  \/ Board.closed_filter_mode v = "3"
  \/ Board.closed_filter_mode v = "7" ->
  let cutoff :=
    if String.eqb (Board.closed_filter_mode v) "today" then start_of_local_day now
    else if String.eqb (Board.closed_filter_mode v) "3" then now - 3 * 86400000
    else now - 7 * 86400000 in
  let column := Board.list_closed (Board.applyClosedFilter start_of_local_day now v) in
  (forall it, In it column <->
     In it (Board.list_closed_raw v)
     /\ exists t, Data.closed_at it = Some (Data.Fin t) /\ (inject_Z cutoff <= t)%Q)
  /\ Permutation column
       (List.filter
          (fun it => match Data.closed_at it with
                     | Some (Data.Fin t) => Qle_bool (inject_Z cutoff) t
                     | _ => false
                     end) (Board.list_closed_raw v))
  /\ StronglySorted
       (fun a b => exists ta tb,
          Data.closed_at a = Some (Data.Fin ta)
          /\ Data.closed_at b = Some (Data.Fin tb) /\ (tb <= ta)%Q) column
  /\ (forall it, In it column -> Data.isFinite (Data.closed_at it) = true).
Proof.
  intros Hmode cutoff column.
  assert (Hcut : Board.since_ts start_of_local_day (Board.closed_filter_mode v) now = cutoff).
  { unfold Board.since_ts, cutoff.
    destruct Hmode as [-> | [-> | ->]]; simpl; lia. }
  assert (Hcol : column
                 = Js.sort Sort.cmpClosedDesc
                     (List.filter (Board.closed_since cutoff) (Board.list_closed_raw v))).
  { unfold column, Board.applyClosedFilter. simpl. now rewrite Hcut. }
  assert (Hin : forall it, In it column <->
     In it (Board.list_closed_raw v)
     /\ exists t, Data.closed_at it = Some (Data.Fin t) /\ (inject_Z cutoff <= t)%Q).
  { intros it. rewrite Hcol.
    split.
    - intros H. apply (Permutation_in _ (sort_closed_perm _)) in H.
      apply filter_In in H as [H1 H2]. split; [exact H1|]. now apply closed_since_spec.
    - intros [H1 H2]. apply (Permutation_in _ (Permutation_sym (sort_closed_perm _))).
      apply filter_In. split; [exact H1|]. now apply closed_since_spec. }
  split; [exact Hin|]. split; [|split].
  - rewrite Hcol. apply sort_closed_perm.
  - rewrite Hcol.
    eapply (StronglySorted_refine _ _
              (fun it => exists t, Data.closed_at it = Some (Data.Fin t)));
      [| |apply sort_closed_sorted].
    + intros a b (ta & Ha) (tb & Hb) Hle. exists ta, tb.
      unfold Sort.closed_ts in Hle. rewrite Ha, Hb in Hle. auto.
    + apply List.Forall_forall. intros it Hit. rewrite <- Hcol in Hit.
      apply Hin in Hit as [_ (t & Ht & _)]. now exists t.
  - intros it Hit. apply Hin in Hit as [_ (t & Ht & _)]. now rewrite Ht.
Qed.

End BoardFacts.

Lemma applyClosedFilter_closed_column_witness :
  Board.closed_filter_mode Samples.board3 = "3"
  /\ Permutation
       (Board.list_closed (Board.applyClosedFilter Samples.utc_day 1000000000 Samples.board3))
       [ Samples.issue "a" None (Some (Data.Fin (inject_Z 900000000)));
         Samples.issue "c" None (Some (Data.Fin (999000000001 # 1000))) ]
  /\ map Data.id
       (Board.list_closed (Board.applyClosedFilter Samples.utc_day 1000000000 Samples.board3))
     = ["c"; "a"].
Proof.
  split; [reflexivity|]. split; [|reflexivity].
  apply (proj1 (proj2 (applyClosedFilter_closed_column Samples.utc_day 1000000000
                         Samples.board3 (or_intror (or_introl eq_refl))))).
Defined.

Lemma matchesLabelFilters_none (v : Board.View) (it : Data.Issue) :
  Board.client_filters v = [] -> Board.work_filters v = [] ->
  Board.matchesLabelFilters v it = true.
Proof. intros Hc Hw. unfold Board.matchesLabelFilters. now rewrite Hc, Hw. Qed.

Lemma no_label_filters (v : Board.View) :
  ((0 <? length (Board.client_filters v))%nat || (0 <? length (Board.work_filters v))%nat) = false
  <-> Board.client_filters v = [] /\ Board.work_filters v = [].
Proof.
  rewrite orb_false_iff, !Nat.ltb_ge.
  destruct (Board.client_filters v), (Board.work_filters v); simpl; split;
    intros [H1 H2]; try discriminate; try lia; auto.
Qed.

Section RefreshFacts.

Variable start_of_local_day : Z -> Z.
Variable selectBoardColumn : string -> string -> option (list Data.Issue).

(** C6, as the code has it. With the four mirrors read through
    [selectBoardColumn], [refreshFromStores] puts in the Ready column exactly
    the entities of the ready mirror whose id is in the in-progress mirror for
    no entity and that carry every selected client and work label; Blocked and
    In Progress hold their mirrors' entities that carry the selected labels,
    without the exclusion; Closed holds those of its mirror that carry them
    and pass the closed-date filter.  When no label is selected, Ready is the
    ready mirror minus the in-progress ids, and Blocked and In Progress are
    their mirrors. *)
Theorem refreshFromStores_columns
  (now : Z) (v : Board.View) (in_progress blocked ready_raw closed : list Data.Issue) :
  selectBoardColumn "tab:board:in-progress" "in_progress" = Some in_progress ->
  selectBoardColumn "tab:board:blocked" "blocked" = Some blocked ->
  selectBoardColumn "tab:board:ready" "ready" = Some ready_raw ->
  selectBoardColumn "tab:board:closed" "closed" = Some closed ->
  let v' := Board.refreshFromStores start_of_local_day (Some selectBoardColumn) now v in
  (forall it, In it (Board.list_ready v') <->
     In it ready_raw
     /\ (forall p, In p in_progress -> Data.id p <> Data.id it)
     /\ Board.matchesLabelFilters v it = true)
  /\ (forall it, In it (Board.list_blocked v') <->
        In it blocked /\ Board.matchesLabelFilters v it = true)
  /\ (forall it, In it (Board.list_in_progress v') <->
        In it in_progress /\ Board.matchesLabelFilters v it = true)
  /\ (forall it, In it (Board.list_closed v') <->
        In it closed /\ Board.matchesLabelFilters v it = true
        /\ Board.closed_since
             (Board.since_ts start_of_local_day (Board.closed_filter_mode v) now) it = true)
  /\ (Board.client_filters v = [] -> Board.work_filters v = [] ->
      Board.list_ready v'
      = List.filter (fun i => negb (bool_decide (Data.id i ∈ map Data.id in_progress))) ready_raw
      /\ Board.list_blocked v' = blocked
      /\ Board.list_in_progress v' = in_progress).
Proof.
  intros Hip Hbl Hre Hcl v'.
  unfold v', Board.refreshFromStores. rewrite Hip, Hbl, Hre, Hcl. simpl.
  set (has := ((0 <? length (Board.client_filters v))%nat
               || (0 <? length (Board.work_filters v))%nat)).
  assert (Hpick : forall (l : list Data.Issue) it,
            In it (if has then List.filter (Board.matchesLabelFilters v) l else l)
            <-> In it l /\ Board.matchesLabelFilters v it = true).
  { intros l it. destruct has eqn:E.
    - apply filter_In.
    - apply no_label_filters in E as [Hc Hw].
      rewrite (matchesLabelFilters_none v it Hc Hw). tauto. }
  assert (Hids : forall it,
            negb (bool_decide (Data.id it ∈ (list_to_set (map Data.id in_progress) : gset string)))
            = true
            <-> forall p, In p in_progress -> Data.id p <> Data.id it).
  { intros it. rewrite negb_true_iff, bool_decide_eq_false, elem_of_list_to_set,
      list_elem_of_In, in_map_iff. split.
    - intros Hn p Hp Heq. apply Hn. now exists p.
    - intros Hn (p & Heq & Hp). now apply (Hn p). }
  split; [|split; [|split; [|split]]].
  - intros it. rewrite Hpick, filter_In, Hids. tauto.
  - intros it. apply Hpick.
  - intros it. apply Hpick.
  - intros it. split.
    + intros H. apply (Permutation_in _ (sort_closed_perm _)) in H.
      apply filter_In in H as [H1 H2]. apply Hpick in H1. tauto.
    + intros (H1 & H2 & H3).
      apply (Permutation_in _ (Permutation_sym (sort_closed_perm _))).
      apply filter_In. split; [|exact H3]. apply Hpick. tauto.
  - intros Hc Hw.
    assert (E : has = false) by (apply no_label_filters; auto).
    rewrite E. split; [|split]; try reflexivity.
    apply filter_ext. intros it. do 2 f_equal.
    apply bool_decide_ext. now rewrite elem_of_list_to_set.
Qed.

End RefreshFacts.

Lemma refreshFromStores_columns_witness :
  Board.list_ready
    (Board.refreshFromStores Samples.utc_day (Some Samples.board_mirrors) 0 Samples.board3)
  = [ Samples.issue "UI-1" None None; Samples.issue "UI-3" (Some ["client:acme"]) None ].
Proof.
  destruct (refreshFromStores_columns Samples.utc_day Samples.board_mirrors 0 Samples.board3
              _ _ _ _ eq_refl eq_refl eq_refl eq_refl) as (_ & _ & _ & _ & H).
  destruct (H eq_refl eq_refl) as [Hready _]. rewrite Hready. reflexivity.
Defined.

(** C6, as stated, fails once a label is selected: with the client label
    [acme] selected, [UI-1] is in the ready mirror and not in the in-progress
    mirror, yet the Ready column holds only [UI-3]. *)
Lemma ready_column_label_counterexample :
  Samples.board_mirrors "tab:board:ready" "ready"
  = Some [ Samples.issue "UI-1" None None;
           Samples.issue "UI-2" (Some ["client:acme"]) None;
           Samples.issue "UI-3" (Some ["client:acme"]) None ]
  /\ Samples.board_mirrors "tab:board:in-progress" "in_progress"
     = Some [ Samples.issue "UI-2" (Some ["client:acme"]) None ]
  /\ Board.list_ready
       (Board.refreshFromStores Samples.utc_day (Some Samples.board_mirrors) 0
          Samples.board_acme)
     = [ Samples.issue "UI-3" (Some ["client:acme"]) None ]
  /\ ~ In (Samples.issue "UI-1" None None)
         (Board.list_ready
            (Board.refreshFromStores Samples.utc_day (Some Samples.board_mirrors) 0
               Samples.board_acme)).
Proof.
  repeat split. simpl. intros [H | []]. discriminate H.
Qed.

(** ** The issues spec and the list view *)

Section ListFacts.

Variable toLowerCase : string -> string.

Lemma list_matchesLabelFilters_none (v : ListView.View) (it : Data.Issue) :
  ListView.client_filters v = [] -> ListView.work_filters v = [] ->
  ListView.matchesLabelFilters v it = true.
Proof. intros Hc Hw. unfold ListView.matchesLabelFilters. now rewrite Hc, Hw. Qed.

Lemma length_pos_false {A : Type} (l : list A) : (0 <? length l)%nat = false <-> l = [].
Proof. destruct l; simpl; split; intros H; try discriminate; reflexivity. Qed.

Lemma string_app_cons (c : ascii) (a b : string) : String c a ++ b = String c (a ++ b).
Proof. reflexivity. Qed.

Lemma prefix_spec (p s : string) :
  String.prefix p s = true <-> exists post, s = p ++ post.
Proof.
  revert s. induction p as [|c p IH]; intros s.
  - split; [intros _; now exists s | intros _; now destruct s].
  - destruct s as [|d s].
    + split; [discriminate | intros [post H]; discriminate H].
    + change (String.prefix (String c p) (String d s))
        with (if ascii_dec c d then String.prefix p s else false).
      destruct (ascii_dec c d) as [->|Hne].
      * rewrite IH. split; intros [post H]; exists post.
        -- rewrite string_app_cons. now rewrite H.
        -- rewrite string_app_cons in H. now injection H.
      * split.
        -- discriminate.
        -- intros [post H]. rewrite string_app_cons in H. injection H as H1 _. congruence.
Qed.

(** [s.includes(needle)]: [needle] occurs in [s]. *)
Lemma includes_spec (s needle : string) :
  Js.includes s needle = true <-> exists pre post, s = pre ++ needle ++ post.
Proof.
  induction s as [|c s IH]; cbn [Js.includes].
  - rewrite orb_false_r, prefix_spec. split.
    + intros [post H]. now exists EmptyString, post.
    + intros (pre & post & H). destruct pre as [|d pre]; [now exists post|discriminate H].
  - rewrite orb_true_iff, IH, prefix_spec. split.
    + intros [[post H] | (pre & post & H)].
      * now exists EmptyString, post.
      * exists (String c pre), post. rewrite string_app_cons. now rewrite H.
    + intros (pre & post & H). destruct pre as [|d pre].
      * left. now exists post.
      * right. exists pre, post. rewrite string_app_cons in H. now injection H.
Qed.

(** [matchesLabelFilters(issue)] of the list view: the issue carries the
    label [client:c] for every selected client [c] and the label [work:w] for
    every selected work label [w]. *)
Lemma list_matchesLabelFilters_spec (v : ListView.View) (it : Data.Issue) :
  ListView.matchesLabelFilters v it = true <->
  (forall c, c ∈ ListView.client_filters v -> "client:" ++ c ∈ default [] (Data.labels it))
  /\ (forall w, w ∈ ListView.work_filters v -> "work:" ++ w ∈ default [] (Data.labels it)).
Proof.
  unfold ListView.matchesLabelFilters. cbv zeta.
  rewrite andb_true_iff, !forallb_forall.
  split; intros [Hc Hw]; split; intros x Hx.
  - apply list_elem_of_In in Hx. apply Hc in Hx. now apply bool_decide_eq_true in Hx.
  - apply list_elem_of_In in Hx. apply Hw in Hx. now apply bool_decide_eq_true in Hx.
  - apply bool_decide_eq_true, Hc. now apply list_elem_of_In.
  - apply bool_decide_eq_true, Hw. now apply list_elem_of_In.
Qed.

(** The rows of the list template are the cached issues that pass the
    status, search, type and label filters. *)
Lemma template_rows (v : ListView.View) (it : Data.Issue) :
  In it (ListView.template toLowerCase v) <->
  In it (ListView.issues_cache v)
  /\ (ListView.status_filters v = [] \/ "ready" ∈ ListView.status_filters v
      \/ default EmptyString (Data.status it) ∈ ListView.status_filters v)
  /\ (ListView.search_text v = EmptyString
      \/ Js.includes (toLowerCase (Data.id it)) (toLowerCase (ListView.search_text v)) = true
      \/ Js.includes (toLowerCase (default EmptyString (Data.title it)))
                     (toLowerCase (ListView.search_text v)) = true)
  /\ (ListView.type_filters v = []
      \/ default EmptyString (Data.issue_type it) ∈ ListView.type_filters v)
  /\ ListView.matchesLabelFilters v it = true.
Proof.
  unfold ListView.template.
  set (l0 := ListView.issues_cache v).
  set (l1 := if (0 <? length (ListView.status_filters v))%nat
                && negb (bool_decide ("ready" ∈ ListView.status_filters v))
             then List.filter (ListView.status_shown v) l0 else l0).
  set (l2 := if negb (String.eqb (ListView.search_text v) EmptyString)
             then List.filter (ListView.search_shown toLowerCase v) l1 else l1).
  set (l3 := if (0 <? length (ListView.type_filters v))%nat
             then List.filter (ListView.type_shown v) l2 else l2).
  set (l4 := if (0 <? length (ListView.client_filters v))%nat
                || (0 <? length (ListView.work_filters v))%nat
             then List.filter (ListView.matchesLabelFilters v) l3 else l3).
  assert (H1 : In it l1 <-> In it l0
            /\ (ListView.status_filters v = [] \/ "ready" ∈ ListView.status_filters v
                \/ default EmptyString (Data.status it) ∈ ListView.status_filters v)).
  { unfold l1. destruct (0 <? length (ListView.status_filters v))%nat eqn:E1; simpl.
    - case_bool_decide as E2; simpl.
      + tauto.
      + rewrite filter_In. unfold ListView.status_shown. rewrite bool_decide_eq_true.
        assert (ListView.status_filters v <> []).
        { intros Hnil. rewrite Hnil in E1. discriminate. }
        tauto.
    - apply length_pos_false in E1. tauto. }
  assert (H2 : In it l2 <-> In it l1
            /\ (ListView.search_text v = EmptyString
                \/ Js.includes (toLowerCase (Data.id it))
                               (toLowerCase (ListView.search_text v)) = true
                \/ Js.includes (toLowerCase (default EmptyString (Data.title it)))
                               (toLowerCase (ListView.search_text v)) = true)).
  { unfold l2. destruct (String.eqb (ListView.search_text v) EmptyString) eqn:E; simpl.
    - apply String.eqb_eq in E. tauto.
    - apply String.eqb_neq in E. rewrite filter_In. unfold ListView.search_shown.
      rewrite orb_true_iff. tauto. }
  assert (H3 : In it l3 <-> In it l2
            /\ (ListView.type_filters v = []
                \/ default EmptyString (Data.issue_type it) ∈ ListView.type_filters v)).
  { unfold l3. destruct (0 <? length (ListView.type_filters v))%nat eqn:E.
    - rewrite filter_In. unfold ListView.type_shown. rewrite bool_decide_eq_true.
      assert (ListView.type_filters v <> []).
      { intros Hnil. rewrite Hnil in E. discriminate. }
      tauto.
    - apply length_pos_false in E. tauto. }
  assert (H4 : In it l4 <-> In it l3 /\ ListView.matchesLabelFilters v it = true).
  { unfold l4.
    destruct ((0 <? length (ListView.client_filters v))%nat
              || (0 <? length (ListView.work_filters v))%nat) eqn:E.
    - apply filter_In.
    - apply orb_false_iff in E as [Ec Ew].
      apply length_pos_false in Ec. apply length_pos_false in Ew.
      rewrite (list_matchesLabelFilters_none v it Ec Ew). tauto. }
  assert (H5 : In it (if bool_decide (ListView.status_filters v = ["closed"])
                      then Js.sort Sort.cmpClosedDesc l4 else l4) <-> In it l4).
  { case_bool_decide; [|tauto]. split; apply Permutation_in.
    - apply sort_closed_perm.
    - symmetry. apply sort_closed_perm. }
  rewrite H5, H4, H3, H2, H1. unfold l0. tauto.
Qed.

Lemma computeIssuesSpec_array (r : nat) (items : list string) (se : string)
  (ty : State.FilterValue) (cl wo : list string) :
  Main.computeIssuesSpec
    {| State.status := State.FArr r items; State.search := se; State.type := ty;
       State.client := cl; State.work := wo |}
  = Main.computeIssuesSpec
      {| State.status := State.FStr (Js.join "," items); State.search := se;
         State.type := ty; State.client := cl; State.work := wo |}.
Proof.
  unfold Main.computeIssuesSpec. simpl.
  destruct (String.eqb_spec (Js.join "," items) EmptyString) as [->|Hne]; reflexivity.
Qed.

(** C7. [computeIssuesSpec] maps the status [ready] to [ready-issues],
    [in_progress] to [in-progress-issues], [closed] to [closed-issues], and
    [all] and [open] to [all-issues], whatever the search, type, client and
    work filters are; the array of chips the list view stores as the status
    counts as the string of its items joined by commas; replacing the other
    four filters never changes the spec.  The list template applies them
    (with the status chips) to the cached membership of the mirror: its rows
    are the cached issues whose status is among the chips (when there are
    chips and [ready] is not one), whose id or title contains the search text
    (both in lower case), whose type is among the selected types (when there
    are any), and which carry the label [client:c] of every selected client
    and the label [work:w] of every selected work label; the cache is what
    the mirror of [tab:issues] holds. *)
Theorem computeIssuesSpec_status_only :
  (forall se ty cl wo,
     Main.computeIssuesSpec
       {| State.status := State.FStr "ready"; State.search := se; State.type := ty;
          State.client := cl; State.work := wo |}
     = {| Data.spec_type := "ready-issues"; Data.spec_params := None |})
  /\ (forall se ty cl wo,
        Main.computeIssuesSpec
          {| State.status := State.FStr "in_progress"; State.search := se; State.type := ty;
             State.client := cl; State.work := wo |}
        = {| Data.spec_type := "in-progress-issues"; Data.spec_params := None |})
  /\ (forall se ty cl wo,
        Main.computeIssuesSpec
          {| State.status := State.FStr "closed"; State.search := se; State.type := ty;
             State.client := cl; State.work := wo |}
        = {| Data.spec_type := "closed-issues"; Data.spec_params := None |})
  /\ (forall se ty cl wo,
        Main.computeIssuesSpec
          {| State.status := State.FStr "all"; State.search := se; State.type := ty;
             State.client := cl; State.work := wo |}
        = {| Data.spec_type := "all-issues"; Data.spec_params := None |})
  /\ (forall se ty cl wo,
        Main.computeIssuesSpec
          {| State.status := State.FStr "open"; State.search := se; State.type := ty;
             State.client := cl; State.work := wo |}
        = {| Data.spec_type := "all-issues"; Data.spec_params := None |})
  /\ (forall r items se ty cl wo,
        Main.computeIssuesSpec
          {| State.status := State.FArr r items; State.search := se; State.type := ty;
             State.client := cl; State.work := wo |}
        = Main.computeIssuesSpec
            {| State.status := State.FStr (Js.join "," items); State.search := se;
               State.type := ty; State.client := cl; State.work := wo |})
  /\ (forall f se ty cl wo,
        Main.computeIssuesSpec
          {| State.status := State.status f; State.search := se; State.type := ty;
             State.client := cl; State.work := wo |}
        = Main.computeIssuesSpec f)
  /\ (forall v it,
        In it (ListView.template toLowerCase v) <->
        In it (ListView.issues_cache v)
        /\ (ListView.status_filters v = [] \/ "ready" ∈ ListView.status_filters v
            \/ default EmptyString (Data.status it) ∈ ListView.status_filters v)
        /\ (ListView.search_text v = EmptyString
            \/ (exists pre post,
                  toLowerCase (Data.id it)
                  = pre ++ toLowerCase (ListView.search_text v) ++ post)
            \/ (exists pre post,
                  toLowerCase (default EmptyString (Data.title it))
                  = pre ++ toLowerCase (ListView.search_text v) ++ post))
        /\ (ListView.type_filters v = []
            \/ default EmptyString (Data.issue_type it) ∈ ListView.type_filters v)
        /\ (forall c, c ∈ ListView.client_filters v ->
              "client:" ++ c ∈ default [] (Data.labels it))
        /\ (forall w, w ∈ ListView.work_filters v ->
              "work:" ++ w ∈ default [] (Data.labels it)))
  /\ (forall selectIssuesFor v entities,
        selectIssuesFor "tab:issues" = Some entities ->
        ListView.issues_cache (ListView.load (Some selectIssuesFor) v) = entities).
Proof.
  do 5 (split; [reflexivity|]).
  split; [apply computeIssuesSpec_array|].
  split; [reflexivity|].
  split.
  - intros v it. rewrite template_rows, !includes_spec, list_matchesLabelFilters_spec.
    tauto.
  - intros sel v entities H. unfold ListView.load. simpl. now rewrite H.
Qed.

End ListFacts.

(** ** Routing of push envelopes *)

Section RoutingFacts.

Variable applyPush : Stores.Store -> Data.Envelope -> option Stores.Store.

Lemma route_unregistered (kind : string) (p : Data.Payload) (reg : gmap string Stores.Store) :
  reg !! Main.routed_id p = None ->
  Main.route applyPush kind p reg = (reg, []).
Proof.
  intros H. unfold Main.route, Stores.getStore.
  destruct (negb (String.eqb (Main.routed_id p) EmptyString)); [now rewrite H | reflexivity].
Qed.

Lemma route_no_string_id (kind : string) (p : Data.Payload) (reg : gmap string Stores.Store) :
  Js.is_string (Main.prop_id p) = false ->
  Main.route applyPush kind p reg = (reg, []).
Proof.
  intros H. unfold Main.route, Main.routed_id. rewrite H, andb_false_r. reflexivity.
Qed.

Lemma route_other_type (kind : string) (p : Data.Payload) (reg : gmap string Stores.Store) :
  Main.prop_type p <> Js.JStr kind ->
  Main.route applyPush kind p reg = (reg, []).
Proof.
  intros H. unfold Main.route.
  destruct (if negb (String.eqb (Main.routed_id p) EmptyString)
            then Stores.getStore reg (Main.routed_id p) else None); [|reflexivity].
  assert (E : Js.strict_eq_str (Main.prop_type p) kind = false).
  { unfold Js.strict_eq_str. destruct (Main.prop_type p) as [| | | |t]; try reflexivity.
    apply String.eqb_neq. congruence. }
  rewrite E, andb_false_r. reflexivity.
Qed.

Lemma deliver_cases (event : string) (p : Data.Payload) (reg : gmap string Stores.Store) :
  Main.deliver applyPush event p reg = Main.route applyPush "snapshot" p reg
  \/ Main.deliver applyPush event p reg = Main.route applyPush "upsert" p reg
  \/ Main.deliver applyPush event p reg = Main.route applyPush "delete" p reg
  \/ Main.deliver applyPush event p reg = (reg, []).
Proof.
  unfold Main.deliver, Main.on_snapshot, Main.on_upsert, Main.on_delete.
  destruct (String.eqb event "snapshot"); [tauto|].
  destruct (String.eqb event "upsert"); [tauto|].
  destruct (String.eqb event "delete"); tauto.
Qed.

(** C4. An envelope whose [id] is a string naming no registered store is
    dropped by each of the three handlers, and so on every event: the
    registry, with every store's membership and entities, is returned as it
    was, and there is no effect at all, neither a notification nor a log or
    error dialog; this holds whatever [applyPush] does, as it is not
    called. *)
Theorem push_for_unregistered_key_dropped
  (e : Data.Envelope) (k : string) (reg : gmap string Stores.Store) :
  Data.env_id e = Js.JStr k ->
  reg !! k = None ->
  Main.on_snapshot applyPush (Data.PObject e) reg = (reg, [])
  /\ Main.on_upsert applyPush (Data.PObject e) reg = (reg, [])
  /\ Main.on_delete applyPush (Data.PObject e) reg = (reg, [])
  /\ forall event, Main.deliver applyPush event (Data.PObject e) reg = (reg, []).
Proof.
  intros Hid Hreg.
  assert (H : reg !! Main.routed_id (Data.PObject e) = None).
  { unfold Main.routed_id. simpl. rewrite Hid. simpl. exact Hreg. }
  assert (Hr : forall kind, Main.route applyPush kind (Data.PObject e) reg = (reg, [])).
  { intros kind. now apply route_unregistered. }
  repeat split; try apply Hr.
  intros event. destruct (deliver_cases event (Data.PObject e) reg) as [E|[E|[E|E]]];
    rewrite E; try apply Hr; reflexivity.
Qed.

(** C5, as the code has it. A payload that is malformed, its [id] missing
    or not a string or its [type] none of [snapshot], [upsert] and [delete],
    is dropped on every event without any effect: the registry is returned as
    it was, [applyPush] is not called, so nothing is applied in part, and
    nothing is notified and nothing is logged. *)
Theorem malformed_envelope_dropped_silently
  (p : Data.Payload) (reg : gmap string Stores.Store) :
  Js.is_string (Main.prop_id p) = false
  \/ (Main.prop_type p <> Js.JStr "snapshot"
      /\ Main.prop_type p <> Js.JStr "upsert"
      /\ Main.prop_type p <> Js.JStr "delete") ->
  forall event, Main.deliver applyPush event p reg = (reg, []).
Proof.
  intros Hbad event.
  destruct (deliver_cases event p reg) as [E|[E|[E|E]]]; rewrite E; try reflexivity;
    (destruct Hbad as [Hid | (Hs & Hu & Hd)];
     [now apply route_no_string_id | now apply route_other_type]).
Qed.

End RoutingFacts.

Lemma push_for_unregistered_key_dropped_witness :
  Main.deliver Stores.applyPush "snapshot"
    (Samples.snapshot_for "tab:epics" [Samples.issue "UI-1" None None])
    Samples.issues_only
  = (Samples.issues_only, []).
Proof.
  apply (push_for_unregistered_key_dropped Stores.applyPush _ "tab:epics");
    reflexivity.
Defined.

Lemma malformed_envelope_dropped_silently_witness :
  Main.deliver Stores.applyPush "snapshot" Samples.no_id_envelope Samples.issues_only
  = (Samples.issues_only, [])
  /\ Main.deliver Stores.applyPush "snapshot" Samples.odd_type_envelope Samples.issues_only
     = (Samples.issues_only, []).
Proof.
  split.
  - apply malformed_envelope_dropped_silently. left. reflexivity.
  - apply malformed_envelope_dropped_silently. right. repeat split; discriminate.
Defined.

(** C5, as stated, asks for a diagnostic log: the handlers emit none.  An
    envelope without [id] and one of an unknown [type], both for a registered
    key, leave an empty list of effects, so no [ELog] among them. *)
Lemma malformed_envelope_no_log_counterexample :
  snd (Main.deliver Stores.applyPush "snapshot" Samples.no_id_envelope Samples.issues_only)
  = []
  /\ snd (Main.deliver Stores.applyPush "snapshot" Samples.odd_type_envelope
            Samples.issues_only)
     = []
  /\ ~ In (Main.ELog "malformed envelope")
         (snd (Main.deliver Stores.applyPush "snapshot" Samples.no_id_envelope
                 Samples.issues_only)).
Proof. repeat split. intros []. Qed.

(** ** The shell: traces and the pending set *)

Section ShellFacts.

Import Data Main.

Lemma registers_first_quiet (es : list Effect) :
  Forall quiet es -> registers_first es.
Proof.
  intros Hq i key spec Hi. exfalso.
  rewrite Forall_lookup in Hq. apply (Hq i _ Hi).
Qed.

Lemma registers_first_pair key spec :
  registers_first [ERegister key spec; ESubscribeList key spec].
Proof.
  intros [|[|i]] k sp Hi; simpl in Hi; try discriminate.
  injection Hi as <- <-. now exists 0%nat.
Qed.

Lemma registers_first_app (tr es : list Effect) :
  registers_first tr -> registers_first es -> registers_first (tr ++ es).
Proof.
  intros Ht He i key spec Hi.
  apply lookup_app_Some in Hi as [Hi | [Hlen Hi]].
  - destruct (Ht i key spec Hi) as (j & -> & Hj). exists j. split; [reflexivity|].
    now apply lookup_app_l_Some.
  - destruct (He _ key spec Hi) as (j & Hij & Hj).
    exists (length tr + j)%nat. split; [lia|].
    rewrite lookup_app_r by lia. now replace (length tr + j - length tr)%nat with j by lia.
Qed.

Lemma block_ok_step_ok sh sh' : block_ok sh sh' -> step_ok sh sh'.
Proof. intros (es & H1 & H2 & _ & _ & H3). exists es. auto. Qed.

Lemma step_ok_refl sh : step_ok sh sh.
Proof.
  exists []. rewrite app_nil_r. split; [reflexivity|]. split; [|auto].
  apply registers_first_quiet. constructor.
Qed.

Lemma step_ok_trans sh1 sh2 sh3 : step_ok sh1 sh2 -> step_ok sh2 sh3 -> step_ok sh1 sh3.
Proof.
  intros (es1 & T1 & R1 & I1) (es2 & T2 & R2 & I2).
  exists (es1 ++ es2)%list. split; [|split].
  - rewrite T2, T1. now rewrite app_assoc.
  - now apply registers_first_app.
  - auto.
Qed.

Lemma block_ok_refl sh : block_ok sh sh.
Proof.
  exists []. rewrite app_nil_r. split; [reflexivity|].
  split; [apply registers_first_quiet; constructor|].
  split; [intros key spec []|]. split; [reflexivity | auto].
Qed.

Lemma block_ok_trans sh1 sh2 sh3 : block_ok sh1 sh2 -> block_ok sh2 sh3 -> block_ok sh1 sh3.
Proof.
  intros (es1 & T1 & R1 & G1 & S1 & I1) (es2 & T2 & R2 & G2 & S2 & I2).
  exists (es1 ++ es2)%list. split; [|split; [|split; [|split]]].
  - rewrite T2, T1. now rewrite app_assoc.
  - now apply registers_first_app.
  - intros key spec Hin. apply in_app_or in Hin as [Hin | Hin].
    + now apply G1.
    + intros Hp. apply (G2 key spec Hin). now apply S1.
  - set_solver.
  - auto.
Qed.

(** A block that leaves the in-flight calls and the pending set alone and
    only adds effects other than subscribe calls. *)
Lemma quiet_block_ok sh sh' es :
  trace sh' = (trace sh ++ es)%list ->
  Forall quiet es ->
  in_flight sh' = in_flight sh ->
  pending_subscriptions sh' = pending_subscriptions sh ->
  block_ok sh sh'.
Proof.
  intros T Q F P. exists es. split; [exact T|]. split; [now apply registers_first_quiet|].
  split; [|split].
  - intros key spec Hin. rewrite Forall_forall in Q.
    apply list_elem_of_In in Hin. now apply Q in Hin.
  - now rewrite P.
  - unfold pending_tracks_in_flight. now rewrite F, P.
Qed.

Lemma omap_pending_app (l : list Call) (c : Call) :
  omap pending_key_of (l ++ [c])%list
  = (omap pending_key_of l ++ match pending_key_of c with Some pk => [pk] | None => [] end)%list.
Proof. rewrite omap_app. simpl. now destruct (pending_key_of c). Qed.

(** A call that [pending_subscriptions] does not track joins the in-flight
    calls. *)
Lemma untracked_call_keeps sh sh' c :
  in_flight sh' = (in_flight sh ++ [c])%list ->
  pending_subscriptions sh' = pending_subscriptions sh ->
  pending_key_of c = None ->
  pending_tracks_in_flight sh -> pending_tracks_in_flight sh'.
Proof.
  intros F P Hc (I1 & I2 & I3). unfold pending_tracks_in_flight.
  rewrite F, P. split; [|split].
  - intros c' pk Hin Hpk. apply elem_of_app in Hin as [Hin | Hin]; [now apply I1|].
    apply list_elem_of_singleton in Hin. subst. congruence.
  - rewrite omap_pending_app, Hc, app_nil_r. exact I2.
  - intros pk Hpk. destruct (I3 pk Hpk) as (c' & Hin & Hc').
    exists c'. split; [|exact Hc']. apply elem_of_app. now left.
Qed.

(** A tracked call joins them, its entry being added to the set it was not
    in. *)
Lemma tracked_call_keeps sh sh' c pk :
  in_flight sh' = (in_flight sh ++ [c])%list ->
  pending_subscriptions sh' = {[pk]} ∪ pending_subscriptions sh ->
  pending_key_of c = Some pk ->
  pk = guard_entry (call_key c) (call_spec c) ->
  pk ∉ pending_subscriptions sh ->
  pending_tracks_in_flight sh -> pending_tracks_in_flight sh'.
Proof.
  intros F P Hc Hg Hfresh (I1 & I2 & I3). unfold pending_tracks_in_flight.
  rewrite F, P. split; [|split].
  - intros c' pk' Hin Hpk. apply elem_of_app in Hin as [Hin | Hin].
    + destruct (I1 c' pk' Hin Hpk) as [H1 H2].
      split; [apply elem_of_union; now right | exact H2].
    + apply list_elem_of_singleton in Hin. subst c'.
      rewrite Hc in Hpk. injection Hpk as <-.
      split; [apply elem_of_union; left; now apply elem_of_singleton | exact Hg].
  - rewrite omap_pending_app, Hc. apply NoDup_app. split; [exact I2|]. split.
    + intros x Hx Hx'. apply list_elem_of_singleton in Hx'. subst x.
      apply list_elem_of_omap in Hx as (c' & Hin & Hc').
      apply Hfresh. now apply (I1 c' pk).
    + apply NoDup_singleton.
  - intros pk' Hpk'. apply elem_of_union in Hpk' as [Hpk' | Hpk'].
    + apply elem_of_singleton in Hpk'. subst pk'. exists c. split; [|exact Hc].
      apply elem_of_app. right. now apply list_elem_of_singleton.
    + destruct (I3 pk' Hpk') as (c' & Hin & Hc'). exists c'. split; [|exact Hc'].
      apply elem_of_app. now left.
Qed.

Lemma guarded_subscribe_ok sh v last pk failed context key spec :
  pk = guard_entry key spec ->
  pk ∉ pending_subscriptions sh ->
  block_ok sh
    (do_subscribe key spec (KTab v last pk failed context)
       (set_pending (fun p => {[pk]} ∪ p) (do_register key spec sh))).
Proof.
  intros Hg Hfresh.
  exists [ERegister key spec; ESubscribeList key spec].
  split; [|split; [|split; [|split]]].
  - simpl. now rewrite <- app_assoc.
  - apply registers_first_pair.
  - intros k sp [H | [H | []]]; [discriminate|]. injection H as <- <-. now rewrite <- Hg.
  - simpl. set_solver.
  - eapply tracked_call_keeps; try reflexivity; simpl; auto.
Qed.

Lemma ensureIssuesTab_ok s sh : block_ok sh (ensureIssuesTab s sh).
Proof.
  unfold ensureIssuesTab.
  destruct (String.eqb (State.view s) "issues").
  - cbv zeta.
    set (spec := computeIssuesSpec (State.filters s)).
    set (pk := "tab:issues:" ++ JSON_stringify_spec spec).
    match goal with |- context [if ?c then _ else _] => destruct c eqn:E end.
    + apply andb_true_iff in E as [_ E].
      apply negb_true_iff, bool_decide_eq_false in E.
      apply guarded_subscribe_ok; [reflexivity | exact E].
    + apply (quiet_block_ok _ _ [ERegister "tab:issues" spec]); try reflexivity.
      repeat constructor.
  - destruct (handles sh unsub_issues_tab) as [unsub|]; [|apply block_ok_refl].
    apply (quiet_block_ok _ _ [ERelease unsub; EUnregister "tab:issues"]); try reflexivity.
    + simpl. now rewrite <- app_assoc.
    + repeat constructor.
Qed.

Lemma releaseBoardColumn_ok v key sh : block_ok sh (releaseBoardColumn v key sh).
Proof.
  unfold releaseBoardColumn.
  destruct (handles sh v) as [unsub|]; [|apply block_ok_refl].
  apply (quiet_block_ok _ _ [ERelease unsub; EUnregister key]); try reflexivity.
  - simpl. now rewrite <- app_assoc.
  - repeat constructor.
Qed.

Lemma ensureEpicsTab_ok s sh : block_ok sh (ensureEpicsTab s sh).
Proof.
  unfold ensureEpicsTab. cbv zeta.
  destruct (String.eqb (State.view s) "epics").
  - match goal with |- context [if ?c then _ else _] => destruct c eqn:E end.
    + apply andb_true_iff in E as [_ E].
      apply negb_true_iff, bool_decide_eq_false in E.
      apply guarded_subscribe_ok; [reflexivity | exact E].
    + apply (quiet_block_ok _ _
               [ERegister "tab:epics" {| spec_type := "epics"; spec_params := None |}]);
        try reflexivity.
      repeat constructor.
  - apply (releaseBoardColumn_ok unsub_epics_tab "tab:epics").
Qed.

Lemma subscribeBoardColumn_ok v key spec failed context sh :
  String.eqb key "tab:issues" = false ->
  block_ok sh (subscribeBoardColumn v key spec failed context sh).
Proof.
  intros Hkey. unfold subscribeBoardColumn.
  match goal with |- context [if ?c then _ else _] => destruct c eqn:E end;
    [|apply block_ok_refl].
  apply andb_true_iff in E as [_ E].
  apply negb_true_iff, bool_decide_eq_false in E.
  apply guarded_subscribe_ok; [|exact E].
  unfold guard_entry. now rewrite Hkey.
Qed.

Lemma ensureBoardTab_ok s sh : block_ok sh (ensureBoardTab s sh).
Proof.
  unfold ensureBoardTab. destruct (String.eqb (State.view s) "board"); cbv zeta.
  - eapply block_ok_trans; [|apply subscribeBoardColumn_ok; reflexivity].
    eapply block_ok_trans; [|apply subscribeBoardColumn_ok; reflexivity].
    eapply block_ok_trans; [|apply subscribeBoardColumn_ok; reflexivity].
    apply subscribeBoardColumn_ok; reflexivity.
  - eapply block_ok_trans; [|apply releaseBoardColumn_ok].
    eapply block_ok_trans; [|apply releaseBoardColumn_ok].
    eapply block_ok_trans; [|apply releaseBoardColumn_ok].
    apply releaseBoardColumn_ok.
Qed.

Lemma ensureTabSubscriptions_ok s sh : block_ok sh (ensureTabSubscriptions s sh).
Proof.
  unfold ensureTabSubscriptions.
  eapply block_ok_trans; [|apply ensureBoardTab_ok].
  eapply block_ok_trans; [|apply ensureEpicsTab_ok].
  apply ensureIssuesTab_ok.
Qed.

(** A call leaves the in-flight calls; its entry, if it has one, leaves the
    set. *)
Lemma settled_call_keeps sh sh' (pre post : list Call) c :
  in_flight sh = (pre ++ c :: post)%list ->
  in_flight sh' = (pre ++ post)%list ->
  pending_subscriptions sh'
  = match pending_key_of c with
    | Some pk => pending_subscriptions sh ∖ {[pk]}
    | None => pending_subscriptions sh
    end ->
  pending_tracks_in_flight sh -> pending_tracks_in_flight sh'.
Proof.
  intros F F' P (I1 & I2 & I3). unfold pending_tracks_in_flight.
  rewrite F in I1, I2, I3. rewrite F', P.
  rewrite omap_app in I2. simpl in I2.
  assert (Hsub : forall c', c' ∈ (pre ++ post)%list -> c' ∈ (pre ++ c :: post)%list).
  { intros c' Hin. apply elem_of_app in Hin as [Hin | Hin]; apply elem_of_app;
      [now left | right; now apply elem_of_cons; right]. }
  destruct (pending_key_of c) as [pk|] eqn:Hc.
  - apply NoDup_app in I2 as (N1 & N2 & N3). apply NoDup_cons in N3 as [N3 N4].
    assert (Hne : forall c' pk', c' ∈ (pre ++ post)%list ->
                  pending_key_of c' = Some pk' -> pk' <> pk).
    { intros c' pk' Hin Hpk' ->. apply elem_of_app in Hin as [Hin | Hin].
      - apply (N2 pk); [apply list_elem_of_omap; eauto | apply elem_of_cons; now left].
      - apply N3. apply list_elem_of_omap; eauto. }
    split; [|split].
    + intros c' pk' Hin Hpk'. destruct (I1 c' pk' (Hsub _ Hin) Hpk') as [H1 H2].
      split; [|exact H2]. apply elem_of_difference. split; [exact H1|].
      intros Heq. apply elem_of_singleton in Heq. now apply (Hne c' pk' Hin Hpk').
    + rewrite omap_app. apply NoDup_app. split; [exact N1|]. split; [|exact N4].
      intros x Hx Hx'. apply (N2 x Hx). apply elem_of_cons. now right.
    + intros pk' Hpk'. apply elem_of_difference in Hpk' as [Hpk' Hne'].
      destruct (I3 pk' Hpk') as (c' & Hin & Hc'). exists c'. split; [|exact Hc'].
      apply elem_of_app in Hin as [Hin | Hin]; [apply elem_of_app; now left|].
      apply elem_of_cons in Hin as [-> | Hin]; [|apply elem_of_app; now right].
      exfalso. apply Hne'. apply elem_of_singleton. congruence.
  - split; [|split].
    + intros c' pk' Hin Hpk'. exact (I1 c' pk' (Hsub _ Hin) Hpk').
    + now rewrite omap_app.
    + intros pk' Hpk'. destruct (I3 pk' Hpk') as (c' & Hin & Hc').
      exists c'. split; [|exact Hc'].
      apply elem_of_app in Hin as [Hin | Hin]; [apply elem_of_app; now left|].
      apply elem_of_cons in Hin as [-> | Hin]; [congruence | apply elem_of_app; now right].
Qed.

Lemma settle_ok sh (pre post : list Call) c resolved :
  in_flight sh = (pre ++ c :: post)%list ->
  step_ok sh (settle c resolved (set_in_flight (pre ++ post) sh)).
Proof.
  intros F. unfold settle.
  destruct c as [key spec k]. simpl.
  destruct k as [v last pk failed context | | | epic_id | epic_id].
  - exists (if resolved then [] else [ELog failed; EFatal context]).
    split; [|split].
    + destruct resolved; [destruct last|]; simpl; now rewrite ?app_nil_r.
    + apply registers_first_quiet. destruct resolved; repeat constructor.
    + apply (settled_call_keeps _ _ pre post _ F); destruct resolved; try destruct last; reflexivity.
  - exists (if resolved then match handles sh unsub_detail with
                             | Some previous => [ERelease previous] | None => [] end
            else [ELog "detail subscribe failed"; EFatal "issue details"]).
    split; [|split].
    + destruct resolved; simpl; [|reflexivity].
      destruct (handles sh unsub_detail); simpl; now rewrite ?app_nil_r.
    + apply registers_first_quiet.
      destruct resolved; [destruct (handles sh unsub_detail)|]; repeat constructor.
    + apply (settled_call_keeps _ _ pre post _ F); destruct resolved; simpl;
        try destruct (handles sh unsub_detail); reflexivity.
  - exists (if resolved then []
            else [ELog "detail subscribe failed"; EFatal "issue details"]).
    split; [|split].
    + destruct resolved; simpl; now rewrite ?app_nil_r.
    + apply registers_first_quiet. destruct resolved; repeat constructor.
    + apply (settled_call_keeps _ _ pre post _ F); destruct resolved; reflexivity.
  - exists []. split; [|split].
    + destruct resolved; simpl; now rewrite app_nil_r.
    + apply registers_first_quiet. constructor.
    + apply (settled_call_keeps _ _ pre post _ F); destruct resolved; reflexivity.
  - exists [EUnregister ("detail:" ++ epic_id)]. split; [|split].
    + reflexivity.
    + apply registers_first_quiet. repeat constructor.
    + apply (settled_call_keeps _ _ pre post _ F); reflexivity.
Qed.

Lemma unguarded_subscribe_ok sh key spec k :
  pending_key_of {| call_key := key; call_spec := spec; call_then := k |} = None ->
  step_ok sh (do_subscribe key spec k (do_register key spec sh)).
Proof.
  intros Hk. exists [ERegister key spec; ESubscribeList key spec]. split; [|split].
  - simpl. now rewrite <- app_assoc.
  - apply registers_first_pair.
  - eapply untracked_call_keeps; try reflexivity. exact Hk.
Qed.

Lemma quiet_step_ok sh sh' es :
  trace sh' = (trace sh ++ es)%list ->
  Forall quiet es ->
  in_flight sh' = in_flight sh ->
  pending_subscriptions sh' = pending_subscriptions sh ->
  step_ok sh sh'.
Proof. intros. apply block_ok_step_ok. eapply quiet_block_ok; eauto. Qed.

Lemma onSelection_ok s sh : step_ok sh (onSelection s sh).
Proof.
  unfold onSelection. destruct (truthy_id (State.selected_id s)) as [i|].
  - cbv zeta. now apply unguarded_subscribe_ok.
  - destruct (handles sh unsub_detail) as [unsub|]; [|apply step_ok_refl].
    apply (quiet_step_ok _ _ [ERelease unsub]); try reflexivity. repeat constructor.
Qed.

Lemma deepLink_ok s sh : step_ok sh (deepLink s sh).
Proof.
  unfold deepLink. destruct (truthy_id (State.selected_id s)) as [i|].
  - cbv zeta. now apply unguarded_subscribe_ok.
  - apply step_ok_refl.
Qed.

Lemma toggle_ok epic_id sh : step_ok sh (toggle epic_id sh).
Proof.
  unfold toggle. cbv zeta. case_bool_decide.
  - eapply step_ok_trans;
      [|apply (unguarded_subscribe_ok _ _ _ (KEpic epic_id)); reflexivity].
    apply (quiet_step_ok _ _ []); try reflexivity; [|constructor].
    simpl. now rewrite app_nil_r.
  - destruct (epic_unsubs _ !! epic_id) as [u|] eqn:E.
    + exists [ERelease u]. split; [reflexivity|].
      split; [apply registers_first_quiet; repeat constructor|].
      eapply untracked_call_keeps; reflexivity.
    + apply (quiet_step_ok _ _ []); try reflexivity; [|constructor].
      simpl. now rewrite app_nil_r.
Qed.

Lemma route_effects_quiet applyPush kind p reg :
  Forall quiet (snd (route applyPush kind p reg)).
Proof.
  unfold route.
  destruct (if negb (String.eqb (routed_id p) EmptyString)
            then Stores.getStore reg (routed_id p) else None); [|constructor].
  destruct (payload_truthy p && Js.strict_eq_str (prop_type p) kind); [|constructor].
  destruct p as [v|e]; [constructor|].
  destruct (applyPush s e); repeat constructor.
Qed.

Lemma deliver_effects_quiet applyPush event p reg :
  Forall quiet (snd (deliver applyPush event p reg)).
Proof.
  unfold deliver, on_snapshot, on_upsert, on_delete.
  destruct (String.eqb event "snapshot"); [apply route_effects_quiet|].
  destruct (String.eqb event "upsert"); [apply route_effects_quiet|].
  destruct (String.eqb event "delete"); [apply route_effects_quiet|constructor].
Qed.

Lemma push_ok event p sh : step_ok sh (push event p sh).
Proof.
  unfold push. cbv zeta.
  eapply quiet_step_ok; try reflexivity. apply deliver_effects_quiet.
Qed.

Lemma release_if_set_ok v sh : step_ok sh (release_if_set v sh).
Proof.
  unfold release_if_set. destruct (handles sh v) as [unsub|]; [|apply step_ok_refl].
  apply (quiet_step_ok _ _ [ERelease unsub]); try reflexivity. repeat constructor.
Qed.

Lemma do_unregister_ok key sh : step_ok sh (do_unregister key sh).
Proof.
  apply (quiet_step_ok _ _ [EUnregister key]); try reflexivity. repeat constructor.
Qed.

Lemma unregister_selected_ok (o : option string) sh :
  step_ok sh (match o with
              | Some i => do_unregister ("detail:" ++ i) sh
              | None => sh
              end).
Proof. destruct o; [apply do_unregister_ok | apply step_ok_refl]. Qed.

Lemma unregister_all_ok (ids : list string) sh :
  step_ok sh (foldl (fun sh i => do_unregister i sh) sh ids).
Proof.
  revert sh. induction ids as [|i ids IH]; intros sh; simpl; [apply step_ok_refl|].
  eapply step_ok_trans; [apply do_unregister_ok | apply IH].
Qed.

Lemma set_last_ok k sh : step_ok sh (set_last k sh).
Proof.
  apply (quiet_step_ok _ _ []); try reflexivity; [|constructor].
  simpl. now rewrite app_nil_r.
Qed.

Lemma clearAndResubscribe_ok s sh : step_ok sh (clearAndResubscribe s sh).
Proof.
  unfold clearAndResubscribe. cbv zeta.
  eapply step_ok_trans; [|apply block_ok_step_ok, ensureTabSubscriptions_ok].
  eapply step_ok_trans; [|apply set_last_ok].
  eapply step_ok_trans; [|apply unregister_selected_ok].
  eapply step_ok_trans; [|apply unregister_all_ok].
  do 5 (eapply step_ok_trans; [|apply release_if_set_ok]).
  apply release_if_set_ok.
Qed.

Lemma empty_shell_tracks : pending_tracks_in_flight empty_shell.
Proof.
  split; [|split]; simpl.
  - intros c pk Hin. now apply elem_of_nil in Hin.
  - constructor.
  - intros pk Hin. now apply elem_of_empty in Hin.
Qed.

Lemma step_step_ok sh sh' : step sh sh' -> step_ok sh sh'.
Proof.
  intros [s sh0 | s sh0 | s sh0 | epic_id sh0 | c resolved pre post sh0 F | event p sh0].
  - apply block_ok_step_ok, ensureTabSubscriptions_ok.
  - apply onSelection_ok.
  - apply clearAndResubscribe_ok.
  - apply toggle_ok.
  - now apply settle_ok.
  - apply push_ok.
Qed.

Lemma reachable_ok sh :
  reachable sh -> registers_first (trace sh) /\ pending_tracks_in_flight sh.
Proof.
  induction 1 as [s | sh sh' Hr [IH1 IH2] Hs].
  - assert (H : step_ok empty_shell (bootstrap s)).
    { unfold bootstrap. eapply step_ok_trans; [apply deepLink_ok|].
      apply block_ok_step_ok, ensureTabSubscriptions_ok. }
    destruct H as (es & T & R & I). split.
    + rewrite T. simpl. exact R.
    + apply I, empty_shell_tracks.
  - destruct (step_step_ok _ _ Hs) as (es & T & R & I). split.
    + rewrite T. now apply registers_first_app.
    + now apply I.
Qed.

(** ** The pending set *)

Lemma guard_entry_fingerprint key spec spec' :
  JSON_stringify_spec spec = JSON_stringify_spec spec' ->
  guard_entry key spec = guard_entry key spec'.
Proof. intros H. unfold guard_entry. now rewrite H. Qed.

(** C2, as the code has it. In every shell a run can reach, a call of
    [subscribeList] in flight that [ensureTabSubscriptions] issued (for
    [tab:issues], [tab:epics] or a board column) has its entry in
    [pending_subscriptions], the entry being the key, with the spec's
    fingerprint for [tab:issues]; no two in-flight calls share an entry;
    while it is in flight [ensureTabSubscriptions] makes no further call of
    [subscribeList] with the same key and fingerprint, so none reaches the
    transport; and the entry is out of the set once the call has settled,
    resolved or rejected. *)
Theorem pending_set_suppresses_tab_duplicates (sh : Shell) (c : Call) (pk : string) :
  reachable sh ->
  c ∈ in_flight sh ->
  pending_key_of c = Some pk ->
  pk ∈ pending_subscriptions sh
  /\ pk = guard_entry (call_key c) (call_spec c)
  /\ NoDup (omap pending_key_of (in_flight sh))
  /\ (forall s, exists es,
        trace (ensureTabSubscriptions s sh) = (trace sh ++ es)%list
        /\ forall spec, In (ESubscribeList (call_key c) spec) es ->
           JSON_stringify_spec spec <> JSON_stringify_spec (call_spec c))
  /\ (forall resolved (pre post : list Call),
        in_flight sh = (pre ++ c :: post)%list ->
        pk ∉ pending_subscriptions (settle c resolved (set_in_flight (pre ++ post) sh))).
Proof.
  intros Hr Hin Hpk.
  destruct (reachable_ok sh Hr) as [_ Htr].
  destruct Htr as (I1 & I2 & I3).
  destruct (I1 c pk Hin Hpk) as [Hmem Hguard].
  split; [exact Hmem|]. split; [exact Hguard|]. split; [exact I2|split].
  - intros s. destruct (ensureTabSubscriptions_ok s sh) as (es & T & _ & G & _).
    exists es. split; [exact T|]. intros spec Hes Hfp.
    apply (G _ _ Hes). rewrite (guard_entry_fingerprint _ _ _ Hfp), <- Hguard. exact Hmem.
  - intros resolved pre post _. unfold settle, pending_key_of in *.
    destruct (call_then c) as [v last pk0 failed context| | | |]; try discriminate.
    injection Hpk as ->. simpl. rewrite elem_of_difference, elem_of_singleton. tauto.
Qed.

Lemma pending_set_suppresses_tab_duplicates_witness :
  ("tab:issues:" ++ JSON_stringify_spec Samples.all_issues)
    ∈ pending_subscriptions Samples.booted
  /\ ("tab:issues:" ++ JSON_stringify_spec Samples.all_issues)
       ∉ pending_subscriptions
           (settle Samples.first_call false (set_in_flight [] Samples.booted)).
Proof.
  assert (Hin : Samples.first_call ∈ in_flight Samples.booted).
  { apply list_elem_of_singleton. reflexivity. }
  destruct (pending_set_suppresses_tab_duplicates Samples.booted Samples.first_call _
              (reachable_bootstrap _) Hin eq_refl) as (H1 & _ & _ & _ & H5).
  split; [exact H1|]. apply (H5 false [] []). reflexivity.
Defined.

(** C2, as stated for every key, fails for [detail:<id>]: the selection
    subscriber does not consult [pending_subscriptions].  After two emissions
    of the store with [UI-1] selected and no promise settled, two identical
    calls for [detail:UI-1] are in flight, [subscribeList] was called twice
    with the same key and spec, and the set holds no entry for the key. *)
Lemma detail_subscribe_not_suppressed_counterexample :
  reachable Samples.selected_twice
  /\ List.filter (fun c => bool_decide (call_key c = "detail:UI-1"))
                 (in_flight Samples.selected_twice)
     = [ {| call_key := "detail:UI-1"; call_spec := detail_spec "UI-1";
            call_then := KDetail |};
         {| call_key := "detail:UI-1"; call_spec := detail_spec "UI-1";
            call_then := KDetail |} ]
  /\ ("detail:UI-1" ∉ pending_subscriptions Samples.selected_twice)
  /\ (guard_entry "detail:UI-1" (detail_spec "UI-1")
       ∉ pending_subscriptions Samples.selected_twice)
  /\ count_occ Effect_eq_dec (trace Samples.selected_twice)
               (ESubscribeList "detail:UI-1" (detail_spec "UI-1")) = 2%nat.
Proof.
  split; [|split; [|split; [|split]]].
  - unfold Samples.selected_twice. eapply reachable_step; [|apply step_selection].
    eapply reachable_step; [|apply step_selection]. apply reachable_bootstrap.
  - vm_compute. reflexivity.
  - apply (bool_decide_eq_false_1 _). vm_compute. reflexivity.
  - apply (bool_decide_eq_false_1 _). vm_compute. reflexivity.
  - vm_compute. reflexivity.
Qed.

(** ** Registration before subscription *)

Lemma foldl_upsert_membership (items : list Issue) (st : Stores.Store) :
  NoDup (Stores.membership st ++ map id items)%list ->
  Stores.membership (foldl Stores.upsert_item st items)
  = (Stores.membership st ++ map id items)%list.
Proof.
  revert st. induction items as [|it items IH]; intros st Hnd; simpl.
  - now rewrite app_nil_r.
  - assert (Hfresh : id it ∉ Stores.membership st).
    { apply NoDup_app in Hnd as (_ & Hd & _). intros Hin. apply (Hd _ Hin).
      simpl. apply elem_of_cons. now left. }
    rewrite IH.
    + simpl. rewrite decide_False by exact Hfresh. now rewrite <- app_assoc.
    + simpl. rewrite decide_False by exact Hfresh. now rewrite <- app_assoc.
Qed.

Lemma foldl_upsert_other (items : list Issue) (st : Stores.Store) (i : string) :
  i ∉ map id items ->
  Stores.entities (foldl Stores.upsert_item st items) !! i = Stores.entities st !! i.
Proof.
  revert st. induction items as [|it items IH]; intros st Hni; simpl; [reflexivity|].
  simpl in Hni. apply not_elem_of_cons in Hni as [Hne Hni].
  rewrite IH by exact Hni. simpl. now rewrite lookup_insert_ne.
Qed.

Lemma foldl_upsert_entities (items : list Issue) (st : Stores.Store) (it : Issue) :
  NoDup (map id items) -> it ∈ items ->
  Stores.entities (foldl Stores.upsert_item st items) !! id it = Some it.
Proof.
  revert st. induction items as [|it0 items IH]; intros st Hnd Hin; simpl.
  - now apply elem_of_nil in Hin.
  - simpl in Hnd. apply NoDup_cons in Hnd as [Hfresh Hnd].
    apply elem_of_cons in Hin as [-> | Hin].
    + rewrite foldl_upsert_other by exact Hfresh. simpl. apply lookup_insert_eq.
    + now apply IH.
Qed.

Lemma omap_lookup_all (ents : gmap string Issue) (items : list Issue) :
  (forall it, it ∈ items -> ents !! id it = Some it) ->
  omap (fun i => ents !! i) (map id items) = items.
Proof.
  induction items as [|it items IH]; intros H; simpl; [reflexivity|].
  rewrite (H it) by (apply elem_of_cons; now left).
  f_equal. apply IH. intros it' Hin. apply H. apply elem_of_cons. now right.
Qed.

Lemma snapshot_applied (st : Stores.Store) (e : Envelope) :
  env_type e = Js.JStr "snapshot" ->
  NoDup (map id (env_items e)) ->
  exists st', Stores.applyPush st e = Some st'
    /\ omap (fun i => Stores.entities st' !! i) (Stores.membership st') = env_items e.
Proof.
  intros Hty Hnd. unfold Stores.applyPush. rewrite Hty.
  eexists. split; [reflexivity|].
  rewrite foldl_upsert_membership by exact Hnd. simpl.
  apply omap_lookup_all. intros it Hin. now apply foldl_upsert_entities.
Qed.

Lemma snapshot_routed (reg : gmap string Stores.Store) (e : Envelope) (key : string) :
  env_id e = Js.JStr key -> env_type e = Js.JStr "snapshot" ->
  key <> EmptyString ->
  NoDup (map id (env_items e)) ->
  is_Some (reg !! key) ->
  exists reg', deliver Stores.applyPush "snapshot" (PObject e) reg = (reg', [ENotify key])
    /\ Stores.snapshotFor reg' key = env_items e.
Proof.
  intros Hid Hty Hkey Hnd [st Hst].
  destruct (snapshot_applied st e Hty Hnd) as (st' & Happ & Hsnap).
  exists (<[key := st']> reg). split.
  - unfold deliver, on_snapshot, route. simpl.
    unfold routed_id. simpl. rewrite Hid. simpl.
    apply String.eqb_neq in Hkey. rewrite Hkey. simpl.
    unfold Stores.getStore. rewrite Hst, Hty. simpl. now rewrite Happ.
  - unfold Stores.snapshotFor. now rewrite lookup_insert_eq.
Qed.

Lemma register_is_Some key spec (reg : gmap string Stores.Store) :
  is_Some (Stores.register key spec reg !! key).
Proof.
  unfold Stores.register. destruct (reg !! key) eqn:E.
  - rewrite E. eauto.
  - rewrite lookup_insert_eq. eauto.
Qed.

Lemma settle_subscribe_stores c resolved sh :
  is_subscribe c = true ->
  sub_issue_stores (settle c resolved sh) = sub_issue_stores sh.
Proof.
  unfold is_subscribe, settle. destruct (call_then c) as [v last pk failed ctx| | | |];
    try discriminate; intros _; destruct resolved; simpl; try reflexivity.
  - now destruct last.
  - now destruct (handles sh unsub_detail).
Qed.

(** C1, as the code has it. In every trace a run can produce, each call
    of [subscribeList(key, spec)], for a tab key or a detail key, directly
    follows [sub_issue_stores.register(key, spec)].  [register] leaves a
    store for the key, the settling of a subscribe promise does not touch
    the stores, and a snapshot envelope with distinct ids for a key whose
    store is registered when it arrives is applied and notified:
    [snapshotFor(key)] is then the envelope's items.  So a snapshot that
    arrives right after the promise settles is observable when the key was
    registered before and has not been unregistered since. *)
Theorem register_before_subscribe_keeps_snapshot :
  (forall sh, reachable sh ->
     forall (i : nat) key spec,
       trace sh !! i = Some (ESubscribeList key spec) ->
       exists j : nat, i = S j /\ trace sh !! j = Some (ERegister key spec))
  /\ (forall sh key spec,
        is_Some (sub_issue_stores (do_register key spec sh) !! key))
  /\ (forall sh c resolved,
        is_subscribe c = true ->
        sub_issue_stores (settle c resolved sh) = sub_issue_stores sh)
  /\ (forall sh e key,
        env_id e = Js.JStr key -> env_type e = Js.JStr "snapshot" ->
        key <> EmptyString -> NoDup (map id (env_items e)) ->
        is_Some (sub_issue_stores sh !! key) ->
        Stores.snapshotFor (sub_issue_stores (push "snapshot" (PObject e) sh)) key
        = env_items e
        /\ trace (push "snapshot" (PObject e) sh) = (trace sh ++ [ENotify key])%list)
  /\ (forall sh c resolved key spec e,
        env_id e = Js.JStr key -> env_type e = Js.JStr "snapshot" ->
        key <> EmptyString -> NoDup (map id (env_items e)) ->
        is_subscribe c = true ->
        Stores.snapshotFor
          (sub_issue_stores
             (push "snapshot" (PObject e) (settle c resolved (do_register key spec sh))))
          key
        = env_items e).
Proof.
  assert (Hpush : forall sh e key,
        env_id e = Js.JStr key -> env_type e = Js.JStr "snapshot" ->
        key <> EmptyString -> NoDup (map id (env_items e)) ->
        is_Some (sub_issue_stores sh !! key) ->
        Stores.snapshotFor (sub_issue_stores (push "snapshot" (PObject e) sh)) key
        = env_items e
        /\ trace (push "snapshot" (PObject e) sh) = (trace sh ++ [ENotify key])%list).
  { intros sh e key Hid Hty Hkey Hnd Hreg.
    destruct (snapshot_routed _ e key Hid Hty Hkey Hnd Hreg) as (reg' & Hd & Hs).
    unfold push. cbv zeta. rewrite Hd. simpl. auto. }
  split; [|split; [|split; [|split]]].
  - intros sh Hr. apply (reachable_ok sh Hr).
  - intros sh key spec. simpl. apply register_is_Some.
  - intros sh c resolved. apply settle_subscribe_stores.
  - exact Hpush.
  - intros sh c resolved key spec e Hid Hty Hkey Hnd Hsub.
    apply Hpush; auto. rewrite settle_subscribe_stores by exact Hsub.
    simpl. apply register_is_Some.
Qed.

Lemma register_before_subscribe_keeps_snapshot_witness :
  Stores.snapshotFor
    (sub_issue_stores
       (push "snapshot"
          (Samples.snapshot_for "tab:issues"
             [Samples.issue "UI-1" None None; Samples.issue "UI-2" None None])
          (settle Samples.first_call true
             (do_register "tab:issues" Samples.all_issues empty_shell))))
    "tab:issues"
  = [Samples.issue "UI-1" None None; Samples.issue "UI-2" None None].
Proof.
  destruct register_before_subscribe_keeps_snapshot as (_ & _ & _ & _ & H).
  apply (H empty_shell Samples.first_call true "tab:issues" Samples.all_issues
           {| env_id := Js.JStr "tab:issues"; env_type := Js.JStr "snapshot";
              env_items := [Samples.issue "UI-1" None None; Samples.issue "UI-2" None None];
              env_ids := [] |});
    try reflexivity.
  - discriminate.
  - apply (bool_decide_eq_true_1 _). vm_compute. reflexivity.
Defined.

(** C1, as stated, promises the snapshot whenever [register(key)] came
    before the resolution.  After a deep link to [UI-1] the store for
    [detail:UI-1] is registered and the subscribe sent; a workspace switch
    then unregisters the store while the call is in flight; the call
    resolves, the snapshot arrives, and it is dropped: [snapshotFor] is
    empty and nothing is notified. *)
Lemma snapshot_after_unregister_counterexample :
  reachable Samples.snapshot_after_switch
  /\ take 2 (trace (bootstrap Samples.deep_state))
     = [ERegister "detail:UI-1" (detail_spec "UI-1");
        ESubscribeList "detail:UI-1" (detail_spec "UI-1")]
  /\ In (EUnregister "detail:UI-1") (trace Samples.switched)
  /\ Stores.snapshotFor (sub_issue_stores Samples.snapshot_after_switch) "detail:UI-1" = []
  /\ trace Samples.snapshot_after_switch = trace Samples.resolved_after_switch.
Proof.
  split; [|split; [|split; [|split]]].
  - unfold Samples.snapshot_after_switch. eapply reachable_step; [|apply step_push].
    unfold Samples.resolved_after_switch.
    eapply reachable_step;
      [|apply (step_settle Samples.deep_call true [] [Samples.first_call]);
        vm_compute; reflexivity].
    unfold Samples.switched. eapply reachable_step; [|apply step_clear].
    apply reachable_bootstrap.
  - vm_compute. reflexivity.
  - vm_compute. tauto.
  - vm_compute. reflexivity.
  - vm_compute. reflexivity.
Qed.

(** ** Resubscription of the issues tab *)









End ShellFacts.

(** * Further properties of the code *)

Ltac in_list :=
  solve [repeat (apply elem_of_cons; first [left; reflexivity | right])].

(** ** The store: repeated patches and subscriptions *)

Lemma merge_idempotent (s : State.AppState) (patch : State.Patch) :
  State.merge (State.merge s patch) patch = State.merge s patch.
Proof.
  destruct s as [sel v [st se ty cl wo] [cf] [cur av]], patch as [psel pv pf pb pw].
  unfold State.merge; simpl. f_equal.
  - destruct psel; reflexivity.
  - destruct pv; reflexivity.
  - destruct pf as [[a b c d e]|]; simpl; [|reflexivity].
    f_equal; [destruct a|destruct b|destruct c|destruct d|destruct e]; reflexivity.
  - destruct pb as [[a]|]; simpl; [|reflexivity]. destruct a; reflexivity.
  - unfold State.merge_workspace; simpl.
    destruct pw as [[a b]|]; simpl; [|reflexivity].
    f_equal; [destruct a|destruct b]; reflexivity.
Qed.

Lemma nothing_changed_refl (s : State.AppState) : State.nothing_changed s s = true.
Proof.
  apply nothing_changed_spec.
  repeat split; try reflexivity;
    match goal with |- match ?x with _ => _ end => destruct x; reflexivity end.
Qed.

(** X1. [setState] called again with the patch it was just called with
    changes nothing and calls no subscriber, whatever the patch and the state
    were. *)
Theorem setState_same_patch_twice_is_silent (patch : State.Patch) (st : State.Store) :
  State.setState patch (State.setState patch st).1 = ((State.setState patch st).1, []).
Proof.
  unfold State.setState at 2 3.
  destruct (State.nothing_changed (State.merge (State.state st) patch) (State.state st)) eqn:E;
    simpl.
  - unfold State.setState. now rewrite E.
  - unfold State.setState; simpl.
    now rewrite merge_idempotent, nothing_changed_refl.
Qed.

Lemma emit_filter (P : State.Subscriber -> Prop) `{!forall g, Decision (P g)}
  (Q : State.Invocation -> Prop) `{!forall i, Decision (Q i)}
  (fns : list State.Subscriber) (s : State.AppState) :
  (forall g b, P g <-> Q {| State.inv_sub := State.sub_id g; State.inv_arg := s;
                            State.inv_returned := b |}) ->
  State.emit (filter P fns) s = filter Q (State.emit fns s).
Proof.
  intros HPQ. induction fns as [|g fns IH]; [reflexivity|].
  simpl State.emit. rewrite !filter_cons.
  destruct (decide (P g)) as [HP|HP].
  - rewrite decide_True by (now apply HPQ). simpl. now rewrite IH.
  - rewrite decide_False by (intros HQ; apply HP; now apply HPQ in HQ). exact IH.
Qed.

(** X2. After [unsubscribe], a [setState] makes the calls it would have
    made before except those of the unsubscribed function, in the same order,
    and leaves the same state. *)
Theorem unsubscribe_removes_its_calls_only
  (fn : State.Subscriber) (patch : State.Patch) (st : State.Store) :
  (State.setState patch (State.unsubscribe fn st)).2
  = filter (fun i => State.inv_sub i ≠ State.sub_id fn) (State.setState patch st).2
  /\ State.state (State.setState patch (State.unsubscribe fn st)).1
     = State.state (State.setState patch st).1.
Proof.
  unfold State.setState, State.unsubscribe; simpl.
  destruct (State.nothing_changed _ _); simpl; split; try reflexivity.
  apply emit_filter. intros g b. simpl. tauto.
Qed.

(** X3. Subscribing a function that was not subscribed and calling the
    function [subscribe] returned gives back the store as it was. *)
Theorem subscribe_then_unsubscribe_restores (fn : State.Subscriber) (st : State.Store) :
  State.sub_id fn ∉ map State.sub_id (State.subs st) ->
  State.unsubscribe fn (State.subscribe fn st) = st.
Proof.
  intros Hfresh. unfold State.subscribe.
  rewrite bool_decide_eq_false_2 by exact Hfresh.
  unfold State.unsubscribe; simpl. destruct st as [s fns]; simpl in *. f_equal.
  rewrite filter_app. rewrite filter_cons, decide_False by (intros H; now apply H).
  rewrite filter_nil, app_nil_r.
  induction fns as [|g fns IH]; [reflexivity|].
  rewrite filter_cons. simpl in Hfresh. apply not_elem_of_cons in Hfresh as [Hne Hrest].
  rewrite decide_True by (intros H; apply Hne; now symmetry). f_equal. now apply IH.
Qed.

Lemma subscribe_then_unsubscribe_restores_witness :
  State.unsubscribe {| State.sub_id := 7%nat; State.sub_fn := fun _ => true |}
    (State.subscribe {| State.sub_id := 7%nat; State.sub_fn := fun _ => true |} Samples.store2)
  = Samples.store2.
Proof.
  apply subscribe_then_unsubscribe_restores.
  apply (bool_decide_eq_false_1 _). vm_compute. reflexivity.
Defined.

(** ** The initial state and the persisted preferences *)

Lemma first_valid_cases (types : list Dyn.Value) :
  Prefs.first_valid types = Dyn.OStr EmptyString
  \/ Dyn.to_String (Prefs.first_valid types) ∈ Prefs.ALLOWED.
Proof.
  induction types as [|it rest IH]; simpl; [now left|].
  destruct (bool_decide (Dyn.to_String it ∈ Prefs.ALLOWED)) eqn:E; [|exact IH].
  right. now apply bool_decide_eq_true in E.
Qed.

Lemma eqb3_cases (s a b c : string) :
  (if String.eqb s a || String.eqb s b || String.eqb s c then s else a) ∈ [a; b; c]
  /\ (if String.eqb s a || String.eqb s b || String.eqb s c then s else b) ∈ [a; b; c]
  /\ (if String.eqb s a || String.eqb s b || String.eqb s c then s else c) ∈ [a; b; c].
Proof.
  destruct (String.eqb_spec s a) as [->|]; simpl.
  { repeat split; in_list. }
  destruct (String.eqb_spec s b) as [->|]; simpl.
  { repeat split; in_list. }
  destruct (String.eqb_spec s c) as [->|]; simpl; repeat split; in_list.
Qed.

Lemma elem_of_FStr (x : string) (l : list string) :
  State.FStr x ∈ map State.FStr l <-> x ∈ l.
Proof.
  rewrite !list_elem_of_In, in_map_iff. split.
  - intros (y & Hy & Hin). now injection Hy as <-.
  - intros Hin. now exists x.
Qed.

(** X4. Whatever [localStorage] holds under [beads-ui.filters],
    [beads-ui.view] and [beads-ui.board], the store [bootstrap] creates starts
    with a view among [issues], [epics], [board], a status among the five
    allowed ones, a type that is empty or one of the five issue types, a
    closed filter among [today], [3], [7], no client or work label filter, no
    selection and no subscriber. *)
Theorem initial_store_is_well_formed
  (raw : Prefs.Parsed Prefs.FiltersObject) (raw_view : option string)
  (raw_board : Prefs.Parsed Prefs.BoardObject) :
  let s := State.state (Prefs.initial_store raw raw_view raw_board) in
  State.view s ∈ ["issues"; "epics"; "board"]
  /\ State.status (State.filters s) ∈ map State.FStr Prefs.STATUSES
  /\ State.type (State.filters s) ∈ map State.FStr (EmptyString :: Prefs.ALLOWED)
  /\ State.closed_filter (State.board s) ∈ ["today"; "3"; "7"]
  /\ State.client (State.filters s) = []
  /\ State.work (State.filters s) = []
  /\ State.selected_id s = None
  /\ State.subs (Prefs.initial_store raw raw_view raw_board) = [].
Proof.
  simpl. split; [|split; [|split; [|split; [|repeat split]]]].
  - unfold Prefs.last_view. destruct raw_view as [v|]; [|in_list].
    apply (eqb3_cases v "issues" "epics" "board").
  - apply (proj2 (elem_of_FStr _ Prefs.STATUSES)). unfold Prefs.persisted_filters.
    destruct raw as [| | |obj]; simpl; try (unfold Prefs.STATUSES; in_list).
    destruct (Prefs.obj_status obj) as [s|b t]; simpl.
    + destruct (bool_decide (s ∈ Prefs.STATUSES)) eqn:E.
      * now apply bool_decide_eq_true in E.
      * unfold Prefs.STATUSES; in_list.
    + unfold Prefs.STATUSES; in_list.
  - unfold CreateStore.filters_type; simpl.
    unfold Prefs.persisted_filters.
    destruct raw as [| | |obj]; simpl; try in_list.
    unfold Prefs.parsed_type.
    destruct (Dyn.one_of Prefs.ALLOWED (Prefs.obj_type obj)) eqn:E.
    + destruct (Prefs.obj_type obj) as [s|b t]; simpl in *; [|discriminate].
      apply bool_decide_eq_true in E.
      apply (proj2 (elem_of_FStr s (EmptyString :: Prefs.ALLOWED))).
      now apply elem_of_cons; right.
    + destruct (Prefs.obj_types obj) as [types|]; [|in_list].
      destruct (first_valid_cases types) as [->|Hin]; [in_list|].
      destruct (Prefs.first_valid types) as [s|b t]; simpl in *; [|in_list].
      apply (proj2 (elem_of_FStr s (EmptyString :: Prefs.ALLOWED))).
      now apply elem_of_cons; right.
  - unfold CreateStore.board_closed_filter; simpl.
    match goal with |- (if ?a || ?b || ?c then _ else _) ∈ _ =>
      destruct (a || b || c) eqn:E end; [|in_list].
    unfold Prefs.persistedBoard in *.
    destruct raw_board as [| | |obj]; try in_list.
    match goal with |- (if ?a || ?b || ?c then ?x else _) ∈ _ =>
      apply (eqb3_cases x "today" "3" "7") end.
Qed.

(** X5. The view, the status, the search text, the type and the board's
    closed filter of a state come back from what the persisting code stored
    for it, when they are values the loader accepts. *)
Theorem persisted_preferences_round_trip (s : State.AppState) :
  State.view s ∈ ["issues"; "epics"; "board"] ->
  State.status (State.filters s) ∈ map State.FStr Prefs.STATUSES ->
  State.type (State.filters s) ∈ map State.FStr (EmptyString :: Prefs.ALLOWED) ->
  State.closed_filter (State.board s) ∈ ["today"; "3"; "7"] ->
  let s' := State.state (Prefs.initial_store (Prefs.stored_filters s) (Some (State.view s))
                                             (Prefs.stored_board s)) in
  State.view s' = State.view s
  /\ State.status (State.filters s') = State.status (State.filters s)
  /\ State.search (State.filters s') = State.search (State.filters s)
  /\ State.type (State.filters s') = State.type (State.filters s)
  /\ State.closed_filter (State.board s') = State.closed_filter (State.board s).
Proof.
  intros Hv Hst Hty Hcf.
  destruct (State.status (State.filters s)) as [st|r items] eqn:Est;
    [apply elem_of_FStr in Hst
    |apply list_elem_of_In, in_map_iff in Hst as (y & Hy & _); discriminate Hy].
  destruct (State.type (State.filters s)) as [ty|r items] eqn:Ety;
    [apply (elem_of_FStr ty (EmptyString :: Prefs.ALLOWED)) in Hty
    |apply list_elem_of_In, in_map_iff in Hty as (y & Hy & _); discriminate Hy].
  simpl. rewrite Est, Ety. simpl.
  split; [|split; [|split; [|split]]].
  - unfold Prefs.last_view.
    repeat (apply elem_of_cons in Hv as [->|Hv]; [reflexivity|]). inversion Hv.
  - rewrite bool_decide_eq_true_2 by exact Hst. reflexivity.
  - reflexivity.
  - unfold CreateStore.filters_type, Prefs.parsed_type; simpl.
    apply elem_of_cons in Hty as [->|Hty]; [reflexivity|].
    rewrite bool_decide_eq_true_2 by exact Hty. reflexivity.
  - unfold CreateStore.board_closed_filter; simpl.
    repeat (apply elem_of_cons in Hcf as [->|Hcf]; [reflexivity|]). inversion Hcf.
Qed.

Lemma persisted_preferences_round_trip_witness :
  let s := Samples.app_state "board" "closed" (Some "UI-1") in
  let s' := State.state (Prefs.initial_store (Prefs.stored_filters s) (Some (State.view s))
                                             (Prefs.stored_board s)) in
  State.view s' = "board" /\ State.status (State.filters s') = State.FStr "closed".
Proof.
  pose proof (persisted_preferences_round_trip (Samples.app_state "board" "closed" (Some "UI-1"))
                ltac:(in_list) ltac:(in_list) ltac:(in_list) ltac:(in_list)) as (Hv & Hs & _).
  split; [exact Hv | exact Hs].
Defined.

(** ** Project names and connection toasts *)

Lemma split_not_nil (sep : ascii) (s : string) : Text.split sep s <> [].
Proof.
  destruct s as [|c s]; simpl; [discriminate|].
  destruct (Ascii.eqb c sep); [discriminate|].
  destruct (Text.split sep s); discriminate.
Qed.

Lemma split_free (sep : ascii) (s : string) :
  Text.free_of sep s = true -> Text.split sep s = [s].
Proof.
  induction s as [|c s IH]; simpl; [reflexivity|].
  intros H. apply andb_true_iff in H as [Hc Hs].
  apply negb_true_iff in Hc. rewrite Hc. now rewrite (IH Hs).
Qed.

Lemma split_app (sep : ascii) (a b : string) :
  Text.split sep (a ++ String sep b) = (Text.split sep a ++ Text.split sep b)%list.
Proof.
  induction a as [|c a IH]; simpl.
  - now rewrite Ascii.eqb_refl.
  - destruct (Ascii.eqb c sep); [now rewrite IH|].
    rewrite IH. destruct (Text.split sep a) as [|p ps] eqn:E; [|reflexivity].
    now apply split_not_nil in E.
Qed.

Lemma split_pieces_free (sep : ascii) (s : string) :
  Forall (fun piece => Text.free_of sep piece = true) (Text.split sep s).
Proof.
  induction s as [|c s IH]; simpl.
  - repeat constructor.
  - destruct (Ascii.eqb c sep) eqn:Ec.
    + constructor; [reflexivity|exact IH].
    + destruct (Text.split sep s) as [|p ps]; [repeat constructor; simpl; now rewrite Ec|].
      inversion IH; subst. constructor; [|assumption]. simpl. now rewrite Ec.
Qed.

Lemma nonempty_true (s : string) : Text.nonempty s = true <-> s <> EmptyString.
Proof.
  unfold Text.nonempty. rewrite negb_true_iff.
  destruct (String.eqb_spec s EmptyString); split; congruence.
Qed.

(** X6. [getProjectName] of a path that ends in a slash and a non-empty
    name without a slash is that name. *)
Theorem getProjectName_last_segment (dir name : string) :
  name <> EmptyString ->
  Text.free_of "/" name = true ->
  MainHelpers.getProjectName (dir ++ "/" ++ name) = name.
Proof.
  intros Hne Hfree. unfold MainHelpers.getProjectName.
  assert (Hnonempty : Text.nonempty (dir ++ "/" ++ name) = true).
  { apply nonempty_true. destruct dir; discriminate. }
  rewrite Hnonempty. simpl negb. cbv iota.
  change (dir ++ "/" ++ name) with (dir ++ String "/" name).
  rewrite split_app, (split_free _ _ Hfree), List.filter_app. simpl.
  apply nonempty_true in Hne. rewrite Hne.
  now rewrite last_snoc.
Qed.

Lemma getProjectName_last_segment_witness :
  MainHelpers.getProjectName ("/home/ada/Projects" ++ "/" ++ "beads-ui") = "beads-ui".
Proof.
  apply getProjectName_last_segment; [discriminate|reflexivity].
Defined.

Lemma last_filter_In {A} (f : A -> bool) (l : list A) (x : A) :
  last (List.filter f l) = Some x -> In x l /\ f x = true.
Proof.
  intros H. apply last_Some in H as [l' H].
  assert (Hin : In x (List.filter f l)) by (rewrite H; apply in_or_app; right; now left).
  now apply List.filter_In in Hin.
Qed.

(** X7. [getProjectName] never returns the empty string nor a string with
    a slash in it, and a slash appended to the path does not change the
    result. *)
Theorem getProjectName_is_a_name (path : string) :
  MainHelpers.getProjectName path <> EmptyString
  /\ Text.free_of "/" (MainHelpers.getProjectName path) = true
  /\ MainHelpers.getProjectName (path ++ "/") = MainHelpers.getProjectName path.
Proof.
  split; [|split].
  - unfold MainHelpers.getProjectName. destruct (Text.nonempty path); simpl; [|discriminate].
    destruct (last _) as [part|] eqn:E; [|discriminate].
    apply last_filter_In in E as [_ E]. now apply nonempty_true.
  - unfold MainHelpers.getProjectName. destruct (Text.nonempty path); simpl; [|reflexivity].
    destruct (last _) as [part|] eqn:E; [|reflexivity].
    apply last_filter_In in E as [E _].
    pose proof (split_pieces_free "/" path) as Hall.
    rewrite List.Forall_forall in Hall. now apply Hall.
  - unfold MainHelpers.getProjectName.
    assert (H1 : Text.nonempty (path ++ "/") = true).
    { apply nonempty_true. destruct path; discriminate. }
    rewrite H1. simpl negb. cbv iota.
    change (path ++ "/") with (path ++ String "/" EmptyString).
    rewrite split_app, List.filter_app. simpl. rewrite app_nil_r.
    destruct (Text.nonempty path) eqn:E; simpl; [reflexivity|].
    unfold Text.nonempty in E. apply negb_false_iff in E.
    apply String.eqb_eq in E. subst. reflexivity.
Qed.

Lemma onConn_all_snoc (events : list string) (s : string) (start : bool * list MainHelpers.ConnToast) :
  MainHelpers.onConn_all (events ++ [s]) start
  = let acc := MainHelpers.onConn_all events start in
    let r := MainHelpers.onConn s acc.1 in (r.1, (acc.2 ++ r.2)%list).
Proof. unfold MainHelpers.onConn_all. now rewrite foldl_app. Qed.

Lemma onConn_all_invariant (events : list string) :
  let r := MainHelpers.onConn_all events (false, []) in
  (r.1 = true -> last r.2 = Some MainHelpers.ConnectionLost)
  /\ (forall i, r.2 !! i = Some MainHelpers.Reconnected ->
        exists j, i = S j /\ r.2 !! j = Some MainHelpers.ConnectionLost).
Proof.
  induction events as [|s events IH] using rev_ind.
  - simpl. split; [discriminate|]. intros i H. now rewrite lookup_nil in H.
  - rewrite onConn_all_snoc. cbv zeta in *.
    destruct (MainHelpers.onConn_all events (false, [])) as [had ts]; simpl in *.
    destruct IH as [IH1 IH2]. unfold MainHelpers.onConn.
    destruct (String.eqb s "reconnecting" || String.eqb s "closed"); simpl.
    + split; [intros _; now rewrite last_snoc|].
      intros i H. apply lookup_snoc_Some in H as [[_ H]|[_ H]]; [|discriminate].
      destruct (IH2 i H) as (j & -> & Hj). exists j. split; [reflexivity|].
      now apply lookup_app_l_Some.
    + destruct (String.eqb s "open" && had) eqn:E; simpl.
      * split; [discriminate|]. apply andb_true_iff in E as [_ ->].
        intros i H. apply lookup_snoc_Some in H as [[_ H]|[Hi _]].
        -- destruct (IH2 i H) as (j & -> & Hj). exists j. split; [reflexivity|].
           now apply lookup_app_l_Some.
        -- specialize (IH1 eq_refl). apply last_Some in IH1 as [ts' ->].
           rewrite length_app in Hi. simpl in Hi.
           exists (length ts'). split; [lia|].
           rewrite <- (assoc_L (++)). rewrite lookup_app_r by lia.
           now rewrite Nat.sub_diag.
      * rewrite app_nil_r. split; assumption.
Qed.

(** X8. In the toasts the connection handler shows over any sequence of
    connection states, starting with no disconnect seen, a [Reconnected] toast
    always comes directly after a [Connection lost] toast; it is never the
    first toast and never follows another [Reconnected]. *)
Theorem reconnected_toast_follows_connection_lost (events : list string) (i : nat) :
  (MainHelpers.onConn_all events (false, [])).2 !! i = Some MainHelpers.Reconnected ->
  exists j, i = S j
            /\ (MainHelpers.onConn_all events (false, [])).2 !! j = Some MainHelpers.ConnectionLost.
Proof.
  intros Hi. destruct (onConn_all_invariant events) as [_ Hinv]. exact (Hinv i Hi).
Qed.

Lemma reconnected_toast_follows_connection_lost_witness :
  exists j, 1%nat = S j
            /\ (MainHelpers.onConn_all ["connecting"; "closed"; "open"; "open"] (false, [])).2 !! j
               = Some MainHelpers.ConnectionLost.
Proof.
  apply (reconnected_toast_follows_connection_lost ["connecting"; "closed"; "open"; "open"] 1).
  reflexivity.
Defined.

(** ** The in-memory registry and the watcher *)

Section RegistryFacts.

Variable resolve : string -> string.
Variable sep : string.
Variable process_pid : Z.

Lemma map_set_keys {V} (k : string) (v : V) (m : list (string * V)) :
  map fst (Registry.map_set k v m)
  = if bool_decide (k ∈ map fst m) then map fst m else (map fst m ++ [k])%list.
Proof.
  induction m as [|[k' v'] m IH]; simpl; [reflexivity|].
  destruct (String.eqb_spec k' k) as [->|Hne]; simpl.
  - rewrite bool_decide_eq_true_2 by (apply elem_of_cons; now left). reflexivity.
  - rewrite IH. destruct (bool_decide (k ∈ map fst m)) eqn:E.
    + apply bool_decide_eq_true in E.
      rewrite bool_decide_eq_true_2 by (apply elem_of_cons; now right). reflexivity.
    + apply bool_decide_eq_false in E.
      rewrite bool_decide_eq_false_2; [reflexivity|].
      intros H. apply elem_of_cons in H as [H|H]; [now apply Hne|now apply E].
Qed.

Lemma map_set_NoDup {V} (k : string) (v : V) (m : list (string * V)) :
  NoDup (map fst m) -> NoDup (map fst (Registry.map_set k v m)).
Proof.
  intros Hnd. rewrite map_set_keys.
  destruct (bool_decide (k ∈ map fst m)) eqn:E; [exact Hnd|].
  apply bool_decide_eq_false in E.
  apply NoDup_app. split; [exact Hnd|]. split.
  - intros x Hx Hk. apply list_elem_of_singleton in Hk. now subst.
  - apply NoDup_singleton.
Qed.

Lemma map_set_In {V} (k : string) (v : V) (m : list (string * V)) :
  (k, v) ∈ Registry.map_set k v m.
Proof.
  induction m as [|[k' v'] m IH]; simpl; [apply list_elem_of_singleton; reflexivity|].
  destruct (String.eqb k' k); [apply elem_of_cons; now left|apply elem_of_cons; now right].
Qed.

Lemma map_set_from {V} (k : string) (v : V) (m : list (string * V)) (x : string * V) :
  x ∈ Registry.map_set k v m -> x = (k, v) \/ x ∈ m.
Proof.
  induction m as [|[k' v'] m IH]; simpl; intros H.
  - apply list_elem_of_singleton in H. now left.
  - destruct (String.eqb k' k).
    + apply elem_of_cons in H as [H|H]; [now left|right; apply elem_of_cons; now right].
    + apply elem_of_cons in H as [H|H]; [right; apply elem_of_cons; now left|].
      destruct (IH H) as [?|?]; [now left|right; apply elem_of_cons; now right].
Qed.

Lemma filter_key_absent {V} (k : string) (m : list (string * V)) :
  k ∉ map fst m -> filter (fun x : string * V => x.1 = k) m = [].
Proof.
  induction m as [|[k' v'] m IH]; simpl; intros H; [reflexivity|].
  apply not_elem_of_cons in H as [Hne H].
  rewrite filter_cons, decide_False by (simpl; congruence). now apply IH.
Qed.

Lemma map_set_filter {V} (k : string) (v : V) (m : list (string * V)) :
  NoDup (map fst m) ->
  filter (fun x : string * V => x.1 = k) (Registry.map_set k v m) = [(k, v)].
Proof.
  induction m as [|[k' v'] m IH]; simpl; intros Hnd.
  - rewrite filter_cons, decide_True by reflexivity. reflexivity.
  - apply NoDup_cons in Hnd as [Hnotin Hnd].
    destruct (String.eqb_spec k' k) as [->|Hne].
    + rewrite filter_cons, decide_True by reflexivity. f_equal.
      now apply filter_key_absent.
    + rewrite filter_cons, decide_False by (simpl; congruence). now apply IH.
Qed.

Lemma registerWorkspace_keyed
  (w : Registry.WorkspaceRef) (m : list (string * RegistryWatcher.Workspace)) :
  Registry.keyed m -> Registry.keyed (Registry.registerWorkspace resolve process_pid w m).
Proof.
  intros [Hnd Hall]. split; [now apply map_set_NoDup|].
  apply Forall_forall. intros x Hx. apply map_set_from in Hx as [->|Hx]; [reflexivity|].
  rewrite Forall_forall in Hall. now apply Hall.
Qed.

Lemma registerAll_snoc (ws : list Registry.WorkspaceRef) (w : Registry.WorkspaceRef) :
  Registry.registerAll resolve process_pid (ws ++ [w])
  = Registry.registerWorkspace resolve process_pid w (Registry.registerAll resolve process_pid ws).
Proof. unfold Registry.registerAll. now rewrite foldl_app. Qed.

Lemma registerAll_keyed (ws : list Registry.WorkspaceRef) :
  Registry.keyed (Registry.registerAll resolve process_pid ws).
Proof.
  induction ws as [|w ws IH] using rev_ind.
  - split; [constructor|constructor].
  - rewrite registerAll_snoc. now apply registerWorkspace_keyed.
Qed.

Lemma keyed_paths (m : list (string * RegistryWatcher.Workspace)) :
  Registry.keyed m -> map RegistryWatcher.path (Registry.getInMemoryWorkspaces m) = map fst m.
Proof.
  intros [_ Hall]. unfold Registry.getInMemoryWorkspaces.
  induction Hall as [|kv m Hkv Hall IH]; simpl; [reflexivity|]. now rewrite Hkv, IH.
Qed.

Lemma keyed_filter (k : string) (m : list (string * RegistryWatcher.Workspace)) :
  Registry.keyed m ->
  filter (fun x => RegistryWatcher.path x = k) (Registry.getInMemoryWorkspaces m)
  = map snd (filter (fun kv : string * RegistryWatcher.Workspace => kv.1 = k) m).
Proof.
  intros [_ Hall]. unfold Registry.getInMemoryWorkspaces.
  induction Hall as [|kv m Hkv Hall IH]; simpl; [reflexivity|].
  rewrite !filter_cons, Hkv.
  destruct (decide (kv.1 = k)); simpl; now rewrite IH.
Qed.

(** X9. After any sequence of [registerWorkspace] calls, no two in-memory
    workspaces have the same path, and each is the entry of one of the
    registered workspaces: its path resolved, its database, the process id
    and the version [dynamic]. *)
Theorem registered_workspaces_have_unique_paths (ws : list Registry.WorkspaceRef) :
  let workspaces :=
    Registry.getInMemoryWorkspaces (Registry.registerAll resolve process_pid ws) in
  NoDup (map RegistryWatcher.path workspaces)
  /\ forall x, x ∈ workspaces -> exists w, w ∈ ws /\ x = Registry.dynamic resolve process_pid w.
Proof.
  split.
  - rewrite keyed_paths by apply registerAll_keyed. apply registerAll_keyed.
  - induction ws as [|w ws IH] using rev_ind.
    + intros x H. inversion H.
    + rewrite registerAll_snoc. intros x Hx.
      unfold Registry.getInMemoryWorkspaces in Hx.
      apply list_elem_of_fmap in Hx as ([k v] & -> & Hx).
      apply map_set_from in Hx as [Hx|Hx].
      * inversion Hx; subst. exists w. split; [|reflexivity].
        apply elem_of_app. right. now apply list_elem_of_singleton.
      * destruct (IH v) as (w0 & Hw0 & ->).
        { unfold Registry.getInMemoryWorkspaces. apply list_elem_of_fmap.
          exists (k, v). now split. }
        exists w0. split; [|reflexivity]. apply elem_of_app. now left.
Qed.

(** X10. After a registration, the in-memory workspaces hold exactly one
    entry with that workspace's resolved path, and it carries the database of
    this last registration. *)
Theorem last_registration_of_a_path_wins
  (ws : list Registry.WorkspaceRef) (w : Registry.WorkspaceRef) :
  filter (fun x => RegistryWatcher.path x = resolve (Registry.ref_path w))
         (Registry.getInMemoryWorkspaces (Registry.registerAll resolve process_pid (ws ++ [w])))
  = [Registry.dynamic resolve process_pid w].
Proof.
  rewrite keyed_filter by apply registerAll_keyed.
  rewrite registerAll_snoc. unfold Registry.registerWorkspace.
  rewrite map_set_filter by apply registerAll_keyed. reflexivity.
Qed.

(** X11. [findWorkspaceEntry] returns an entry of the registry: one whose
    resolved path equals the resolved root directory if there is any, and
    otherwise, only when no entry matches exactly, one whose resolved path
    followed by the separator is a prefix of it.  It returns [null] exactly
    when no entry matches in either way. *)
Theorem findWorkspaceEntry_prefers_exact_match
  (entries : list RegistryWatcher.RegistryEntry) (root_dir : string) :
  let is_exact e := resolve (RegistryWatcher.workspace_path e) = resolve root_dir in
  let is_inside e :=
    String.prefix (resolve (RegistryWatcher.workspace_path e) ++ sep) (resolve root_dir) = true in
  match Registry.findWorkspaceEntry resolve sep entries root_dir with
  | Some e =>
      In e entries
      /\ (is_exact e \/ (is_inside e /\ forall e', In e' entries -> ~ is_exact e'))
  | None => forall e, In e entries -> ~ is_exact e /\ ~ is_inside e
  end.
Proof.
  intros is_exact is_inside. unfold Registry.findWorkspaceEntry.
  destruct (List.find _ entries) as [e|] eqn:E1.
  - apply List.find_some in E1 as [Hin He]. split; [exact Hin|]. left.
    now apply String.eqb_eq in He.
  - assert (Hno : forall e', In e' entries -> ~ is_exact e').
    { intros e' Hin He. pose proof (List.find_none _ _ E1 e' Hin) as H. simpl in H.
      apply String.eqb_neq in H. now apply H. }
    match goal with |- match ?f with _ => _ end => destruct f as [e|] eqn:E2 end.
    + apply List.find_some in E2 as [Hin He]. split; [exact Hin|]. right. now split.
    + intros e Hin. split; [now apply Hno|].
      pose proof (List.find_none _ _ E2 e Hin) as H. simpl in H.
      unfold is_inside. now rewrite H.
Qed.

(** X12. When [path.resolve] is idempotent, a workspace that has been
    registered is found in [getAvailableWorkspaces] under its resolved path:
    as its dynamic entry, or as the file registry's entry for that path. *)
Theorem registered_workspace_is_available
  (entries : list RegistryWatcher.RegistryEntry) (m : list (string * RegistryWatcher.Workspace))
  (discovered : list RegistryWatcher.Workspace) (w : Registry.WorkspaceRef) :
  (forall p, resolve (resolve p) = resolve p) ->
  exists x,
    x ∈ RegistryWatcher.getAvailableWorkspaces resolve entries
          (Registry.getInMemoryWorkspaces (Registry.registerWorkspace resolve process_pid w m))
          discovered
    /\ resolve (RegistryWatcher.path x) = resolve (Registry.ref_path w)
    /\ (x = Registry.dynamic resolve process_pid w
        \/ x ∈ RegistryWatcher.fileWorkspaces entries).
Proof.
  intros Hidem. unfold RegistryWatcher.getAvailableWorkspaces.
  set (file := RegistryWatcher.fileWorkspaces entries).
  destruct (decide (resolve (Registry.ref_path w) ∈ RegistryWatcher.resolved_paths resolve file))
    as [Hseen|Hnew].
  - apply elem_of_resolved_paths in Hseen as (x & Hx & Hp).
    exists x. split; [apply elem_of_app; now left|]. split; [now symmetry|now right].
  - exists (Registry.dynamic resolve process_pid w). split; [|split; [apply Hidem|now left]].
    apply elem_of_app. right. apply elem_of_app. left.
    apply list_elem_of_filter. split.
    + simpl. now rewrite Hidem.
    + unfold Registry.getInMemoryWorkspaces. apply list_elem_of_fmap.
      exists (resolve (Registry.ref_path w), Registry.dynamic resolve process_pid w). split; [reflexivity|].
      apply map_set_In.
Qed.

End RegistryFacts.

Lemma registered_workspace_is_available_witness :
  exists x,
    x ∈ RegistryWatcher.getAvailableWorkspaces (fun p => p) []
          (Registry.getInMemoryWorkspaces
             (Registry.registerWorkspace (fun p => p) 4242
                {| Registry.ref_path := "/srv/app"; Registry.ref_database := "/srv/app/.beads/beads.db" |}
                []))
          []
    /\ RegistryWatcher.path x = "/srv/app"
    /\ (x = Registry.dynamic (fun p => p) 4242
              {| Registry.ref_path := "/srv/app"; Registry.ref_database := "/srv/app/.beads/beads.db" |}
        \/ x ∈ RegistryWatcher.fileWorkspaces []).
Proof.
  apply (registered_workspace_is_available (fun p => p) 4242 [] [] []
           {| Registry.ref_path := "/srv/app"; Registry.ref_database := "/srv/app/.beads/beads.db" |}).
  reflexivity.
Defined.

Lemma watch_run_closed (evs : list Watcher.WatchEvent) :
  Watcher.watch_run {| Watcher.timer_pending := false; Watcher.watcher_closed := true |} evs
  = ({| Watcher.timer_pending := false; Watcher.watcher_closed := true |}, 0%nat).
Proof.
  induction evs as [|ev evs IH]; [reflexivity|].
  destruct ev; simpl; now rewrite IH.
Qed.

Lemma watch_run_app (w : Watcher.Watch) (pre post : list Watcher.WatchEvent) :
  Watcher.watch_run w (pre ++ post)%list
  = let r := Watcher.watch_run w pre in
    let r' := Watcher.watch_run r.1 post in (r'.1, (r.2 + r'.2)%nat).
Proof.
  revert w. induction pre as [|ev pre IH]; intros w; simpl.
  - now destruct (Watcher.watch_run w post).
  - rewrite IH. simpl. f_equal. lia.
Qed.

Lemma watch_run_bound (w : Watcher.Watch) (evs : list Watcher.WatchEvent) :
  ((Watcher.watch_run w evs).2
   <= (if Watcher.timer_pending w then 1 else 0) + length (List.filter Watcher.scheduling evs))%nat.
Proof.
  revert w. induction evs as [|ev evs IH]; intros w; simpl; [lia|].
  destruct ev as [ty f| |]; simpl.
  - destruct (Watcher.watcher_closed w).
    + simpl. specialize (IH w). destruct (Watcher.schedules ty f); simpl; lia.
    + destruct (Watcher.schedules ty f); simpl.
      * specialize (IH {| Watcher.timer_pending := true; Watcher.watcher_closed := false |}).
        simpl in IH. destruct (Watcher.timer_pending w); lia.
      * apply IH.
  - destruct (Watcher.timer_pending w) eqn:E; simpl.
    + specialize (IH {| Watcher.timer_pending := false;
                        Watcher.watcher_closed := Watcher.watcher_closed w |}).
      simpl in IH. lia.
    + specialize (IH w). rewrite E in IH. lia.
  - rewrite watch_run_closed. simpl. lia.
Qed.

Lemma watch_run_burst (w : Watcher.Watch) (burst : list Watcher.WatchEvent) :
  Watcher.watcher_closed w = false ->
  burst <> [] ->
  Forall (fun ev => Watcher.scheduling ev = true) burst ->
  Watcher.watch_run w burst
  = ({| Watcher.timer_pending := true; Watcher.watcher_closed := false |}, 0%nat).
Proof.
  intros Hopen Hne Hall. revert w Hopen.
  induction Hall as [|ev burst Hev Hall IH]; intros w Hopen; [contradiction|].
  destruct ev as [ty f| |]; simpl in Hev; try discriminate.
  simpl. rewrite Hopen, Hev. simpl.
  destruct burst as [|ev' burst']; [reflexivity|].
  rewrite IH by (try discriminate; reflexivity). reflexivity.
Qed.

(** X13. A watcher calls [onChange] at most once per event that
    schedules a read (a [change] or [rename] about the registry file or
    without a file name), calls it exactly once for a burst of such events
    followed by the timeout, and calls it no more once [close()] has been
    called. *)
Theorem watchRegistry_debounces_and_stops_on_close
  (pre post : list Watcher.WatchEvent) :
  ((Watcher.watch_run Watcher.watching pre).2 <= length (List.filter Watcher.scheduling pre))%nat
  /\ (Watcher.watch_run Watcher.watching (pre ++ Watcher.Close :: post)%list).2
     = (Watcher.watch_run Watcher.watching pre).2
  /\ (forall burst : list Watcher.WatchEvent,
        burst <> [] ->
        Forall (fun ev => Watcher.scheduling ev = true) burst ->
        (Watcher.watch_run Watcher.watching (burst ++ [Watcher.TimerFires])%list).2 = 1%nat).
Proof.
  split; [apply (watch_run_bound Watcher.watching)|]. split.
  - rewrite watch_run_app. simpl. rewrite watch_run_closed. simpl. lia.
  - intros burst Hne Hall. rewrite watch_run_app.
    rewrite (watch_run_burst Watcher.watching burst) by (auto; reflexivity). reflexivity.
Qed.

(** ** The blocks of the tab subscriptions *)

Section TabFacts.
Import Data Main Tabs.

Lemma added_refl sh : added sh sh [].
Proof. unfold added. now rewrite app_nil_r. Qed.

Lemma added_trans sh1 sh2 sh3 es1 es2 :
  added sh1 sh2 es1 -> added sh2 sh3 es2 -> added sh1 sh3 (es1 ++ es2).
Proof. unfold added. intros H1 H2. now rewrite H2, H1, <- (assoc_L (++)). Qed.

(** Leaving a tab: what [releaseBoardColumn] and the [else] branches of the
    issues and epics blocks do to the variable [v] of the store [key]. *)
Lemma ensureIssuesTab_handles s sh w :
  handles (ensureIssuesTab s sh) w
  = if String.eqb (State.view s) "issues" then handles sh w
    else if decide (w = unsub_issues_tab) then None else handles sh w.
Proof.
  unfold ensureIssuesTab. destruct (String.eqb (State.view s) "issues").
  - cbv zeta. match goal with |- context [if ?c then _ else _] => destruct c end; reflexivity.
  - destruct (handles sh unsub_issues_tab) eqn:E; simpl.
    + reflexivity.
    + destruct (decide (w = unsub_issues_tab)); congruence.
Qed.

Lemma ensureEpicsTab_handles s sh w :
  handles (ensureEpicsTab s sh) w
  = if String.eqb (State.view s) "epics" then handles sh w
    else if decide (w = unsub_epics_tab) then None else handles sh w.
Proof.
  unfold ensureEpicsTab. destruct (String.eqb (State.view s) "epics").
  - cbv zeta. match goal with |- context [if ?c then _ else _] => destruct c end; reflexivity.
  - destruct (handles sh unsub_epics_tab) eqn:E; simpl.
    + reflexivity.
    + destruct (decide (w = unsub_epics_tab)); congruence.
Qed.

Lemma subscribeBoardColumn_handles v key spec failed context sh w :
  handles (subscribeBoardColumn v key spec failed context sh) w = handles sh w.
Proof.
  unfold subscribeBoardColumn.
  match goal with |- context [if ?c then _ else _] => destruct c end; reflexivity.
Qed.

Lemma releaseBoardColumn_handles v key sh w :
  handles (releaseBoardColumn v key sh) w
  = if decide (w = v) then None else handles sh w.
Proof.
  unfold releaseBoardColumn. destruct (handles sh v) eqn:E; simpl; [reflexivity|].
  destruct (decide (w = v)); congruence.
Qed.

Lemma ensureBoardTab_handles s sh w :
  handles (ensureBoardTab s sh) w
  = if String.eqb (State.view s) "board" then handles sh w
    else if bool_decide (tab_of w = Some "board") then None else handles sh w.
Proof.
  unfold ensureBoardTab. destruct (String.eqb (State.view s) "board").
  - now rewrite !subscribeBoardColumn_handles.
  - rewrite !releaseBoardColumn_handles. destruct w; reflexivity.
Qed.

Lemma ensureTabSubscriptions_handles s sh w :
  handles (ensureTabSubscriptions s sh) w
  = match tab_of w with
    | Some tab => if String.eqb (State.view s) tab then handles sh w else None
    | None => handles sh w
    end.
Proof.
  unfold ensureTabSubscriptions.
  rewrite ensureBoardTab_handles, ensureEpicsTab_handles, ensureIssuesTab_handles.
  destruct w; simpl;
    destruct (String.eqb (State.view s) "board"), (String.eqb (State.view s) "epics"),
             (String.eqb (State.view s) "issues"); reflexivity.
Qed.

(** What a block adds to the trace when it finds a handle to release. *)
Lemma ensureIssuesTab_added s sh :
  exists es, added sh (ensureIssuesTab s sh) es
    /\ (String.eqb (State.view s) "issues" = false ->
        forall h, handles sh unsub_issues_tab = Some h ->
                  es = [ERelease h; EUnregister "tab:issues"]).
Proof.
  unfold ensureIssuesTab, added. destruct (String.eqb (State.view s) "issues").
  - cbv zeta. match goal with |- context [if ?c then _ else _] => destruct c end; simpl.
    + eexists. split; [now rewrite <- (assoc_L (++))|discriminate].
    + eexists. split; [reflexivity|discriminate].
  - destruct (handles sh unsub_issues_tab) eqn:E; simpl.
    + eexists. split; [now rewrite <- (assoc_L (++))|].
      intros _ h' [= <-]. reflexivity.
    + exists []. split; [now rewrite app_nil_r|]. intros _ h' [=].
Qed.

Lemma ensureEpicsTab_added s sh :
  exists es, added sh (ensureEpicsTab s sh) es
    /\ (String.eqb (State.view s) "epics" = false ->
        forall h, handles sh unsub_epics_tab = Some h ->
                  es = [ERelease h; EUnregister "tab:epics"]).
Proof.
  unfold ensureEpicsTab, added. destruct (String.eqb (State.view s) "epics").
  - cbv zeta. match goal with |- context [if ?c then _ else _] => destruct c end; simpl.
    + eexists. split; [now rewrite <- (assoc_L (++))|discriminate].
    + eexists. split; [reflexivity|discriminate].
  - destruct (handles sh unsub_epics_tab) eqn:E; simpl.
    + eexists. split; [now rewrite <- (assoc_L (++))|].
      intros _ h' [= <-]. reflexivity.
    + exists []. split; [now rewrite app_nil_r|]. intros _ h' [=].
Qed.

Lemma releaseBoardColumn_added v key sh :
  exists es, added sh (releaseBoardColumn v key sh) es
    /\ (forall h, handles sh v = Some h -> es = [ERelease h; EUnregister key]).
Proof.
  unfold releaseBoardColumn, added. destruct (handles sh v) eqn:E; simpl.
  - eexists. split; [now rewrite <- (assoc_L (++))|]. intros h' [= <-]. reflexivity.
  - exists []. split; [now rewrite app_nil_r|]. intros h' [=].
Qed.

Lemma subscribeBoardColumn_added v key spec failed context sh :
  exists es, added sh (subscribeBoardColumn v key spec failed context sh) es.
Proof.
  unfold subscribeBoardColumn, added.
  match goal with |- context [if ?c then _ else _] => destruct c end; simpl.
  - eexists. now rewrite <- (assoc_L (++)).
  - exists []. now rewrite app_nil_r.
Qed.

Lemma ensureBoardTab_added s sh :
  exists es, added sh (ensureBoardTab s sh) es
    /\ (String.eqb (State.view s) "board" = false ->
        forall v key h, tab_of v = Some "board" -> store_key v = Some key ->
                        handles sh v = Some h ->
                        In (ERelease h) es /\ In (EUnregister key) es).
Proof.
  unfold ensureBoardTab. destruct (String.eqb (State.view s) "board").
  - destruct (subscribeBoardColumn_added unsub_board_ready "tab:board:ready"
                {| spec_type := "ready-issues"; spec_params := None |}
                "subscribe board ready failed" "board (Ready)" sh) as [e1 H1].
    set (sh1 := subscribeBoardColumn unsub_board_ready _ _ _ _ sh) in *.
    destruct (subscribeBoardColumn_added unsub_board_in_progress "tab:board:in-progress"
                {| spec_type := "in-progress-issues"; spec_params := None |}
                "subscribe board in-progress failed" "board (In Progress)" sh1) as [e2 H2].
    set (sh2 := subscribeBoardColumn unsub_board_in_progress _ _ _ _ sh1) in *.
    destruct (subscribeBoardColumn_added unsub_board_closed "tab:board:closed"
                {| spec_type := "closed-issues"; spec_params := None |}
                "subscribe board closed failed" "board (Closed)" sh2) as [e3 H3].
    set (sh3 := subscribeBoardColumn unsub_board_closed _ _ _ _ sh2) in *.
    destruct (subscribeBoardColumn_added unsub_board_blocked "tab:board:blocked"
                {| spec_type := "blocked-issues"; spec_params := None |}
                "subscribe board blocked failed" "board (Blocked)" sh3) as [e4 H4].
    eexists. split; [|discriminate].
    exact (added_trans _ _ _ _ _ (added_trans _ _ _ _ _ (added_trans _ _ _ _ _ H1 H2) H3) H4).
  - destruct (releaseBoardColumn_added unsub_board_ready "tab:board:ready" sh) as (e1 & H1 & R1).
    set (sh1 := releaseBoardColumn unsub_board_ready _ sh) in *.
    destruct (releaseBoardColumn_added unsub_board_in_progress "tab:board:in-progress" sh1)
      as (e2 & H2 & R2).
    set (sh2 := releaseBoardColumn unsub_board_in_progress _ sh1) in *.
    destruct (releaseBoardColumn_added unsub_board_closed "tab:board:closed" sh2)
      as (e3 & H3 & R3).
    set (sh3 := releaseBoardColumn unsub_board_closed _ sh2) in *.
    destruct (releaseBoardColumn_added unsub_board_blocked "tab:board:blocked" sh3)
      as (e4 & H4 & R4).
    exists (((e1 ++ e2) ++ e3) ++ e4)%list. split.
    { exact (added_trans _ _ _ _ _ (added_trans _ _ _ _ _ (added_trans _ _ _ _ _ H1 H2) H3) H4). }
    intros _ v key h Htab Hkey Hh.
    assert (Hh1 : v <> unsub_board_ready -> handles sh1 v = Some h).
    { intros Hne. subst sh1. rewrite releaseBoardColumn_handles.
      now destruct (decide (v = unsub_board_ready)). }
    assert (Hh2 : v <> unsub_board_ready -> v <> unsub_board_in_progress ->
                  handles sh2 v = Some h).
    { intros Hne1 Hne2. subst sh2. rewrite releaseBoardColumn_handles.
      destruct (decide (v = unsub_board_in_progress)); [contradiction|now apply Hh1]. }
    assert (Hh3 : v <> unsub_board_ready -> v <> unsub_board_in_progress ->
                  v <> unsub_board_closed -> handles sh3 v = Some h).
    { intros Hne1 Hne2 Hne3. subst sh3. rewrite releaseBoardColumn_handles.
      destruct (decide (v = unsub_board_closed)); [contradiction|now apply Hh2]. }
    destruct v; simpl in Htab, Hkey; try discriminate; injection Hkey as <-.
    + rewrite (R1 h Hh). split; rewrite !in_app_iff; simpl; auto 10.
    + rewrite (R2 h (Hh1 ltac:(discriminate))). split; rewrite !in_app_iff; simpl; auto 10.
    + rewrite (R3 h (Hh2 ltac:(discriminate) ltac:(discriminate))).
      split; rewrite !in_app_iff; simpl; auto 10.
    + rewrite (R4 h (Hh3 ltac:(discriminate) ltac:(discriminate) ltac:(discriminate))).
      split; rewrite !in_app_iff; simpl; auto 10.
Qed.

(** X14. After [ensureTabSubscriptions], the variable of a tab other than
    the one shown holds no handle; a handle it held has been released and the
    tab's store unregistered. *)
Theorem ensureTabSubscriptions_leaves_inactive_tabs
  (s : State.AppState) (sh : Shell) (v : UnsubVar) (tab key : string) :
  tab_of v = Some tab ->
  store_key v = Some key ->
  State.view s <> tab ->
  handles (ensureTabSubscriptions s sh) v = None
  /\ exists es, added sh (ensureTabSubscriptions s sh) es
       /\ forall h, handles sh v = Some h ->
                    In (ERelease h) es /\ In (EUnregister key) es.
Proof.
  intros Htab Hkey Hview.
  assert (Hneq : String.eqb (State.view s) tab = false) by now apply String.eqb_neq.
  split.
  { rewrite ensureTabSubscriptions_handles, Htab. now rewrite Hneq. }
  unfold ensureTabSubscriptions.
  destruct (ensureIssuesTab_added s sh) as (e1 & H1 & R1).
  pose proof (ensureIssuesTab_handles s sh) as F1.
  set (sh1 := ensureIssuesTab s sh) in *.
  destruct (ensureEpicsTab_added s sh1) as (e2 & H2 & R2).
  pose proof (ensureEpicsTab_handles s sh1) as F2.
  set (sh2 := ensureEpicsTab s sh1) in *.
  destruct (ensureBoardTab_added s sh2) as (e3 & H3 & R3).
  exists ((e1 ++ e2) ++ e3)%list. split.
  { exact (added_trans _ _ _ _ _ (added_trans _ _ _ _ _ H1 H2) H3). }
  intros h Hh. rewrite !in_app_iff.
  destruct v; simpl in Htab, Hkey; try discriminate;
    injection Htab as <-; injection Hkey as <-.
  - rewrite (R1 Hneq h Hh). simpl. auto 10.
  - assert (Hh1 : handles sh1 unsub_epics_tab = Some h).
    { rewrite F1. destruct (String.eqb (State.view s) "issues"); [exact Hh|].
      now destruct (decide (unsub_epics_tab = unsub_issues_tab)). }
    rewrite (R2 Hneq h Hh1). simpl. auto 10.
  - assert (Hh2 : handles sh2 unsub_board_ready = Some h).
    { rewrite F2, F1. destruct (String.eqb (State.view s) "issues"),
        (String.eqb (State.view s) "epics"); exact Hh. }
    destruct (R3 Hneq unsub_board_ready _ h eq_refl eq_refl Hh2). auto.
  - assert (Hh2 : handles sh2 unsub_board_in_progress = Some h).
    { rewrite F2, F1. destruct (String.eqb (State.view s) "issues"),
        (String.eqb (State.view s) "epics"); exact Hh. }
    destruct (R3 Hneq unsub_board_in_progress _ h eq_refl eq_refl Hh2). auto.
  - assert (Hh2 : handles sh2 unsub_board_closed = Some h).
    { rewrite F2, F1. destruct (String.eqb (State.view s) "issues"),
        (String.eqb (State.view s) "epics"); exact Hh. }
    destruct (R3 Hneq unsub_board_closed _ h eq_refl eq_refl Hh2). auto.
  - assert (Hh2 : handles sh2 unsub_board_blocked = Some h).
    { rewrite F2, F1. destruct (String.eqb (State.view s) "issues"),
        (String.eqb (State.view s) "epics"); exact Hh. }
    destruct (R3 Hneq unsub_board_blocked _ h eq_refl eq_refl Hh2). auto.
Qed.

Lemma pending_grows sh sh' :
  block_ok sh sh' -> pending_subscriptions sh ⊆ pending_subscriptions sh'.
Proof. intros (es & _ & _ & _ & H & _). exact H. Qed.

Lemma ensureEpicsTab_last s sh :
  last_issues_spec_key (ensureEpicsTab s sh) = last_issues_spec_key sh.
Proof.
  unfold ensureEpicsTab. cbv zeta. destruct (String.eqb (State.view s) "epics").
  - match goal with |- context [if ?c then _ else _] => destruct c end; reflexivity.
  - destruct (handles sh unsub_epics_tab); reflexivity.
Qed.

Lemma subscribeBoardColumn_last v key spec failed context sh :
  last_issues_spec_key (subscribeBoardColumn v key spec failed context sh)
  = last_issues_spec_key sh.
Proof.
  unfold subscribeBoardColumn.
  match goal with |- context [if ?c then _ else _] => destruct c end; reflexivity.
Qed.

Lemma releaseBoardColumn_last v key sh :
  last_issues_spec_key (releaseBoardColumn v key sh) = last_issues_spec_key sh.
Proof. unfold releaseBoardColumn. destruct (handles sh v); reflexivity. Qed.

Lemma ensureBoardTab_last s sh :
  last_issues_spec_key (ensureBoardTab s sh) = last_issues_spec_key sh.
Proof.
  unfold ensureBoardTab. destruct (String.eqb (State.view s) "board"); cbv zeta.
  - now rewrite !subscribeBoardColumn_last.
  - now rewrite !releaseBoardColumn_last.
Qed.

Lemma issues_guard_stays s sh sh' :
  issues_guard s sh = false ->
  handles sh' unsub_issues_tab = handles sh unsub_issues_tab ->
  last_issues_spec_key sh' = last_issues_spec_key sh ->
  pending_subscriptions sh ⊆ pending_subscriptions sh' ->
  issues_guard s sh' = false.
Proof.
  unfold issues_guard. cbv zeta. intros G H L P. rewrite H, L.
  apply andb_false_iff in G as [G|G]; [now rewrite G|].
  apply negb_false_iff, bool_decide_eq_true in G.
  rewrite (bool_decide_eq_true_2 _ (P _ G)). apply andb_false_r.
Qed.

Lemma column_guard_stays v key sh sh' :
  column_guard v key sh = false ->
  handles sh' v = handles sh v ->
  pending_subscriptions sh ⊆ pending_subscriptions sh' ->
  column_guard v key sh' = false.
Proof.
  unfold column_guard. intros G H P. rewrite H.
  apply andb_false_iff in G as [G|G]; [now rewrite G|].
  apply negb_false_iff, bool_decide_eq_true in G.
  rewrite (bool_decide_eq_true_2 _ (P _ G)). apply andb_false_r.
Qed.

Lemma ensureIssuesTab_settles s sh :
  String.eqb (State.view s) "issues" = true ->
  issues_guard s (ensureIssuesTab s sh) = false.
Proof.
  intros V. unfold ensureIssuesTab. rewrite V. cbv zeta.
  match goal with |- context [if ?c then _ else _] => destruct c eqn:E end.
  - unfold issues_guard. simpl.
    rewrite (bool_decide_eq_true_2 (_ ∈ _)); [apply andb_false_r|].
    apply elem_of_union. left. now apply elem_of_singleton.
  - exact E.
Qed.

Lemma ensureIssuesTab_at_rest s sh :
  String.eqb (State.view s) "issues" = true ->
  issues_guard s sh = false ->
  ensureIssuesTab s sh = do_register "tab:issues" (computeIssuesSpec (State.filters s)) sh.
Proof.
  intros V G. unfold ensureIssuesTab. rewrite V. cbv zeta.
  unfold issues_guard in G. cbv zeta in G. simpl. now rewrite G.
Qed.

Lemma ensureIssuesTab_away s sh :
  String.eqb (State.view s) "issues" = false ->
  handles sh unsub_issues_tab = None ->
  ensureIssuesTab s sh = sh.
Proof. intros V H. unfold ensureIssuesTab. now rewrite V, H. Qed.

Lemma ensureEpicsTab_settles s sh :
  String.eqb (State.view s) "epics" = true ->
  column_guard unsub_epics_tab "tab:epics" (ensureEpicsTab s sh) = false.
Proof.
  intros V. unfold ensureEpicsTab. rewrite V. cbv zeta.
  match goal with |- context [if ?c then _ else _] => destruct c eqn:E end.
  - unfold column_guard. simpl.
    rewrite (bool_decide_eq_true_2 (_ ∈ _)); [apply andb_false_r|].
    apply elem_of_union. left. now apply elem_of_singleton.
  - exact E.
Qed.

Lemma ensureEpicsTab_at_rest s sh :
  String.eqb (State.view s) "epics" = true ->
  column_guard unsub_epics_tab "tab:epics" sh = false ->
  ensureEpicsTab s sh
  = do_register "tab:epics" {| spec_type := "epics"; spec_params := None |} sh.
Proof.
  intros V G. unfold ensureEpicsTab. rewrite V. cbv zeta.
  unfold column_guard in G. simpl. now rewrite G.
Qed.

Lemma ensureEpicsTab_away s sh :
  String.eqb (State.view s) "epics" = false ->
  handles sh unsub_epics_tab = None ->
  ensureEpicsTab s sh = sh.
Proof. intros V H. unfold ensureEpicsTab. cbv zeta. now rewrite V, H. Qed.

Lemma subscribeBoardColumn_settles v key spec failed context sh :
  column_guard v key (subscribeBoardColumn v key spec failed context sh) = false.
Proof.
  unfold subscribeBoardColumn.
  match goal with |- context [if ?c then _ else _] => destruct c eqn:E end.
  - unfold column_guard. simpl.
    rewrite (bool_decide_eq_true_2 (_ ∈ _)); [apply andb_false_r|].
    apply elem_of_union. left. now apply elem_of_singleton.
  - exact E.
Qed.

Lemma subscribeBoardColumn_at_rest v key spec failed context sh :
  column_guard v key sh = false ->
  subscribeBoardColumn v key spec failed context sh = sh.
Proof. intros G. unfold subscribeBoardColumn. unfold column_guard in G. now rewrite G. Qed.

Lemma releaseBoardColumn_away v key sh :
  handles sh v = None -> releaseBoardColumn v key sh = sh.
Proof. intros H. unfold releaseBoardColumn. now rewrite H. Qed.

Lemma ensureBoardTab_away s sh :
  String.eqb (State.view s) "board" = false ->
  (forall v, tab_of v = Some "board" -> handles sh v = None) ->
  ensureBoardTab s sh = sh.
Proof.
  intros V H. unfold ensureBoardTab. rewrite V. cbv zeta.
  rewrite (releaseBoardColumn_away unsub_board_ready) by (now apply H).
  rewrite (releaseBoardColumn_away unsub_board_in_progress) by (now apply H).
  rewrite (releaseBoardColumn_away unsub_board_closed) by (now apply H).
  now rewrite (releaseBoardColumn_away unsub_board_blocked) by (now apply H).
Qed.

Lemma ensureBoardTab_settles s sh :
  String.eqb (State.view s) "board" = true ->
  ensureBoardTab s (ensureBoardTab s sh) = ensureBoardTab s sh.
Proof.
  intros V. unfold ensureBoardTab at 1. rewrite V. cbv zeta.
  unfold ensureBoardTab. rewrite V. cbv zeta.
  set (sh1 := subscribeBoardColumn unsub_board_ready _ _ _ _ sh).
  set (sh2 := subscribeBoardColumn unsub_board_in_progress _ _ _ _ sh1).
  set (sh3 := subscribeBoardColumn unsub_board_closed _ _ _ _ sh2).
  set (sh4 := subscribeBoardColumn unsub_board_blocked _ _ _ _ sh3).
  assert (P12 : pending_subscriptions sh1 ⊆ pending_subscriptions sh2)
    by (apply pending_grows, subscribeBoardColumn_ok; reflexivity).
  assert (P23 : pending_subscriptions sh2 ⊆ pending_subscriptions sh3)
    by (apply pending_grows, subscribeBoardColumn_ok; reflexivity).
  assert (P34 : pending_subscriptions sh3 ⊆ pending_subscriptions sh4)
    by (apply pending_grows, subscribeBoardColumn_ok; reflexivity).
  assert (H4 : forall w, handles sh4 w = handles sh3 w)
    by (intros w; apply subscribeBoardColumn_handles).
  assert (H3 : forall w, handles sh3 w = handles sh2 w)
    by (intros w; apply subscribeBoardColumn_handles).
  assert (H2 : forall w, handles sh2 w = handles sh1 w)
    by (intros w; apply subscribeBoardColumn_handles).
  rewrite (subscribeBoardColumn_at_rest unsub_board_ready).
  2:{ apply (column_guard_stays _ _ sh1); [apply subscribeBoardColumn_settles| |].
      - now rewrite H4, H3, H2.
      - etrans; [exact P12|]. etrans; [exact P23|exact P34]. }
  rewrite (subscribeBoardColumn_at_rest unsub_board_in_progress).
  2:{ apply (column_guard_stays _ _ sh2); [apply subscribeBoardColumn_settles| |].
      - now rewrite H4, H3.
      - etrans; [exact P23|exact P34]. }
  rewrite (subscribeBoardColumn_at_rest unsub_board_closed).
  2:{ apply (column_guard_stays _ _ sh3); [apply subscribeBoardColumn_settles| |].
      - now rewrite H4.
      - exact P34. }
  apply subscribeBoardColumn_at_rest, subscribeBoardColumn_settles.
Qed.

Lemma eqb_two (a b c : string) :
  b <> c -> String.eqb a b = true -> String.eqb a c = false.
Proof.
  intros Hne H. apply String.eqb_eq in H. subst. now apply String.eqb_neq.
Qed.

(** X15. [ensureTabSubscriptions] called a second time with the same
    state subscribes to nothing and releases nothing: it only repeats the
    [register] call of the issues or the epics tab when that tab is shown,
    and does nothing at all for the board. *)
Theorem ensureTabSubscriptions_twice (s : State.AppState) (sh : Shell) :
  ensureTabSubscriptions s (ensureTabSubscriptions s sh)
  = register_active_tab s (ensureTabSubscriptions s sh).
Proof.
  set (sh3 := ensureTabSubscriptions s sh).
  assert (H3 : forall w, handles sh3 w
                 = match tab_of w with
                   | Some tab => if String.eqb (State.view s) tab then handles sh w else None
                   | None => handles sh w
                   end) by (intros w; apply ensureTabSubscriptions_handles).
  unfold register_active_tab, ensureTabSubscriptions at 1.
  destruct (String.eqb (State.view s) "issues") eqn:VI.
  - pose proof (eqb_two _ "issues" "epics" ltac:(discriminate) VI) as VE.
    pose proof (eqb_two _ "issues" "board" ltac:(discriminate) VI) as VB.
    rewrite (ensureIssuesTab_at_rest s sh3 VI).
    2:{ subst sh3. unfold ensureTabSubscriptions.
        apply (issues_guard_stays _ (ensureIssuesTab s sh)).
        - now apply ensureIssuesTab_settles.
        - rewrite ensureBoardTab_handles, ensureEpicsTab_handles, VB, VE. reflexivity.
        - now rewrite ensureBoardTab_last, ensureEpicsTab_last.
        - etrans; [apply pending_grows, ensureEpicsTab_ok|].
          apply pending_grows, ensureBoardTab_ok. }
    rewrite ensureEpicsTab_away; [|exact VE|simpl; now rewrite H3; simpl; rewrite VE].
    apply ensureBoardTab_away; [exact VB|].
    intros v Hv. simpl. rewrite H3, Hv. now rewrite VB.
  - rewrite (ensureIssuesTab_away s sh3 VI) by (rewrite H3; simpl; now rewrite VI).
    destruct (String.eqb (State.view s) "epics") eqn:VE.
    + pose proof (eqb_two _ "epics" "board" ltac:(discriminate) VE) as VB.
      rewrite (ensureEpicsTab_at_rest s sh3 VE).
      2:{ subst sh3. unfold ensureTabSubscriptions.
          apply (column_guard_stays _ _ (ensureEpicsTab s (ensureIssuesTab s sh))).
          - now apply ensureEpicsTab_settles.
          - rewrite ensureBoardTab_handles, VB. reflexivity.
          - apply pending_grows, ensureBoardTab_ok. }
      apply ensureBoardTab_away; [exact VB|].
      intros v Hv. simpl. rewrite H3, Hv. now rewrite VB.
    + rewrite (ensureEpicsTab_away s sh3 VE) by (rewrite H3; simpl; now rewrite VE).
      destruct (String.eqb (State.view s) "board") eqn:VB.
      * subst sh3. unfold ensureTabSubscriptions. now apply ensureBoardTab_settles.
      * apply ensureBoardTab_away; [exact VB|].
        intros v Hv. rewrite H3, Hv. now rewrite VB.
Qed.

End TabFacts.

Lemma ensureTabSubscriptions_leaves_inactive_tabs_witness :
  Main.handles Samples.issues_active Main.unsub_issues_tab
  = Some {| Main.handle_key := "tab:issues"; Main.handle_spec := Samples.all_issues |}
  /\ Main.handles
       (Main.ensureTabSubscriptions (Samples.app_state "epics" "all" None) Samples.issues_active)
       Main.unsub_issues_tab
     = None.
Proof.
  split; [reflexivity|].
  apply (proj1 (ensureTabSubscriptions_leaves_inactive_tabs
                  (Samples.app_state "epics" "all" None) Samples.issues_active
                  Main.unsub_issues_tab "issues" "tab:issues" eq_refl eq_refl
                  ltac:(discriminate))).
Defined.

Section ClearFacts.
Import Data Main Tabs.

Lemma release_if_set_handles v sh w :
  handles (release_if_set v sh) w = if decide (w = v) then None else handles sh w.
Proof.
  unfold release_if_set. destruct (handles sh v) eqn:E; simpl; [reflexivity|].
  destruct (decide (w = v)); congruence.
Qed.

Lemma release_if_set_added v sh :
  exists es, added sh (release_if_set v sh) es
    /\ Forall (fun e => exists h, e = ERelease h) es
    /\ (forall h, handles sh v = Some h -> In (ERelease h) es).
Proof.
  unfold release_if_set, added. destruct (handles sh v) as [h|] eqn:E; simpl.
  - exists [ERelease h]. split; [reflexivity|]. split.
    + repeat constructor. now exists h.
    + intros h' [= <-]. now left.
  - exists []. split; [now rewrite app_nil_r|]. split; [constructor|]. intros h' [=].
Qed.

Lemma release_tabs_handles sh w :
  handles (release_tabs sh) w
  = match tab_of w with Some _ => None | None => handles sh w end.
Proof.
  unfold release_tabs. rewrite !release_if_set_handles. destruct w; reflexivity.
Qed.

Lemma release_tabs_added sh :
  exists es, added sh (release_tabs sh) es
    /\ Forall (fun e => exists h, e = ERelease h) es
    /\ (forall v tab h, tab_of v = Some tab -> handles sh v = Some h -> In (ERelease h) es).
Proof.
  unfold release_tabs.
  destruct (release_if_set_added unsub_issues_tab sh) as (e1 & A1 & Q1 & R1).
  pose proof (release_if_set_handles unsub_issues_tab sh) as F1.
  set (sh1 := release_if_set unsub_issues_tab sh) in *.
  destruct (release_if_set_added unsub_epics_tab sh1) as (e2 & A2 & Q2 & R2).
  pose proof (release_if_set_handles unsub_epics_tab sh1) as F2.
  set (sh2 := release_if_set unsub_epics_tab sh1) in *.
  destruct (release_if_set_added unsub_board_ready sh2) as (e3 & A3 & Q3 & R3).
  pose proof (release_if_set_handles unsub_board_ready sh2) as F3.
  set (sh3 := release_if_set unsub_board_ready sh2) in *.
  destruct (release_if_set_added unsub_board_in_progress sh3) as (e4 & A4 & Q4 & R4).
  pose proof (release_if_set_handles unsub_board_in_progress sh3) as F4.
  set (sh4 := release_if_set unsub_board_in_progress sh3) in *.
  destruct (release_if_set_added unsub_board_closed sh4) as (e5 & A5 & Q5 & R5).
  pose proof (release_if_set_handles unsub_board_closed sh4) as F5.
  set (sh5 := release_if_set unsub_board_closed sh4) in *.
  destruct (release_if_set_added unsub_board_blocked sh5) as (e6 & A6 & Q6 & R6).
  exists (((((e1 ++ e2) ++ e3) ++ e4) ++ e5) ++ e6)%list. split; [|split].
  - exact (added_trans _ _ _ _ _
             (added_trans _ _ _ _ _
                (added_trans _ _ _ _ _
                   (added_trans _ _ _ _ _ (added_trans _ _ _ _ _ A1 A2) A3) A4) A5) A6).
  - repeat (apply Forall_app; split); assumption.
  - intros v tab h Htab Hh. rewrite !in_app_iff.
    destruct v; simpl in Htab; try discriminate.
    + specialize (R1 h Hh). auto 10.
    + assert (H : handles sh1 unsub_epics_tab = Some h) by (now rewrite F1).
      specialize (R2 h H). auto 10.
    + assert (H : handles sh2 unsub_board_ready = Some h) by (now rewrite F2, F1).
      specialize (R3 h H). auto 10.
    + assert (H : handles sh3 unsub_board_in_progress = Some h) by (now rewrite F3, F2, F1).
      specialize (R4 h H). auto 10.
    + assert (H : handles sh4 unsub_board_closed = Some h) by (now rewrite F4, F3, F2, F1).
      specialize (R5 h H). auto 10.
    + assert (H : handles sh5 unsub_board_blocked = Some h)
        by (now rewrite F5, F4, F3, F2, F1).
      specialize (R6 h H). auto 10.
Qed.

Lemma clearAndResubscribe_parts s sh :
  clearAndResubscribe s sh
  = ensureTabSubscriptions s (unregister_tabs s (release_tabs sh)).
Proof. reflexivity. Qed.

Lemma unregister_tabs_frame s sh :
  handles (unregister_tabs s sh) = handles sh
  /\ last_issues_spec_key (unregister_tabs s sh) = None
  /\ pending_subscriptions (unregister_tabs s sh) = pending_subscriptions sh
  /\ in_flight (unregister_tabs s sh) = in_flight sh
  /\ exists es, added sh (unregister_tabs s sh) es
       /\ Forall (fun e => exists k, e = EUnregister k) es
       /\ (forall v k, tab_of v <> None -> store_key v = Some k -> In (EUnregister k) es).
Proof.
  unfold unregister_tabs, added. cbv zeta.
  destruct (truthy_id (State.selected_id s)) as [i|]; simpl.
  - repeat split; try reflexivity. eexists. split; [|split].
    + rewrite <- !(assoc_L (++)). reflexivity.
    + simpl. repeat constructor; eexists; reflexivity.
    + intros v k Hv Hk. destruct v; simpl in *; try congruence;
        injection Hk as <-; auto 10.
  - repeat split; try reflexivity. eexists. split; [|split].
    + rewrite <- !(assoc_L (++)). reflexivity.
    + simpl. repeat constructor; eexists; reflexivity.
    + intros v k Hv Hk. destruct v; simpl in *; try congruence;
        injection Hk as <-; auto 10.
Qed.

Lemma ensureIssuesTab_last_None s sh :
  last_issues_spec_key sh = None ->
  last_issues_spec_key (ensureIssuesTab s sh) = None.
Proof.
  intros L. unfold ensureIssuesTab. destruct (String.eqb (State.view s) "issues").
  - cbv zeta. match goal with |- context [if ?c then _ else _] => destruct c end; exact L.
  - destruct (handles sh unsub_issues_tab); [reflexivity|exact L].
Qed.

Lemma ensureTabSubscriptions_added s sh :
  exists es, added sh (ensureTabSubscriptions s sh) es.
Proof.
  destruct (ensureTabSubscriptions_ok s sh) as (es & H & _). now exists es.
Qed.

(** X16. After [clearAndResubscribe], none of the six tab variables holds
    a handle and [last_issues_spec_key] is [null]; every handle they held has
    been released and the six tab stores have been unregistered.  The detail
    handle stays where it was, and no entry leaves
    [pending_subscriptions]. *)
Theorem clearAndResubscribe_drops_every_tab_handle (s : State.AppState) (sh : Shell) :
  let sh' := clearAndResubscribe s sh in
  (forall v, v <> unsub_detail -> handles sh' v = None)
  /\ handles sh' unsub_detail = handles sh unsub_detail
  /\ last_issues_spec_key sh' = None
  /\ pending_subscriptions sh ⊆ pending_subscriptions sh'
  /\ exists es, added sh sh' es
       /\ (forall v h, v <> unsub_detail -> handles sh v = Some h -> In (ERelease h) es)
       /\ (forall v k, store_key v = Some k -> In (EUnregister k) es).
Proof.
  cbv zeta. rewrite clearAndResubscribe_parts.
  destruct (unregister_tabs_frame s (release_tabs sh)) as (FH & FL & FP & _ & eu & AU & _ & RU).
  destruct (release_tabs_added sh) as (er & AR & QR & RR).
  destruct (ensureTabSubscriptions_added s (unregister_tabs s (release_tabs sh))) as (ee & AE).
  split; [|split; [|split; [|split]]].
  - intros v Hv. rewrite ensureTabSubscriptions_handles, FH, release_tabs_handles.
    destruct v; simpl; try reflexivity; [..|contradiction];
      now destruct (String.eqb (State.view s) _).
  - rewrite ensureTabSubscriptions_handles, FH, release_tabs_handles. reflexivity.
  - unfold ensureTabSubscriptions.
    rewrite ensureBoardTab_last, ensureEpicsTab_last.
    now apply ensureIssuesTab_last_None.
  - etrans; [|apply pending_grows, ensureTabSubscriptions_ok].
    rewrite FP. unfold release_tabs, release_if_set.
    repeat match goal with |- context [match ?o with Some _ => _ | None => _ end] =>
      destruct o end; reflexivity.
  - exists ((er ++ eu) ++ ee)%list. split; [|split].
    + exact (added_trans _ _ _ _ _ (added_trans _ _ _ _ _ AR AU) AE).
    + intros v h Hv Hh. rewrite !in_app_iff. left. left.
      destruct (tab_of v) as [tab|] eqn:T; [now apply (RR v tab)|].
      destruct v; simpl in T; try discriminate. contradiction.
    + intros v k Hk. rewrite !in_app_iff. left. right. apply (RU v k); [|exact Hk].
      destruct v; simpl in *; discriminate.
Qed.

End ClearFacts.

Section GapFacts.
Import Data Main Tabs.

Lemma subscribeBoardColumn_effects v key spec failed context sh :
  exists es, added sh (subscribeBoardColumn v key spec failed context sh) es
    /\ Forall (opens key) es
    /\ (key ∈ pending_subscriptions sh -> es = []).
Proof.
  unfold subscribeBoardColumn, added.
  match goal with |- context [if ?c then _ else _] => destruct c eqn:E end; simpl.
  - exists [ERegister key spec; ESubscribeList key spec].
    split; [now rewrite <- (assoc_L (++))|]. split; [repeat constructor|].
    intros Hin. apply andb_true_iff in E as [_ E].
    apply negb_true_iff, bool_decide_eq_false in E. contradiction.
  - exists []. split; [now rewrite app_nil_r|]. split; [constructor|reflexivity].
Qed.

Lemma Forall_opens_other key key' es :
  key' <> key -> Forall (opens key') es -> Forall (fun e => ~ opens key e) es.
Proof.
  intros Hne H. eapply Forall_impl; [exact H|]. intros e H1 H2.
  destruct e; simpl in *; try contradiction; congruence.
Qed.

Lemma ensureBoardTab_skips_pending s sh v key :
  String.eqb (State.view s) "board" = true ->
  tab_of v = Some "board" ->
  store_key v = Some key ->
  key ∈ pending_subscriptions sh ->
  exists es, added sh (ensureBoardTab s sh) es /\ Forall (fun e => ~ opens key e) es.
Proof.
  intros V Htab Hkey Hpending. unfold ensureBoardTab. rewrite V. cbv zeta.
  destruct (subscribeBoardColumn_effects unsub_board_ready "tab:board:ready"
              {| spec_type := "ready-issues"; spec_params := None |}
              "subscribe board ready failed" "board (Ready)" sh) as (e1 & A1 & O1 & N1).
  assert (P1 := pending_grows _ _ (subscribeBoardColumn_ok unsub_board_ready "tab:board:ready"
              {| spec_type := "ready-issues"; spec_params := None |}
              "subscribe board ready failed" "board (Ready)" sh eq_refl)).
  set (sh1 := subscribeBoardColumn unsub_board_ready _ _ _ _ sh) in *.
  destruct (subscribeBoardColumn_effects unsub_board_in_progress "tab:board:in-progress"
              {| spec_type := "in-progress-issues"; spec_params := None |}
              "subscribe board in-progress failed" "board (In Progress)" sh1)
    as (e2 & A2 & O2 & N2).
  assert (P2 := pending_grows _ _ (subscribeBoardColumn_ok unsub_board_in_progress
              "tab:board:in-progress"
              {| spec_type := "in-progress-issues"; spec_params := None |}
              "subscribe board in-progress failed" "board (In Progress)" sh1 eq_refl)).
  set (sh2 := subscribeBoardColumn unsub_board_in_progress _ _ _ _ sh1) in *.
  destruct (subscribeBoardColumn_effects unsub_board_closed "tab:board:closed"
              {| spec_type := "closed-issues"; spec_params := None |}
              "subscribe board closed failed" "board (Closed)" sh2) as (e3 & A3 & O3 & N3).
  assert (P3 := pending_grows _ _ (subscribeBoardColumn_ok unsub_board_closed
              "tab:board:closed"
              {| spec_type := "closed-issues"; spec_params := None |}
              "subscribe board closed failed" "board (Closed)" sh2 eq_refl)).
  set (sh3 := subscribeBoardColumn unsub_board_closed _ _ _ _ sh2) in *.
  destruct (subscribeBoardColumn_effects unsub_board_blocked "tab:board:blocked"
              {| spec_type := "blocked-issues"; spec_params := None |}
              "subscribe board blocked failed" "board (Blocked)" sh3) as (e4 & A4 & O4 & N4).
  exists (((e1 ++ e2) ++ e3) ++ e4)%list. split.
  { exact (added_trans _ _ _ _ _ (added_trans _ _ _ _ _ (added_trans _ _ _ _ _ A1 A2) A3) A4). }
  destruct v; simpl in Htab, Hkey; try discriminate; injection Hkey as <-.
  - rewrite (N1 Hpending). simpl.
    repeat (apply Forall_app; split);
      (eapply Forall_opens_other; [|eassumption]); discriminate.
  - rewrite (N2 (P1 _ Hpending)), app_nil_r.
    repeat (apply Forall_app; split);
      (eapply Forall_opens_other; [|eassumption]); discriminate.
  - rewrite (N3 (P2 _ (P1 _ Hpending))), app_nil_r.
    repeat (apply Forall_app; split);
      (eapply Forall_opens_other; [|eassumption]); discriminate.
  - rewrite (N4 (P3 _ (P2 _ (P1 _ Hpending)))), app_nil_r.
    repeat (apply Forall_app; split);
      (eapply Forall_opens_other; [|eassumption]); discriminate.
Qed.

Lemma release_tabs_pending sh :
  pending_subscriptions (release_tabs sh) = pending_subscriptions sh.
Proof.
  unfold release_tabs, release_if_set.
  repeat match goal with |- context [match ?o with Some _ => _ | None => _ end] =>
    destruct o end; reflexivity.
Qed.

(** X17. When [clearAndResubscribe] runs on the board while the subscribe
    of a column is still pending, the column's store is unregistered and then
    neither registered nor subscribed again. *)
Theorem clearAndResubscribe_skips_pending_board_column
  (s : State.AppState) (sh : Shell) (v : UnsubVar) (key : string) :
  State.view s = "board" ->
  tab_of v = Some "board" ->
  store_key v = Some key ->
  key ∈ pending_subscriptions sh ->
  exists es, added sh (clearAndResubscribe s sh) es
    /\ In (EUnregister key) es
    /\ Forall (fun e => ~ opens key e) es.
Proof.
  intros V Htab Hkey Hpending.
  assert (VB : String.eqb (State.view s) "board" = true) by (now apply String.eqb_eq).
  pose proof (eqb_two _ "board" "issues" ltac:(discriminate) VB) as VI.
  pose proof (eqb_two _ "board" "epics" ltac:(discriminate) VB) as VE.
  rewrite clearAndResubscribe_parts.
  destruct (unregister_tabs_frame s (release_tabs sh)) as (FH & FL & FP & _ & eu & AU & QU & RU).
  destruct (release_tabs_added sh) as (er & AR & QR & _).
  set (sh0 := unregister_tabs s (release_tabs sh)) in *.
  assert (H0 : forall w, tab_of w <> None -> handles sh0 w = None).
  { intros w Hw. rewrite FH, release_tabs_handles. now destruct (tab_of w). }
  unfold ensureTabSubscriptions.
  rewrite (ensureIssuesTab_away s sh0 VI) by (now apply H0).
  rewrite (ensureEpicsTab_away s sh0 VE) by (now apply H0).
  destruct (ensureBoardTab_skips_pending s sh0 v key VB Htab Hkey) as (eb & AB & QB).
  { rewrite FP, release_tabs_pending. exact Hpending. }
  exists ((er ++ eu) ++ eb)%list. split; [|split].
  - exact (added_trans _ _ _ _ _ (added_trans _ _ _ _ _ AR AU) AB).
  - rewrite !in_app_iff. left. right. apply (RU v key); [now rewrite Htab|exact Hkey].
  - repeat (apply Forall_app; split); [| |exact QB].
    + eapply Forall_impl; [exact QR|]. intros e [h ->]. simpl. tauto.
    + eapply Forall_impl; [exact QU|]. intros e [k ->]. simpl. tauto.
Qed.

(** X19. Collapsing an epic before the subscribe of its expansion has
    resolved does not cancel that subscribe.  The collapse calls only the
    unsubscribe function that an earlier expansion left in [epic_unsubs], if
    there is one, and none obtained from this expansion; the subscribe stays
    in flight, and when it resolves its handle is stored although the epic is
    collapsed. *)
Theorem collapse_before_resolution_keeps_subscription (epic_id : string) (sh : Shell) :
  epic_id ∉ expanded sh ->
  let earlier := epic_unsubs sh !! epic_id in
  let sh2 := toggle epic_id (toggle epic_id sh) in
  let awaited := match earlier with
                 | Some u => [collapse_call epic_id u]
                 | None => []
                 end in
  let sh3 := settle (epic_call epic_id) true
               (set_in_flight (in_flight sh ++ awaited)%list sh2) in
  trace sh2 = (trace sh
               ++ [ERegister ("detail:" ++ epic_id) (detail_spec epic_id);
                   ESubscribeList ("detail:" ++ epic_id) (detail_spec epic_id)]
               ++ match earlier with
                  | Some u => [ERelease u]
                  | None => []
                  end)%list
  /\ in_flight sh2 = (in_flight sh ++ [epic_call epic_id] ++ awaited)%list
  /\ (epic_id ∉ expanded sh2)
  /\ trace sh3 = trace sh2
  /\ (epic_id ∉ expanded sh3)
  /\ epic_unsubs sh3 !! epic_id
     = Some {| handle_key := "detail:" ++ epic_id; handle_spec := detail_spec epic_id |}.
Proof.
  intros Hnot. cbv zeta.
  assert (E1 : toggle epic_id sh
               = do_subscribe ("detail:" ++ epic_id) (detail_spec epic_id) (KEpic epic_id)
                   (do_register ("detail:" ++ epic_id) (detail_spec epic_id)
                      (set_expanded (fun e => {[epic_id]} ∪ e) sh))).
  { unfold toggle. cbv zeta. now rewrite bool_decide_eq_true_2 by exact Hnot. }
  rewrite E1. set (sh1 := do_subscribe _ _ _ _).
  assert (Hout : epic_id ∉ ({[epic_id]} ∪ expanded sh) ∖ ({[epic_id]} : gset string)).
  { intros Hin. apply elem_of_difference in Hin as [_ Hin]. apply Hin.
    now apply elem_of_singleton. }
  assert (E2 : toggle epic_id sh1
               = match epic_unsubs sh !! epic_id with
                 | Some u =>
                     set_in_flight (in_flight sh1 ++ [collapse_call epic_id u])%list
                       (do_release u (set_expanded (fun e => e ∖ {[epic_id]}) sh1))
                 | None => set_expanded (fun e => e ∖ {[epic_id]}) sh1
                 end).
  { unfold toggle. cbv zeta. rewrite bool_decide_eq_false_2.
    - simpl. now destruct (epic_unsubs sh !! epic_id).
    - intros Hn. apply Hn. simpl. apply elem_of_union. left. now apply elem_of_singleton. }
  rewrite E2.
  destruct (epic_unsubs sh !! epic_id) as [u|]; simpl.
  - split; [now rewrite <- !(assoc_L (++))|]. split; [now rewrite <- !(assoc_L (++))|].
    split; [exact Hout|]. split; [reflexivity|]. split; [exact Hout|]. apply lookup_insert_eq.
  - split; [now rewrite <- !(assoc_L (++))|]. split; [reflexivity|].
    split; [exact Hout|]. split; [reflexivity|]. split; [exact Hout|]. apply lookup_insert_eq.
Qed.

End GapFacts.

Lemma clearAndResubscribe_skips_pending_board_column_witness :
  exists es,
    Tabs.added (Main.bootstrap (Samples.app_state "board" "all" None))
      (Main.clearAndResubscribe (Samples.app_state "board" "all" None)
         (Main.bootstrap (Samples.app_state "board" "all" None))) es
    /\ In (Main.EUnregister "tab:board:ready") es
    /\ Forall (fun e => ~ Tabs.opens "tab:board:ready" e) es.
Proof.
  apply (clearAndResubscribe_skips_pending_board_column
           (Samples.app_state "board" "all" None)
           (Main.bootstrap (Samples.app_state "board" "all" None))
           Main.unsub_board_ready "tab:board:ready" eq_refl eq_refl eq_refl).
  apply (bool_decide_eq_true_1 _). vm_compute. reflexivity.
Defined.

Lemma collapse_before_resolution_keeps_subscription_witness :
  Main.trace (Main.toggle "E-1" (Main.toggle "E-1" Samples.collapsed_early))
  = [Main.ERegister "detail:E-1" (Main.detail_spec "E-1");
     Main.ESubscribeList "detail:E-1" (Main.detail_spec "E-1");
     Main.ERegister "detail:E-1" (Main.detail_spec "E-1");
     Main.ESubscribeList "detail:E-1" (Main.detail_spec "E-1");
     Main.ERelease {| Main.handle_key := "detail:E-1";
                      Main.handle_spec := Main.detail_spec "E-1" |}].
Proof.
  apply (proj1 (collapse_before_resolution_keeps_subscription "E-1" Samples.collapsed_early
                  ltac:(apply (bool_decide_eq_false_1 _); vm_compute; reflexivity))).
Defined.

(** ** A rejected subscribe of the issues tab *)

Section RetryFacts.
Import Data Main Tabs Retry.

Lemma all_wanted_same sh sh' :
  in_flight sh' = in_flight sh ->
  handles sh' unsub_issues_tab = handles sh unsub_issues_tab ->
  last_issues_spec_key sh' = last_issues_spec_key sh ->
  all_wanted sh -> all_wanted sh'.
Proof. unfold all_wanted. now intros -> -> ->. Qed.

Lemma wanted_cleared held last_key c : wanted held last_key c -> forall k, wanted None k c.
Proof.
  unfold wanted. destruct (call_then c); auto.
  destruct (decide (v = unsub_issues_tab)); [|auto]. intros (A & B & _) k. auto.
Qed.

Lemma all_wanted_cleared sh sh' :
  in_flight sh' = in_flight sh ->
  handles sh' unsub_issues_tab = None ->
  all_wanted sh -> all_wanted sh'.
Proof.
  unfold all_wanted. intros -> -> H.
  eapply Forall_impl; [exact H|]. intros c Hc. now apply (wanted_cleared _ _ c Hc).
Qed.

Lemma all_wanted_called sh sh' c :
  in_flight sh' = (in_flight sh ++ [c])%list ->
  handles sh' unsub_issues_tab = handles sh unsub_issues_tab ->
  last_issues_spec_key sh' = last_issues_spec_key sh ->
  wanted (handles sh unsub_issues_tab) (last_issues_spec_key sh) c ->
  all_wanted sh -> all_wanted sh'.
Proof.
  unfold all_wanted. intros -> -> -> Hc H. apply Forall_app. split; [exact H|]. now constructor.
Qed.

Lemma ensureIssuesTab_wanted s sh : all_wanted sh -> all_wanted (ensureIssuesTab s sh).
Proof.
  unfold ensureIssuesTab. destruct (String.eqb (State.view s) "issues").
  - cbv zeta. match goal with |- context [if ?c then _ else _] => destruct c eqn:G end.
    + apply all_wanted_called with (c := issues_call s); try reflexivity.
      unfold wanted. simpl. split; [reflexivity|]. split; [reflexivity|].
      apply andb_true_iff in G as [G _]. simpl in G.
      apply orb_true_iff in G as [G | G].
      * left. destruct (handles sh unsub_issues_tab); [discriminate|reflexivity].
      * right. apply negb_true_iff, bool_decide_eq_false in G. congruence.
    + apply all_wanted_same; reflexivity.
  - destruct (handles sh unsub_issues_tab) eqn:E.
    + apply all_wanted_cleared; reflexivity.
    + auto.
Qed.

Lemma ensureEpicsTab_wanted s sh : all_wanted sh -> all_wanted (ensureEpicsTab s sh).
Proof.
  unfold ensureEpicsTab. cbv zeta. destruct (String.eqb (State.view s) "epics").
  - match goal with |- context [if ?c then _ else _] => destruct c end.
    + apply all_wanted_called with
        (c := {| call_key := "tab:epics";
                 call_spec := {| spec_type := "epics"; spec_params := None |};
                 call_then := KTab unsub_epics_tab None "tab:epics"
                                "subscribe epics failed" "epics" |});
        reflexivity.
    + apply all_wanted_same; reflexivity.
  - destruct (handles sh unsub_epics_tab) eqn:E.
    + apply all_wanted_same; reflexivity.
    + auto.
Qed.

Lemma subscribeBoardColumn_wanted v key spec failed context sh :
  v <> unsub_issues_tab ->
  all_wanted sh -> all_wanted (subscribeBoardColumn v key spec failed context sh).
Proof.
  intros Hv. unfold subscribeBoardColumn.
  match goal with |- context [if ?c then _ else _] => destruct c end; [|auto].
  apply all_wanted_called with
    (c := {| call_key := key; call_spec := spec;
             call_then := KTab v None key failed context |}); try reflexivity.
  unfold wanted. simpl. now rewrite decide_False by exact Hv.
Qed.

Lemma releaseBoardColumn_wanted v key sh :
  v <> unsub_issues_tab ->
  all_wanted sh -> all_wanted (releaseBoardColumn v key sh).
Proof.
  intros Hv. unfold releaseBoardColumn. destruct (handles sh v) eqn:E; [|auto].
  apply all_wanted_same; try reflexivity.
  simpl. now rewrite decide_False by (intros H; now apply Hv).
Qed.

Lemma ensureBoardTab_wanted s sh : all_wanted sh -> all_wanted (ensureBoardTab s sh).
Proof.
  intros W. unfold ensureBoardTab. destruct (String.eqb (State.view s) "board"); cbv zeta.
  - repeat (apply subscribeBoardColumn_wanted; [discriminate|]). exact W.
  - repeat (apply releaseBoardColumn_wanted; [discriminate|]). exact W.
Qed.

Lemma ensureTabSubscriptions_wanted s sh :
  all_wanted sh -> all_wanted (ensureTabSubscriptions s sh).
Proof.
  intros W. unfold ensureTabSubscriptions.
  now apply ensureBoardTab_wanted, ensureEpicsTab_wanted, ensureIssuesTab_wanted.
Qed.

Lemma onSelection_wanted s sh : all_wanted sh -> all_wanted (onSelection s sh).
Proof.
  unfold onSelection. destruct (truthy_id (State.selected_id s)) as [i|].
  - cbv zeta.
    apply all_wanted_called with
      (c := {| call_key := "detail:" ++ i; call_spec := detail_spec i; call_then := KDetail |});
      reflexivity.
  - destruct (handles sh unsub_detail) eqn:E; [|auto].
    apply all_wanted_same; reflexivity.
Qed.

Lemma deepLink_wanted s sh : all_wanted sh -> all_wanted (deepLink s sh).
Proof.
  unfold deepLink. destruct (truthy_id (State.selected_id s)) as [i|]; [|auto].
  cbv zeta.
  apply all_wanted_called with
    (c := {| call_key := "detail:" ++ i; call_spec := detail_spec i; call_then := KDeepLink |});
    reflexivity.
Qed.

Lemma clearAndResubscribe_wanted s sh :
  all_wanted sh -> all_wanted (clearAndResubscribe s sh).
Proof.
  intros W. rewrite clearAndResubscribe_parts.
  apply ensureTabSubscriptions_wanted.
  destruct (unregister_tabs_frame s (release_tabs sh)) as (FH & FL & FP & FI & _).
  revert W. apply all_wanted_cleared.
  - rewrite FI. unfold release_tabs, release_if_set.
    repeat match goal with |- context [match ?o with Some _ => _ | None => _ end] =>
      destruct o end; reflexivity.
  - rewrite FH, release_tabs_handles. reflexivity.
Qed.

Lemma toggle_wanted epic_id sh : all_wanted sh -> all_wanted (toggle epic_id sh).
Proof.
  unfold toggle. cbv zeta. case_bool_decide.
  - apply all_wanted_called with
      (c := {| call_key := "detail:" ++ epic_id; call_spec := detail_spec epic_id;
               call_then := KEpic epic_id |}); reflexivity.
  - destruct (epic_unsubs _ !! epic_id) as [u|] eqn:E.
    + apply all_wanted_called with
        (c := {| call_key := handle_key u; call_spec := handle_spec u;
                 call_then := KCollapse epic_id |}); reflexivity.
    + apply all_wanted_same; reflexivity.
Qed.

Lemma push_wanted event p sh : all_wanted sh -> all_wanted (push event p sh).
Proof. apply all_wanted_same; reflexivity. Qed.

Lemma empty_shell_wanted : all_wanted empty_shell.
Proof. constructor. Qed.

Lemma pending_keys_differ (pre post : list Call) (c c' : Call) (pk pk' : string) :
  NoDup (omap pending_key_of (pre ++ c :: post)%list) ->
  pending_key_of c = Some pk ->
  c' ∈ (pre ++ post)%list ->
  pending_key_of c' = Some pk' ->
  pk <> pk'.
Proof.
  intros Hnd Hc Hin Hc' ->.
  rewrite omap_app in Hnd. simpl in Hnd. rewrite Hc in Hnd.
  apply NoDup_app in Hnd as (_ & Hpre & Hpost).
  apply NoDup_cons in Hpost as [Hpost _].
  apply elem_of_app in Hin as [Hin | Hin].
  - apply (Hpre pk').
    + apply list_elem_of_omap. now exists c'.
    + apply elem_of_cons. now left.
  - apply Hpost. apply list_elem_of_omap. now exists c'.
Qed.

Lemma settle_wanted c resolved (pre post : list Call) sh :
  in_flight sh = (pre ++ c :: post)%list ->
  pending_tracks_in_flight sh ->
  all_wanted sh ->
  all_wanted (settle c resolved (set_in_flight (pre ++ post)%list sh)).
Proof.
  intros F (_ & Hnd & _) W. unfold all_wanted in W. rewrite F in W, Hnd.
  assert (Wc : wanted (handles sh unsub_issues_tab) (last_issues_spec_key sh) c).
  { apply Forall_app in W as [_ W]. now apply Forall_cons in W as [W _]. }
  assert (W' : all_wanted (set_in_flight (pre ++ post)%list sh)).
  { unfold all_wanted. simpl. apply Forall_app in W as [W1 W2].
    apply Forall_cons in W2 as [_ W2]. apply Forall_app. now split. }
  unfold settle. unfold wanted in Wc.
  destruct (call_then c) as [v last pk failed context | | | epic_id | epic_id] eqn:Ec.
  - destruct resolved.
    + destruct (decide (v = unsub_issues_tab)) as [->|Hv].
      * destruct Wc as (-> & -> & _). unfold all_wanted. simpl.
        apply Forall_forall. intros c' Hin.
        unfold all_wanted in W'. simpl in W'.
        pose proof (proj1 (Forall_forall _ _) W' c' Hin) as Hc'.
        unfold wanted in *.
        destruct (call_then c') as [v' last' pk' failed' context' | | | |] eqn:Ec'; auto.
        destruct (decide (v' = unsub_issues_tab)); [|exact Hc'].
        destruct Hc' as (-> & -> & _). split; [reflexivity|]. split; [reflexivity|].
        right. intros E.
        apply (pending_keys_differ pre post c c'
                 ("tab:issues:" ++ JSON_stringify_spec (call_spec c))
                 ("tab:issues:" ++ JSON_stringify_spec (call_spec c')) Hnd).
        -- unfold pending_key_of. now rewrite Ec.
        -- exact Hin.
        -- unfold pending_key_of. now rewrite Ec'.
        -- congruence.
      * subst last. revert W'. apply all_wanted_same; try reflexivity.
        simpl. now rewrite decide_False by (intros H; now apply Hv).
    + revert W'. apply all_wanted_same; reflexivity.
  - destruct resolved.
    + revert W'. apply all_wanted_same; try reflexivity.
      * simpl. now destruct (handles sh unsub_detail).
      * simpl. now destruct (handles sh unsub_detail).
      * simpl. now destruct (handles sh unsub_detail).
    + revert W'. apply all_wanted_same; reflexivity.
  - destruct resolved; [exact W'|]. revert W'. apply all_wanted_same; reflexivity.
  - destruct resolved; [|exact W']. revert W'. apply all_wanted_same; reflexivity.
  - revert W'. apply all_wanted_same; reflexivity.
Qed.

Lemma reachable_wanted sh : reachable sh -> all_wanted sh.
Proof.
  induction 1 as [s|sh sh' R IH Hstep].
  - apply ensureTabSubscriptions_wanted, deepLink_wanted, empty_shell_wanted.
  - destruct Hstep.
    + now apply ensureTabSubscriptions_wanted.
    + now apply onSelection_wanted.
    + now apply clearAndResubscribe_wanted.
    + now apply toggle_wanted.
    + apply settle_wanted; [assumption| |assumption]. now apply reachable_ok.
    + now apply push_wanted.
Qed.

(** X18. Along every run, a rejected subscribe of the issues tab is logged
    and shown in the fatal dialog and changes neither the handles held nor
    the last fingerprint; the next [ensureTabSubscriptions] for the same
    filters then issues it again, after the store's registration. *)
Theorem rejected_issues_subscribe_is_issued_again
  (s : State.AppState) (sh : Shell) (pre post : list Call) :
  reachable sh ->
  State.view s = "issues" ->
  in_flight sh = (pre ++ issues_call s :: post)%list ->
  let spec := computeIssuesSpec (State.filters s) in
  let sh1 := settle (issues_call s) false (set_in_flight (pre ++ post)%list sh) in
  trace sh1 = (trace sh ++ [ELog "subscribe issues failed"; EFatal "issues list"])%list
  /\ (forall v, handles sh1 v = handles sh v)
  /\ last_issues_spec_key sh1 = last_issues_spec_key sh
  /\ exists rest,
       trace (ensureTabSubscriptions s sh1)
       = (trace sh1 ++ [ERegister "tab:issues" spec; ESubscribeList "tab:issues" spec]
          ++ rest)%list.
Proof.
  intros R V F. cbv zeta.
  assert (VI : String.eqb (State.view s) "issues" = true) by (now apply String.eqb_eq).
  split; [reflexivity|]. split; [reflexivity|]. split; [reflexivity|].
  pose proof (reachable_wanted sh R) as W. unfold all_wanted in W. rewrite F in W.
  apply Forall_app in W as [_ W]. apply Forall_cons in W as [(_ & _ & W) _].
  unfold ensureTabSubscriptions.
  set (sh1 := settle (issues_call s) false (set_in_flight (pre ++ post)%list sh)).
  destruct (ensureEpicsTab_ok s (ensureIssuesTab s sh1)) as (e2 & A2 & _).
  destruct (ensureBoardTab_ok s (ensureEpicsTab s (ensureIssuesTab s sh1))) as (e3 & A3 & _).
  exists (e2 ++ e3)%list. rewrite A3, A2.
  unfold ensureIssuesTab. rewrite VI. cbv zeta.
  assert (G : (negb (is_set (handles (do_register "tab:issues"
                       (computeIssuesSpec (State.filters s)) sh1) unsub_issues_tab))
               || negb (bool_decide (Some (JSON_stringify_spec (computeIssuesSpec (State.filters s)))
                                     = last_issues_spec_key (do_register "tab:issues"
                                         (computeIssuesSpec (State.filters s)) sh1))))
              && negb (bool_decide ("tab:issues:" ++ JSON_stringify_spec
                                       (computeIssuesSpec (State.filters s))
                                    ∈ pending_subscriptions (do_register "tab:issues"
                                         (computeIssuesSpec (State.filters s)) sh1))) = true).
  { apply andb_true_iff. split.
    - simpl. simpl in W. destruct W as [-> | W]; [reflexivity|].
      apply orb_true_iff. right. apply negb_true_iff, bool_decide_eq_false. congruence.
    - apply negb_true_iff, bool_decide_eq_false. simpl.
      intros Hin. apply elem_of_difference in Hin as [_ Hin]. apply Hin.
      now apply elem_of_singleton. }
  rewrite G. simpl. now rewrite <- !(assoc_L (++)).
Qed.

End RetryFacts.

Lemma rejected_issues_subscribe_is_issued_again_witness :
  exists rest,
    Main.trace (Main.ensureTabSubscriptions (Samples.app_state "issues" "all" None)
                  (Main.settle Samples.first_call false (Main.set_in_flight [] Samples.booted)))
    = ([Main.ERegister "tab:issues" Samples.all_issues;
        Main.ESubscribeList "tab:issues" Samples.all_issues;
        Main.ELog "subscribe issues failed"; Main.EFatal "issues list";
        Main.ERegister "tab:issues" Samples.all_issues;
        Main.ESubscribeList "tab:issues" Samples.all_issues] ++ rest)%list.
Proof.
  destruct (rejected_issues_subscribe_is_issued_again
              (Samples.app_state "issues" "all" None) Samples.booted [] []
              (Main.reachable_bootstrap _) eq_refl eq_refl) as (_ & _ & _ & rest & H).
  exists rest. exact H.
Defined.

Section DetailFacts.
Import Data Main Tabs.

(** X20. When two issues are selected one after the other and the second
    subscribe resolves before the first, the handle kept in [unsub_detail] is
    that of the first issue and the handle of the second, selected, issue is
    released. *)
Theorem detail_handle_follows_resolution_order
  (s_a s_b : State.AppState) (a b : string) (sh : Shell) :
  truthy_id (State.selected_id s_a) = Some a ->
  truthy_id (State.selected_id s_b) = Some b ->
  let sh2 := onSelection s_b (onSelection s_a sh) in
  let sh3 := settle (detail_call b) true
               (set_in_flight (in_flight sh ++ [detail_call a])%list sh2) in
  let sh4 := settle (detail_call a) true (set_in_flight (in_flight sh) sh3) in
  in_flight sh2 = (in_flight sh ++ [detail_call a; detail_call b])%list
  /\ handles sh4 unsub_detail = Some (detail_handle a)
  /\ trace sh4
     = (trace sh
        ++ [ERegister ("detail:" ++ a) (detail_spec a);
            ESubscribeList ("detail:" ++ a) (detail_spec a);
            ERegister ("detail:" ++ b) (detail_spec b);
            ESubscribeList ("detail:" ++ b) (detail_spec b)]
        ++ match handles sh unsub_detail with
           | Some previous => [ERelease previous]
           | None => []
           end
        ++ [ERelease (detail_handle b)])%list.
Proof.
  intros Ha Hb. cbv zeta. unfold onSelection. rewrite Ha, Hb. cbv zeta.
  split; [|split].
  - simpl. now rewrite <- (assoc_L (++)).
  - reflexivity.
  - unfold settle. simpl.
    destruct (handles sh unsub_detail) as [previous|]; simpl;
      now rewrite <- !(assoc_L (++)).
Qed.

End DetailFacts.

Lemma detail_handle_follows_resolution_order_witness :
  Main.handles
    (Main.settle (Tabs.detail_call "UI-1") true
       (Main.set_in_flight []
          (Main.settle (Tabs.detail_call "UI-2") true
             (Main.set_in_flight [Tabs.detail_call "UI-1"]
                (Main.onSelection (Samples.app_state "issues" "all" (Some "UI-2"))
                   (Main.onSelection (Samples.app_state "issues" "all" (Some "UI-1"))
                      Main.empty_shell))))))
    Main.unsub_detail
  = Some (Tabs.detail_handle "UI-1").
Proof.
  apply (detail_handle_follows_resolution_order
           (Samples.app_state "issues" "all" (Some "UI-1")) (Samples.app_state "issues" "all" (Some "UI-2"))
           "UI-1" "UI-2" Main.empty_shell eq_refl eq_refl).
Defined.

(** ** The keys of the handles held *)

Section KeyedFacts.
Import Data Main Tabs Keyed.

Lemma well_keyed_same sh sh' :
  in_flight sh' = in_flight sh ->
  (forall w, handles sh' w = handles sh w) ->
  well_keyed sh -> well_keyed sh'.
Proof.
  intros F H [W1 W2]. split; [now rewrite F|].
  intros v h Hv. rewrite H in Hv. now apply W2.
Qed.

Lemma well_keyed_cleared sh sh' v :
  in_flight sh' = in_flight sh ->
  (forall w, handles sh' w = if decide (w = v) then None else handles sh w) ->
  well_keyed sh -> well_keyed sh'.
Proof.
  intros F H [W1 W2]. split; [now rewrite F|].
  intros w h Hw. rewrite H in Hw. destruct (decide (w = v)); [discriminate|]. now apply W2.
Qed.

Lemma well_keyed_called sh sh' c :
  in_flight sh' = (in_flight sh ++ [c])%list ->
  (forall w, handles sh' w = handles sh w) ->
  well_keyed_call c ->
  well_keyed sh -> well_keyed sh'.
Proof.
  intros F H Hc [W1 W2]. split.
  - rewrite F. apply Forall_app. split; [exact W1|]. now constructor.
  - intros v h Hv. rewrite H in Hv. now apply W2.
Qed.

Lemma ensureIssuesTab_keyed s sh : well_keyed sh -> well_keyed (ensureIssuesTab s sh).
Proof.
  unfold ensureIssuesTab. destruct (String.eqb (State.view s) "issues").
  - cbv zeta. match goal with |- context [if ?c then _ else _] => destruct c end.
    + apply well_keyed_called with
        (c := {| call_key := "tab:issues";
                 call_spec := computeIssuesSpec (State.filters s);
                 call_then := KTab unsub_issues_tab
                                (Some (JSON_stringify_spec (computeIssuesSpec (State.filters s))))
                                ("tab:issues:" ++ JSON_stringify_spec (computeIssuesSpec (State.filters s)))
                                "subscribe issues failed" "issues list" |});
        reflexivity.
    + apply well_keyed_same; reflexivity.
  - destruct (handles sh unsub_issues_tab) eqn:E.
    + apply (well_keyed_cleared _ _ unsub_issues_tab); reflexivity.
    + auto.
Qed.

Lemma ensureEpicsTab_keyed s sh : well_keyed sh -> well_keyed (ensureEpicsTab s sh).
Proof.
  unfold ensureEpicsTab. cbv zeta. destruct (String.eqb (State.view s) "epics").
  - match goal with |- context [if ?c then _ else _] => destruct c end.
    + apply well_keyed_called with
        (c := {| call_key := "tab:epics";
                 call_spec := {| spec_type := "epics"; spec_params := None |};
                 call_then := KTab unsub_epics_tab None "tab:epics"
                                "subscribe epics failed" "epics" |});
        reflexivity.
    + apply well_keyed_same; reflexivity.
  - destruct (handles sh unsub_epics_tab) eqn:E.
    + apply (well_keyed_cleared _ _ unsub_epics_tab); reflexivity.
    + auto.
Qed.

Lemma subscribeBoardColumn_keyed v key spec failed context sh :
  store_key v = Some key ->
  well_keyed sh -> well_keyed (subscribeBoardColumn v key spec failed context sh).
Proof.
  intros Hkey. unfold subscribeBoardColumn.
  match goal with |- context [if ?c then _ else _] => destruct c end; [|auto].
  apply well_keyed_called with
    (c := {| call_key := key; call_spec := spec;
             call_then := KTab v None key failed context |}); try reflexivity.
  exact Hkey.
Qed.

Lemma releaseBoardColumn_keyed v key sh :
  well_keyed sh -> well_keyed (releaseBoardColumn v key sh).
Proof.
  unfold releaseBoardColumn. destruct (handles sh v) eqn:E; [|auto].
  apply (well_keyed_cleared _ _ v); reflexivity.
Qed.

Lemma ensureBoardTab_keyed s sh : well_keyed sh -> well_keyed (ensureBoardTab s sh).
Proof.
  intros W. unfold ensureBoardTab. destruct (String.eqb (State.view s) "board"); cbv zeta.
  - repeat (apply subscribeBoardColumn_keyed; [reflexivity|]). exact W.
  - repeat apply releaseBoardColumn_keyed. exact W.
Qed.

Lemma ensureTabSubscriptions_keyed s sh :
  well_keyed sh -> well_keyed (ensureTabSubscriptions s sh).
Proof.
  intros W. unfold ensureTabSubscriptions.
  now apply ensureBoardTab_keyed, ensureEpicsTab_keyed, ensureIssuesTab_keyed.
Qed.

Lemma onSelection_keyed s sh : well_keyed sh -> well_keyed (onSelection s sh).
Proof.
  unfold onSelection. destruct (truthy_id (State.selected_id s)) as [i|].
  - cbv zeta.
    apply well_keyed_called with
      (c := {| call_key := "detail:" ++ i; call_spec := detail_spec i; call_then := KDetail |});
      try reflexivity.
    now exists i.
  - destruct (handles sh unsub_detail) eqn:E; [|auto].
    apply (well_keyed_cleared _ _ unsub_detail); reflexivity.
Qed.

Lemma deepLink_keyed s sh : well_keyed sh -> well_keyed (deepLink s sh).
Proof.
  unfold deepLink. destruct (truthy_id (State.selected_id s)) as [i|]; [|auto].
  cbv zeta.
  apply well_keyed_called with
    (c := {| call_key := "detail:" ++ i; call_spec := detail_spec i; call_then := KDeepLink |});
    reflexivity.
Qed.

Lemma release_if_set_keyed v sh : well_keyed sh -> well_keyed (release_if_set v sh).
Proof.
  unfold release_if_set. destruct (handles sh v) eqn:E; [|auto].
  apply (well_keyed_cleared _ _ v); reflexivity.
Qed.

Lemma clearAndResubscribe_keyed s sh :
  well_keyed sh -> well_keyed (clearAndResubscribe s sh).
Proof.
  intros W. rewrite clearAndResubscribe_parts.
  apply ensureTabSubscriptions_keyed.
  assert (W' : well_keyed (release_tabs sh)).
  { unfold release_tabs. now repeat apply release_if_set_keyed. }
  revert W'. apply well_keyed_same.
  - apply unregister_tabs_frame.
  - intros w. now rewrite (proj1 (unregister_tabs_frame s (release_tabs sh))).
Qed.

Lemma toggle_keyed epic_id sh : well_keyed sh -> well_keyed (toggle epic_id sh).
Proof.
  unfold toggle. cbv zeta. case_bool_decide.
  - apply well_keyed_called with
      (c := {| call_key := "detail:" ++ epic_id; call_spec := detail_spec epic_id;
               call_then := KEpic epic_id |}); reflexivity.
  - destruct (epic_unsubs _ !! epic_id) as [u|] eqn:E.
    + apply well_keyed_called with
        (c := {| call_key := handle_key u; call_spec := handle_spec u;
                 call_then := KCollapse epic_id |}); reflexivity.
    + apply well_keyed_same; reflexivity.
Qed.

Lemma settle_keyed c resolved (pre post : list Call) sh :
  in_flight sh = (pre ++ c :: post)%list ->
  well_keyed sh ->
  well_keyed (settle c resolved (set_in_flight (pre ++ post)%list sh)).
Proof.
  intros F [W1 W2]. rewrite F in W1.
  apply Forall_app in W1 as [Wpre Wcp]. apply Forall_cons in Wcp as [Wc Wpost].
  assert (W' : well_keyed (set_in_flight (pre ++ post)%list sh)).
  { split; [simpl; apply Forall_app; now split|exact W2]. }
  unfold settle. unfold well_keyed_call in Wc.
  destruct (call_then c) as [v last pk failed context | | | epic_id | epic_id].
  - destruct resolved.
    + destruct W' as [W1' W2'].
      split; [destruct last; exact W1'|].
      intros w h Hw.
      assert (Hw' : (if decide (w = v)
                     then Some {| handle_key := call_key c; handle_spec := call_spec c |}
                     else handles sh w) = Some h) by (destruct last; exact Hw).
      destruct (decide (w = v)) as [->|].
      * injection Hw' as <-. unfold well_keyed_handle. now rewrite Wc.
      * now apply W2.
    + revert W'. apply well_keyed_same; reflexivity.
  - destruct resolved.
    + destruct W' as [W1' W2'].
      split; [destruct (handles _ unsub_detail); exact W1'|].
      intros w h Hw.
      assert (Hw' : (if decide (w = unsub_detail)
                     then Some {| handle_key := call_key c; handle_spec := call_spec c |}
                     else handles sh w) = Some h)
        by (destruct (handles (set_in_flight (pre ++ post) sh) unsub_detail); exact Hw).
      destruct (decide (w = unsub_detail)) as [->|]; [|now apply W2].
      injection Hw' as <-. exact Wc.
    + revert W'. apply well_keyed_same; reflexivity.
  - destruct resolved; [exact W'|]. revert W'. apply well_keyed_same; reflexivity.
  - destruct resolved; [|exact W']. revert W'. apply well_keyed_same; reflexivity.
  - revert W'. apply well_keyed_same; reflexivity.
Qed.

Lemma push_keyed event p sh : well_keyed sh -> well_keyed (push event p sh).
Proof. apply well_keyed_same; reflexivity. Qed.

Lemma empty_shell_keyed : well_keyed empty_shell.
Proof. split; [constructor|]. intros v h [=]. Qed.

Lemma reachable_keyed sh : reachable sh -> well_keyed sh.
Proof.
  induction 1 as [s|sh sh' _ IH Hstep].
  - apply ensureTabSubscriptions_keyed, deepLink_keyed, empty_shell_keyed.
  - destruct Hstep.
    + now apply ensureTabSubscriptions_keyed.
    + now apply onSelection_keyed.
    + now apply clearAndResubscribe_keyed.
    + now apply toggle_keyed.
    + now apply settle_keyed.
    + now apply push_keyed.
Qed.

(** X30. Along every run of the shell, a tab variable holds only a handle
    of that tab's own key, and [unsub_detail] only a handle of a detail
    key: what a tab releases on leaving is its own subscription. *)
Theorem tab_variables_hold_their_own_handles (sh : Shell) (v : UnsubVar) (h : Handle) :
  reachable sh ->
  handles sh v = Some h ->
  match store_key v with
  | Some key => handle_key h = key
  | None => exists i, handle_key h = "detail:" ++ i
  end.
Proof.
  intros R Hv. destruct (reachable_keyed sh R) as [_ W]. exact (W v h Hv).
Qed.

End KeyedFacts.

Lemma issues_active_reachable : Main.reachable Samples.issues_active.
Proof.
  apply (Main.reachable_step Samples.booted).
  - apply Main.reachable_bootstrap.
  - apply (Main.step_settle Samples.first_call true [] []). reflexivity.
Defined.

Lemma tab_variables_hold_their_own_handles_witness :
  Main.reachable Samples.issues_active
  /\ exists h, Main.handles Samples.issues_active Main.unsub_issues_tab = Some h
               /\ Main.handle_key h = "tab:issues".
Proof.
  split; [exact issues_active_reachable|].
  exists {| Main.handle_key := "tab:issues"; Main.handle_spec := Samples.all_issues |}.
  split; [reflexivity|].
  exact (tab_variables_hold_their_own_handles Samples.issues_active Main.unsub_issues_tab
           {| Main.handle_key := "tab:issues"; Main.handle_spec := Samples.all_issues |}
           issues_active_reachable eq_refl).
Defined.

(** ** Labels and the board *)

Lemma prefix_app (p v : string) : String.prefix p (p ++ v) = true.
Proof.
  induction p as [|c p IH]; simpl; [now destruct v|].
  destruct (ascii_dec c c); [exact IH|contradiction].
Qed.

Lemma slice_app (p v : string) : Text.slice (String.length p) (p ++ v) = v.
Proof. induction p as [|c p IH]; simpl; [reflexivity|exact IH]. Qed.

Lemma prefix_slice (p l : string) :
  String.prefix p l = true -> l = p ++ Text.slice (String.length p) l.
Proof.
  revert l. induction p as [|c p IH]; intros l H; simpl; [reflexivity|].
  destruct l as [|d l]; simpl in H; [discriminate|].
  destruct (ascii_dec c d) as [->|]; [|discriminate].
  change (String d l = String d (p ++ Text.slice (String.length p) l)).
  f_equal. now apply IH.
Qed.

Lemma set_add_elem (x y : string) (values : list string) :
  y ∈ Labels.set_add x values <-> y = x \/ y ∈ values.
Proof.
  unfold Labels.set_add. case_bool_decide as H.
  - split; [now right|]. intros [->|?]; assumption.
  - rewrite elem_of_app, list_elem_of_singleton. tauto.
Qed.

Lemma set_add_NoDup (x : string) (values : list string) :
  NoDup values -> NoDup (Labels.set_add x values).
Proof.
  intros Hnd. unfold Labels.set_add. case_bool_decide as H; [exact Hnd|].
  apply NoDup_app. split; [exact Hnd|]. split; [|apply NoDup_singleton].
  intros y Hy Hx. apply list_elem_of_singleton in Hx. now subst.
Qed.

Lemma add_labels_NoDup (prefix : string) (values : list string) (issue : Data.Issue) :
  NoDup values -> NoDup (Labels.add_labels prefix values issue).
Proof.
  unfold Labels.add_labels. destruct (Data.labels issue) as [ls|]; [|auto].
  revert values. induction ls as [|l ls IH]; intros values Hnd; simpl; [exact Hnd|].
  apply IH. destruct (String.prefix prefix l); [now apply set_add_NoDup|exact Hnd].
Qed.

Lemma add_labels_elem (prefix value : string) (values : list string) (issue : Data.Issue) :
  value ∈ Labels.add_labels prefix values issue
  <-> value ∈ values
      \/ exists ls, Data.labels issue = Some ls /\ (prefix ++ value) ∈ ls.
Proof.
  unfold Labels.add_labels. destruct (Data.labels issue) as [ls|].
  2:{ split; [now left|]. intros [H|(ls & H & _)]; [exact H|discriminate]. }
  assert (H : forall values,
            value ∈ foldl (fun values label =>
                             if String.prefix prefix label
                             then Labels.set_add (Text.slice (String.length prefix) label) values
                             else values) values ls
            <-> value ∈ values \/ (prefix ++ value) ∈ ls).
  { clear values. induction ls as [|l ls IH]; intros values; simpl.
    - split; [now left|]. intros [H|H]; [exact H|inversion H].
    - rewrite IH, elem_of_cons.
      destruct (String.prefix prefix l) eqn:E.
      + rewrite set_add_elem. split.
        * intros [[->|H]|H]; [|now left|right; now right].
          right. left. symmetry. now apply prefix_slice.
        * intros [H|[H|H]]; [left; now right| |now right].
          left. left. subst l. now rewrite slice_app.
      + split.
        * intros [H|H]; [now left|right; now right].
        * intros [H|[H|H]]; [now left| |now right].
          subst l. now rewrite prefix_app in E. }
  rewrite H. split.
  - intros [?|?]; [now left|right; now exists ls].
  - intros [?|(ls' & [= <-] & ?)]; [now left|now right].
Qed.

Lemma collected_NoDup (prefix : string) (cache : list Data.Issue) (values : list string) :
  NoDup values -> NoDup (foldl (Labels.add_labels prefix) values cache).
Proof.
  revert values. induction cache as [|issue cache IH]; intros values Hnd; simpl; [exact Hnd|].
  now apply IH, add_labels_NoDup.
Qed.

Lemma collected_elem (prefix value : string) (cache : list Data.Issue) (values : list string) :
  value ∈ foldl (Labels.add_labels prefix) values cache
  <-> value ∈ values
      \/ exists issue ls, In issue cache /\ Data.labels issue = Some ls /\ (prefix ++ value) ∈ ls.
Proof.
  revert values. induction cache as [|issue cache IH]; intros values; simpl.
  - split; [now left|]. intros [H|(? & ? & [] & _)]. exact H.
  - rewrite IH, add_labels_elem. split.
    + intros [[H|(ls & H1 & H2)]|(i & ls & H1 & H2)].
      * now left.
      * right. exists issue, ls. auto.
      * right. exists i, ls. auto.
    + intros [H|(i & ls & [<-|H1] & H2 & H3)].
      * left. now left.
      * left. right. now exists ls.
      * right. exists i, ls. auto.
Qed.

Lemma units_ltb_spec (a b : list N) :
  Js.units_ltb a b = true <->
  (exists y rest, b = (a ++ y :: rest)%list)
  \/ (exists p x y ra rb, a = (p ++ x :: ra)%list /\ b = (p ++ y :: rb)%list /\ (x < y)%N).
Proof.
  revert b. induction a as [|x a IH]; intros [|y b]; simpl.
  - split; [discriminate|]. intros [(y & rest & H) | (p & x & y & ra & rb & H & _)].
    + discriminate H.
    + destruct p; discriminate H.
  - split; [|reflexivity]. intros _. left. now exists y, b.
  - split; [discriminate|]. intros [(y & rest & H) | (p & x' & y & ra & rb & _ & H & _)].
    + discriminate H.
    + destruct p; discriminate H.
  - rewrite orb_true_iff, andb_true_iff, N.ltb_lt, N.eqb_eq, IH. split.
    + intros [Hlt | [-> [(z & rest & H) | (p & x' & y' & ra & rb & H1 & H2 & H3)]]].
      * right. exists [], x, y, a, b. auto.
      * left. exists z, rest. simpl. now rewrite H.
      * right. exists (y :: p), x', y', ra, rb. simpl. rewrite H1, H2. auto.
    + intros [(z & rest & H) | (p & x' & y' & ra & rb & H1 & H2 & H3)].
      * injection H as -> ->. right. split; [reflexivity|]. left. now exists z, rest.
      * destruct p as [|q p]; simpl in *.
        -- injection H1 as -> ->. injection H2 as -> ->. now left.
        -- injection H1 as -> ->. injection H2 as -> ->. right. split; [reflexivity|].
           right. exists p, x', y', ra, rb. auto.
Qed.

Lemma units_ltb_asym (a b : list N) : Js.units_ltb a b = true -> Js.units_ltb b a = false.
Proof.
  revert b. induction a as [|x a IH]; intros [|y b]; simpl; try reflexivity; try discriminate.
  intros H. apply orb_true_iff in H as [H | H].
  - apply N.ltb_lt in H. apply orb_false_iff. split.
    + apply N.ltb_ge. lia.
    + apply andb_false_iff. left. apply N.eqb_neq. lia.
  - apply andb_true_iff in H as [E H]. apply N.eqb_eq in E. subst.
    rewrite N.ltb_irrefl, N.eqb_refl. simpl. now apply IH.
Qed.

Lemma units_ltb_total (a b : list N) :
  Js.units_ltb b a = false -> Js.units_ltb a b = true \/ a = b.
Proof.
  revert b. induction a as [|x a IH]; intros [|y b]; simpl; auto; try discriminate.
  intros H. apply orb_false_iff in H as [H1 H2]. apply N.ltb_ge in H1.
  destruct (N.eqb_spec y x) as [->|Hne].
  - simpl in H2. rewrite N.ltb_irrefl, N.eqb_refl. simpl.
    destruct (IH b H2) as [H | ->]; auto.
  - left. apply orb_true_iff. left. apply N.ltb_lt. lia.
Qed.

Lemma units_le_trans (a b c : list N) :
  Js.units_ltb b a = false -> Js.units_ltb c b = false -> Js.units_ltb c a = false.
Proof.
  revert b c. induction a as [|x a IH]; intros [|y b] [|z c]; simpl; auto; try discriminate.
  intros H1 H2.
  apply orb_false_iff in H1 as [A1 B1]. apply orb_false_iff in H2 as [A2 B2].
  apply N.ltb_ge in A1, A2. apply orb_false_iff. split; [apply N.ltb_ge; lia|].
  destruct (N.eqb_spec z x) as [->|Hne]; [|reflexivity]. simpl.
  assert (y = x) by lia. subst y. rewrite N.eqb_refl in B1, B2. simpl in *.
  now apply (IH b c).
Qed.

Lemma cmpDefault_le (a b : string) :
  Labels.cmpDefault a b <= 0 <-> Js.units_ltb (Js.code_units b) (Js.code_units a) = false.
Proof.
  unfold Labels.cmpDefault.
  destruct (Js.units_ltb (Js.code_units a) (Js.code_units b)) eqn:E.
  - split; [intros _; now apply units_ltb_asym | lia].
  - destruct (Js.units_ltb (Js.code_units b) (Js.code_units a)); split;
      first [lia | discriminate | reflexivity].
Qed.

Lemma sorted_strings (l : list string) :
  StronglySorted (fun a b => Labels.code_unit_lt a b \/ Js.code_units a = Js.code_units b)
                 (Js.sort Labels.cmpDefault l).
Proof.
  eapply (StronglySorted_refine _ _ (fun _ => True));
    [|apply List.Forall_forall; intros; exact I
     |apply (sort_sorted Labels.cmpDefault
               (fun a b => Js.units_ltb (Js.code_units b) (Js.code_units a) = false))].
  - intros a b _ _ H. destruct (units_ltb_total _ _ H) as [Hlt | Heq]; [left | now right].
    apply units_ltb_spec in Hlt. exact Hlt.
  - apply cmpDefault_le.
  - intros a b.
    destruct (Js.units_ltb (Js.code_units b) (Js.code_units a)) eqn:E; [|now left].
    right. now apply units_ltb_asym.
  - intros a b c. apply units_le_trans.
Qed.

(** The order is that of UTF-16, not that of the code points: U+1F600 goes
    before U+FF5E. *)
Lemma cmpDefault_surrogates_first :
  Labels.cmpDefault Labels.grinning_face Labels.fullwidth_tilde = -1
  /\ Js.sort Labels.cmpDefault [Labels.fullwidth_tilde; Labels.grinning_face]
     = [Labels.grinning_face; Labels.fullwidth_tilde].
Proof. split; vm_compute; reflexivity. Qed.

(** X21. [getLabelsByPrefix] returns exactly the values [v] for which some
    cached issue carries the label [prefix ++ v], each once, in the order
    [Array.prototype.sort()] gives strings, that of their UTF-16 code units:
    of two values the earlier one comes before the later one in that order,
    or has the same code units.  So U+1F600, a surrogate pair in UTF-16,
    comes before U+FF5E. *)
Theorem getLabelsByPrefix_sorted_unique (prefix : string) (cache : list Data.Issue) :
  (forall value,
     In value (Labels.getLabelsByPrefix prefix cache)
     <-> exists issue ls,
           In issue cache /\ Data.labels issue = Some ls /\ In (prefix ++ value) ls)
  /\ StronglySorted
       (fun a b => Labels.code_unit_lt a b \/ Js.code_units a = Js.code_units b)
       (Labels.getLabelsByPrefix prefix cache)
  /\ List.NoDup (Labels.getLabelsByPrefix prefix cache)
  /\ Js.code_units Labels.grinning_face = [55357%N; 56832%N]
  /\ Js.code_units Labels.fullwidth_tilde = [65374%N]
  /\ Labels.getLabelsByPrefix "work:"
       [Samples.issue "UI-1"
          (Some ["work:" ++ Labels.fullwidth_tilde; "work:" ++ Labels.grinning_face]) None]
     = [Labels.grinning_face; Labels.fullwidth_tilde].
Proof.
  unfold Labels.getLabelsByPrefix.
  set (collected := foldl (Labels.add_labels prefix) [] cache).
  assert (Hperm : Permutation (Js.sort Labels.cmpDefault collected) collected)
    by apply sort_perm.
  assert (Hnd : List.NoDup (Js.sort Labels.cmpDefault collected)).
  { eapply Permutation_NoDup; [symmetry; exact Hperm|].
    apply NoDup_ListNoDup. apply collected_NoDup. constructor. }
  split; [|split; [|split; [exact Hnd|repeat split]]].
  - intros value. split.
    + intros H. apply (Permutation_in _ Hperm) in H.
      apply list_elem_of_In, collected_elem in H as [H|(issue & ls & H1 & H2 & H3)];
        [inversion H|].
      exists issue, ls. split; [exact H1|]. split; [exact H2|]. now apply list_elem_of_In.
    + intros (issue & ls & H1 & H2 & H3).
      apply (Permutation_in _ (Permutation_sym Hperm)).
      apply list_elem_of_In, collected_elem. right. exists issue, ls.
      split; [exact H1|]. split; [exact H2|]. now apply list_elem_of_In.
  - apply sorted_strings.
Qed.

Lemma toggled_elem (x y : string) (selected : list string) :
  y ∈ Labels.toggled x selected
  <-> (y = x /\ x ∉ selected) \/ (y <> x /\ y ∈ selected).
Proof.
  unfold Labels.toggled. case_bool_decide as H.
  - rewrite list_elem_of_In, List.filter_In, <- list_elem_of_In, negb_true_iff, String.eqb_neq.
    split.
    + intros [H1 H2]. right. now split.
    + intros [[_ H1]|[H1 H2]]; [contradiction|now split].
  - rewrite elem_of_app, list_elem_of_singleton. split.
    + intros [H1| ->]; [|left; now split]. right. split; [|exact H1]. intros ->. contradiction.
    + intros [[-> _]|[_ H1]]; [now right|now left].
Qed.

Lemma filter_absent (x : string) (selected : list string) :
  x ∉ selected -> List.filter (fun c => negb (String.eqb c x)) selected = selected.
Proof.
  induction selected as [|c l IH]; intros H; simpl; [reflexivity|].
  apply not_elem_of_cons in H as [Hne H].
  destruct (String.eqb_spec c x) as [->|_]; [contradiction|]. simpl. now rewrite IH.
Qed.

(** A toggle flips the membership of its label and of no other, keeps a
    list free of duplicates so, and is undone by a second toggle of a label
    that was not selected. *)
Lemma toggled_flips_one_label (x : string) (selected : list string) :
  (x ∈ Labels.toggled x selected <-> x ∉ selected)
  /\ (forall y, y <> x -> (y ∈ Labels.toggled x selected <-> y ∈ selected))
  /\ (NoDup selected -> NoDup (Labels.toggled x selected))
  /\ (x ∉ selected -> Labels.toggled x (Labels.toggled x selected) = selected).
Proof.
  split; [|split; [|split]].
  - rewrite toggled_elem. split; [intros [[_ H]|[H _]]; [exact H|contradiction]|].
    intros H. left. now split.
  - intros y Hne. rewrite toggled_elem. split; [intros [[H _]|[_ H]]; [contradiction|exact H]|].
    intros H. right. now split.
  - intros Hnd. unfold Labels.toggled. case_bool_decide as H.
    + apply NoDup_ListNoDup. apply List.NoDup_filter. now apply NoDup_ListNoDup.
    + apply NoDup_app. split; [exact Hnd|]. split; [|apply NoDup_singleton].
      intros y Hy Hx. apply list_elem_of_singleton in Hx. now subst.
  - intros H. unfold Labels.toggled at 2. rewrite bool_decide_eq_false_2 by exact H.
    unfold Labels.toggled. rewrite bool_decide_eq_true_2.
    + rewrite List.filter_app. simpl. rewrite String.eqb_refl. simpl.
      rewrite app_nil_r. now apply filter_absent.
    + apply elem_of_app. right. now apply list_elem_of_singleton.
Qed.

Section BoardActionFacts.

Variable start_of_local_day : Z -> Z.
Variable selectBoardColumn : string -> string -> option (list Data.Issue).

Lemma applyClosedFilter_frame now v :
  Board.client_filters (Board.applyClosedFilter start_of_local_day now v) = Board.client_filters v
  /\ Board.work_filters (Board.applyClosedFilter start_of_local_day now v) = Board.work_filters v.
Proof. split; reflexivity. Qed.

Lemma refreshFromStores_frame sel now v :
  Board.client_filters (Board.refreshFromStores start_of_local_day sel now v)
  = Board.client_filters v
  /\ Board.work_filters (Board.refreshFromStores start_of_local_day sel now v)
     = Board.work_filters v.
Proof.
  unfold Board.refreshFromStores. destruct sel as [f|]; [|split; reflexivity].
  destruct (f "tab:board:in-progress" "in_progress"), (f "tab:board:blocked" "blocked"),
    (f "tab:board:ready" "ready"), (f "tab:board:closed" "closed"); split; reflexivity.
Qed.

Lemma matchesLabelFilters_ext (v v' : Board.View) (it : Data.Issue) :
  Board.client_filters v' = Board.client_filters v ->
  Board.work_filters v' = Board.work_filters v ->
  Board.matchesLabelFilters v' it = Board.matchesLabelFilters v it.
Proof. intros Hc Hw. unfold Board.matchesLabelFilters. now rewrite Hc, Hw. Qed.

(** After [refreshFromStores] on a view created with [issueStores], every
    card shown carries the selected labels. *)
Lemma refreshFromStores_shows_matching now v it :
  let v' := Board.refreshFromStores start_of_local_day (Some selectBoardColumn) now v in
  In it (Board.list_ready v' ++ Board.list_blocked v' ++ Board.list_in_progress v'
         ++ Board.list_closed v')%list ->
  Board.matchesLabelFilters v it = true.
Proof.
  cbv zeta. unfold Board.refreshFromStores.
  destruct (selectBoardColumn "tab:board:in-progress" "in_progress") as [in_progress|];
    [|intros []].
  destruct (selectBoardColumn "tab:board:blocked" "blocked") as [blocked|]; [|intros []].
  destruct (selectBoardColumn "tab:board:ready" "ready") as [ready_raw|]; [|intros []].
  destruct (selectBoardColumn "tab:board:closed" "closed") as [closed|]; [|intros []].
  cbv zeta. simpl.
  set (has := ((0 <? length (Board.client_filters v))%nat
               || (0 <? length (Board.work_filters v))%nat)).
  assert (Hpick : forall (l : list Data.Issue),
            In it (if has then List.filter (Board.matchesLabelFilters v) l else l) ->
            Board.matchesLabelFilters v it = true).
  { intros l. destruct has eqn:E.
    - intros H. now apply List.filter_In in H.
    - intros _. apply no_label_filters in E as [Hc Hw]. now apply matchesLabelFilters_none. }
  rewrite !in_app_iff. intros [H|[H|[H|H]]]; try (now apply Hpick in H).
  apply (Permutation_in _ (sort_closed_perm _)) in H.
  apply List.filter_In in H as [H _]. now apply Hpick in H.
Qed.

(** X22. On a board created with [issueStores], [toggleClientFilter]
    selects the label if it was not selected and deselects it otherwise,
    leaves the other client labels and the work labels alone, passes the new
    client labels to the store, and afterwards every card in the four columns
    carries all selected labels. *)
Theorem toggleClientFilter_flips_and_filters (client : string) (now : Z) (v : Board.View) :
  let r := BoardActions.toggleClientFilter start_of_local_day (Some selectBoardColumn)
             client now v in
  (client ∈ Board.client_filters r.1 <-> client ∉ Board.client_filters v)
  /\ (forall other, other <> client ->
        (other ∈ Board.client_filters r.1 <-> other ∈ Board.client_filters v))
  /\ Board.work_filters r.1 = Board.work_filters v
  /\ r.2 = BoardActions.filters_patch (Some (Board.client_filters r.1)) None
  /\ (forall it,
        In it (Board.list_ready r.1 ++ Board.list_blocked r.1 ++ Board.list_in_progress r.1
               ++ Board.list_closed r.1)%list ->
        Board.matchesLabelFilters r.1 it = true).
Proof.
  cbv zeta. unfold BoardActions.toggleClientFilter. cbv zeta. cbn [fst snd].
  set (v1 := BoardActions.with_filters _ _ v).
  destruct (refreshFromStores_frame (Some selectBoardColumn) now v1) as [Hc Hw].
  rewrite Hc, Hw. simpl.
  destruct (toggled_flips_one_label client (Board.client_filters v)) as (T1 & T2 & _).
  split; [exact T1|]. split; [exact T2|]. split; [reflexivity|]. split; [reflexivity|].
  intros it Hit. rewrite (matchesLabelFilters_ext v1) by assumption.
  now apply (refreshFromStores_shows_matching now v1 it).
Qed.

(** X23. The closed-filter mode of the board is always one of [today], [3]
    and [7]: initially, whatever the store holds, and after
    [onClosedFilterChange], which takes the value [3] or [7] and counts
    anything else as [today].  The mode is passed to the store, and the Closed
    column then holds exactly the raw closed items with a finite [closed_at]
    not below the cutoff of that mode. *)
Theorem onClosedFilterChange_normalises_mode (value : string) (now : Z) (v : Board.View) :
  let r := BoardActions.onClosedFilterChange start_of_local_day value now v in
  let cutoff :=
    if String.eqb value "3" then now - 3 * 86400000
    else if String.eqb value "7" then now - 7 * 86400000
    else start_of_local_day now in
  Board.closed_filter_mode r.1 ∈ ["today"; "3"; "7"]
  /\ (forall s, BoardActions.initial_closed_filter_mode s ∈ ["today"; "3"; "7"])
  /\ r.2 = BoardActions.board_patch (Board.closed_filter_mode r.1)
  /\ (Board.closed_filter_mode r.1 = value \/ Board.closed_filter_mode r.1 = "today")
  /\ (forall it, In it (Board.list_closed r.1) <->
        In it (Board.list_closed_raw v)
        /\ exists t, Data.closed_at it = Some (Data.Fin t) /\ (inject_Z cutoff <= t)%Q).
Proof.
  cbv zeta. unfold BoardActions.onClosedFilterChange. cbv zeta. cbn [fst snd].
  set (v0 := if String.eqb value EmptyString then "today" else value).
  set (mode := if String.eqb v0 "3" || String.eqb v0 "7" then v0 else "today").
  assert (Hmode : mode = (if String.eqb value "3" then "3"
                          else if String.eqb value "7" then "7" else "today")).
  { unfold mode, v0. destruct (String.eqb_spec value EmptyString) as [->|_]; [reflexivity|].
    destruct (String.eqb_spec value "3") as [->|_]; [reflexivity|].
    destruct (String.eqb_spec value "7") as [->|_]; reflexivity. }
  simpl. split; [|split; [|split; [reflexivity|split]]].
  - rewrite Hmode. destruct (String.eqb value "3"); [in_list|].
    destruct (String.eqb value "7"); in_list.
  - intros s. unfold BoardActions.initial_closed_filter_mode. cbv zeta.
    match goal with |- (if ?a || ?b || ?c then ?x else _) ∈ _ =>
      apply (eqb3_cases x "today" "3" "7") end.
  - rewrite Hmode. destruct (String.eqb_spec value "3") as [->|_]; [now left|].
    destruct (String.eqb_spec value "7") as [->|_]; [now left|now right].
  - intros it.
    assert (Hcut : Board.since_ts start_of_local_day mode now
                   = (if String.eqb value "3" then now - 3 * 86400000
                      else if String.eqb value "7" then now - 7 * 86400000
                      else start_of_local_day now)).
    { rewrite Hmode. unfold Board.since_ts.
      destruct (String.eqb value "3"); [simpl; lia|].
      destruct (String.eqb value "7"); [simpl; lia|reflexivity]. }
    rewrite Hcut. split.
    + intros H. apply (Permutation_in _ (sort_closed_perm _)) in H.
      apply List.filter_In in H as [H1 H2]. split; [exact H1|]. now apply closed_since_spec.
    + intros [H1 H2]. apply (Permutation_in _ (Permutation_sym (sort_closed_perm _))).
      apply List.filter_In. split; [exact H1|]. now apply closed_since_spec.
Qed.

End BoardActionFacts.

Section BoardKeyFacts.
Import BoardKeys.
Local Open Scope nat_scope.

Lemma nonempty_has_first (cards : list string) :
  (0 <? length cards) = true -> exists c, cards !! 0 = Some c.
Proof. destruct cards as [|c cards]; [discriminate|]. now exists c. Qed.

Lemma empty_of_ltb (cards : list string) : (0 <? length cards) = false -> cards = [].
Proof. destruct cards; [reflexivity|discriminate]. Qed.

Lemma scan_right_Some (columns : list (list string)) (n target : nat) :
  scan_right columns n = Some target ->
  n <= target
  /\ (exists cards c, columns !! (target - n) = Some cards /\ cards !! 0 = Some c)
  /\ (forall j, n <= j < target -> columns !! (j - n) = Some []).
Proof.
  revert n. induction columns as [|cards columns IH]; intros n; simpl; [discriminate|].
  destruct (0 <? length cards) eqn:E.
  - intros [= <-]. split; [lia|]. split.
    + rewrite Nat.sub_diag. destruct (nonempty_has_first _ E) as [c Hc]. now exists cards, c.
    + intros j Hj. lia.
  - intros H. destruct (IH _ H) as (Hle & (cs & c & H1 & H2) & Hbetween).
    split; [lia|]. split.
    + exists cs, c. split; [|exact H2].
      replace (target - n) with (S (target - S n)) by lia. exact H1.
    + intros j Hj. destruct (decide (j = n)) as [->|Hne].
      * rewrite Nat.sub_diag. simpl. f_equal. now apply empty_of_ltb.
      * replace (j - n) with (S (j - S n)) by lia. apply Hbetween. lia.
Qed.

Lemma scan_right_None (columns : list (list string)) (n : nat) :
  scan_right columns n = None ->
  forall i cards, columns !! i = Some cards -> cards = [].
Proof.
  revert n. induction columns as [|cs columns IH]; intros n; simpl.
  - intros _ i cards H. now rewrite lookup_nil in H.
  - destruct (0 <? length cs) eqn:E; [discriminate|].
    intros H [|i] cards Hi; simpl in Hi.
    + injection Hi as <-. now apply empty_of_ltb.
    + now apply (IH _ H i).
Qed.

Lemma scan_left_Some (columns : list (list string)) (n target : nat) :
  scan_left columns n = Some target ->
  target < n
  /\ (exists cards c, columns !! target = Some cards /\ cards !! 0 = Some c)
  /\ (forall j, target < j < n -> columns !! j = Some []).
Proof.
  induction n as [|n IH]; simpl; [discriminate|].
  destruct (columns !! n) as [cards|] eqn:En; [|discriminate].
  destruct (0 <? length cards) eqn:E.
  - intros [= <-]. split; [lia|]. split.
    + destruct (nonempty_has_first _ E) as [c Hc]. now exists cards, c.
    + intros j Hj. lia.
  - intros H. destruct (IH H) as (Hlt & Hex & Hbetween).
    split; [lia|]. split; [exact Hex|].
    intros j Hj. destruct (decide (j = n)) as [->|Hne].
    + rewrite En. f_equal. now apply empty_of_ltb.
    + apply Hbetween. lia.
Qed.

Lemma scan_left_None (columns : list (list string)) (n : nat) :
  n <= length columns ->
  scan_left columns n = None ->
  forall j cards, j < n -> columns !! j = Some cards -> cards = [].
Proof.
  induction n as [|n IH]; simpl; intros Hlen H j cards Hj Hc; [lia|].
  destruct (columns !! n) as [cs|] eqn:En.
  - destruct (0 <? length cs) eqn:E; [discriminate|].
    destruct (decide (j = n)) as [->|Hne].
    + rewrite En in Hc. injection Hc as <-. now apply empty_of_ltb.
    + apply (IH ltac:(lia) H j cards); [lia|exact Hc].
  - apply lookup_ge_None in En. lia.
Qed.

(** X24. [ArrowRight] and [ArrowLeft] on a card move the focus to the
    first card of the nearest column in that direction that has a card, all
    columns in between being empty, and leave the focus alone exactly when
    every column in that direction is empty. *)
Theorem arrow_left_right_reach_nearest_card
  (right : bool) (columns : list (list string)) (col_idx idx : nat)
  (cards : list string) (id : string) :
  columns !! col_idx = Some cards ->
  cards !! idx = Some id ->
  match onKeydown (if right then "ArrowRight" else "ArrowLeft") false columns col_idx idx with
  | Focus target row =>
      row = 0
      /\ (exists cs c, columns !! target = Some cs /\ cs !! 0 = Some c)
      /\ (if right then col_idx < target else target < col_idx)
      /\ (forall j, (if right then col_idx < j < target else target < j < col_idx) ->
                    empty_column columns j)
  | Goto _ => False
  | Nothing =>
      forall j cs, (if right then col_idx < j else j < col_idx) ->
                   columns !! j = Some cs -> cs = []
  end.
Proof.
  intros Hcol Hcard. unfold onKeydown. rewrite Hcol, Hcard.
  destruct right; simpl.
  - destruct (scan_right (drop (S col_idx) columns) (S col_idx)) as [target|] eqn:E.
    + apply scan_right_Some in E as (Hle & (cs & c & H1 & H2) & Hbetween).
      rewrite lookup_drop in H1.
      replace (S col_idx + (target - S col_idx)) with target in H1 by lia.
      split; [reflexivity|]. split; [now exists cs, c|]. split; [lia|].
      intros j Hj. unfold empty_column.
      specialize (Hbetween j ltac:(lia)). rewrite lookup_drop in Hbetween.
      now replace (S col_idx + (j - S col_idx)) with j in Hbetween by lia.
    + intros j cs Hj Hcs.
      apply (scan_right_None _ _ E (j - S col_idx) cs).
      rewrite lookup_drop. now replace (S col_idx + (j - S col_idx)) with j by lia.
  - destruct (scan_left columns col_idx) as [target|] eqn:E.
    + apply scan_left_Some in E as (Hlt & Hex & Hbetween).
      split; [reflexivity|]. split; [exact Hex|]. split; [exact Hlt|].
      intros j Hj. now apply Hbetween.
    + intros j cs Hj Hcs. apply (scan_left_None columns col_idx) with (j := j); try assumption.
      apply lookup_lt_Some in Hcol. lia.
Qed.

(** X25. When [ArrowDown] moves the focus, it goes to the next card of the
    same column, which exists, and [ArrowUp] from there goes back to the card
    it came from. *)
Theorem arrow_down_then_up_returns
  (columns : list (list string)) (col_idx idx target row : nat) :
  onKeydown "ArrowDown" false columns col_idx idx = Focus target row ->
  target = col_idx /\ row = idx + 1
  /\ (exists cards id, columns !! target = Some cards /\ cards !! row = Some id)
  /\ onKeydown "ArrowUp" false columns target row = Focus col_idx idx.
Proof.
  unfold onKeydown.
  destruct (columns !! col_idx) as [cards|] eqn:Hcol; [|discriminate].
  destruct (cards !! idx) as [id|] eqn:Hcard; [|discriminate].
  simpl. destruct (idx <? length cards - 1) eqn:E; [|discriminate].
  intros [= <- <-]. apply Nat.ltb_lt in E.
  destruct (lookup_lt_is_Some_2 cards (idx + 1) ltac:(lia)) as [id' Hid'].
  split; [reflexivity|]. split; [reflexivity|]. split; [now exists cards, id'|].
  rewrite Hcol, Hid'. simpl.
  replace (0 <? idx + 1) with true by (symmetry; apply Nat.ltb_lt; lia).
  simpl. f_equal. lia.
Qed.

End BoardKeyFacts.

Lemma arrow_left_right_reach_nearest_card_witness :
  BoardKeys.onKeydown "ArrowRight" false [["UI-1"]; []; ["UI-2"; "UI-3"]] 0 0
  = BoardKeys.Focus 2 0
  /\ (forall j, (0 < j < 2)%nat ->
        BoardKeys.empty_column [["UI-1"]; []; ["UI-2"; "UI-3"]] j).
Proof.
  split; [reflexivity|].
  exact (proj2 (proj2 (proj2 (arrow_left_right_reach_nearest_card true
                                [["UI-1"]; []; ["UI-2"; "UI-3"]] 0 0 ["UI-1"] "UI-1"
                                eq_refl eq_refl)))).
Defined.

Lemma arrow_down_then_up_returns_witness :
  BoardKeys.onKeydown "ArrowUp" false [["UI-1"; "UI-2"]] 0 1 = BoardKeys.Focus 0 0.
Proof.
  exact (proj2 (proj2 (proj2 (arrow_down_then_up_returns [["UI-1"; "UI-2"]] 0 0 0 1 eq_refl)))).
Defined.

(** ** The list view *)

Section ListActionFacts.
Import ListActions.

Variable sendFn : Mutation -> bool.

Lemma send_until_failure_prefix (ms : list Mutation) :
  exists rest, ms = (send_until_failure sendFn ms ++ rest)%list.
Proof.
  induction ms as [|m ms [rest IH]]; simpl; [now exists []|].
  destruct (sendFn m).
  - exists rest. simpl. now rewrite <- IH.
  - now exists ms.
Qed.

Lemma send_until_failure_all (ms : list Mutation) :
  Forall (fun m => sendFn m = true) ms -> send_until_failure sendFn ms = ms.
Proof.
  induction 1 as [|m ms Hm _ IH]; simpl; [reflexivity|]. now rewrite Hm, IH.
Qed.

Lemma send_until_failure_stops (ms sent after : list Mutation) (m : Mutation) :
  send_until_failure sendFn ms = (sent ++ m :: after)%list ->
  after <> [] -> sendFn m = true.
Proof.
  revert sent. induction ms as [|m0 ms IH]; intros sent H Hafter; simpl in H.
  - now destruct sent.
  - destruct (sendFn m0) eqn:E.
    + destruct sent as [|s0 sent]; simpl in H.
      * now injection H as <- _.
      * injection H as _ H. now apply (IH sent).
    + destruct sent as [|s0 sent]; simpl in H.
      * injection H as _ H. now subst.
      * injection H as _ H. now destruct sent.
Qed.

(** X26. [updateInline] sends the mutations for the title, the assignee,
    the status and the priority in that order and stops at the first one that
    is rejected: what it sends is a prefix of them, all of them when none is
    rejected, and only the last one sent can have failed. *)
Theorem updateInline_stops_at_first_failure (id : string) (patch : InlinePatch) :
  (exists unsent, mutations id patch = (updateInline sendFn id patch ++ unsent)%list)
  /\ (Forall (fun m => sendFn m = true) (mutations id patch) ->
      updateInline sendFn id patch = mutations id patch)
  /\ (forall sent m after,
        updateInline sendFn id patch = (sent ++ m :: after)%list ->
        after <> [] -> sendFn m = true).
Proof.
  split; [apply send_until_failure_prefix|]. split; [apply send_until_failure_all|].
  intros sent m after. apply send_until_failure_stops.
Qed.

Variable selectors : option (string -> option (list Data.Issue)).

(** X27. When the status filter of an emitted state differs from the list
    view's, the subscriber takes the new status and reloads the cache, and
    leaves the search text and the type, client and work filters as they
    were, whatever the emitted state holds for them. *)
Theorem status_change_skips_other_filters (s : Emitted) (f : EmittedFilters) (w : Viewer) :
  em_filters s = Some f ->
  same_json (normalizeStatusFilter (em_status f)) (ListView.status_filters (view w)) = false ->
  let w' := onStoreState selectors s w in
  ListView.status_filters (view w') = normalizeStatusFilter (em_status f)
  /\ ListView.search_text (view w') = ListView.search_text (view w)
  /\ ListView.type_filters (view w') = ListView.type_filters (view w)
  /\ ListView.client_filters (view w') = ListView.client_filters (view w)
  /\ ListView.work_filters (view w') = ListView.work_filters (view w)
  /\ ListView.issues_cache (view w')
     = match selectors with
       | Some selectIssuesFor => default [] (selectIssuesFor "tab:issues")
       | None => []
       end.
Proof.
  intros Hf Hchanged. cbv zeta. unfold onStoreState. rewrite Hf. cbv zeta.
  destruct (bool_decide (em_selected_id s = selected_id w)); simpl;
    rewrite Hchanged; simpl; repeat split; reflexivity.
Qed.

End ListActionFacts.

Lemma status_change_skips_other_filters_witness :
  let f := {| ListActions.em_status := ListActions.FString "closed";
              ListActions.em_search := "login";
              ListActions.em_type := ListActions.FUndefined;
              ListActions.em_client := None; ListActions.em_work := None |} in
  let s := {| ListActions.em_selected_id := None; ListActions.em_filters := Some f |} in
  let w := {| ListActions.view :=
                {| ListView.status_filters := []; ListView.search_text := EmptyString;
                   ListView.type_filters := []; ListView.client_filters := [];
                   ListView.work_filters := []; ListView.issues_cache := [] |};
              ListActions.selected_id := None |} in
  ListView.status_filters (ListActions.view (ListActions.onStoreState None s w)) = ["closed"]
  /\ ListView.search_text (ListActions.view (ListActions.onStoreState None s w)) = EmptyString.
Proof.
  cbv zeta.
  pose proof (status_change_skips_other_filters None
                {| ListActions.em_selected_id := None;
                   ListActions.em_filters :=
                     Some {| ListActions.em_status := ListActions.FString "closed";
                             ListActions.em_search := "login";
                             ListActions.em_type := ListActions.FUndefined;
                             ListActions.em_client := None; ListActions.em_work := None |} |}
                {| ListActions.em_status := ListActions.FString "closed";
                   ListActions.em_search := "login";
                   ListActions.em_type := ListActions.FUndefined;
                   ListActions.em_client := None; ListActions.em_work := None |}
                {| ListActions.view :=
                     {| ListView.status_filters := []; ListView.search_text := EmptyString;
                        ListView.type_filters := []; ListView.client_filters := [];
                        ListView.work_filters := []; ListView.issues_cache := [] |};
                   ListActions.selected_id := None |}
                eq_refl eq_refl) as (Hs & Hq & _).
  split; [exact Hs | exact Hq].
Defined.

(** ** The epics view *)

Section EpicsFacts.
Import EpicsView.

Lemma filter_length_le {A} (f : A -> bool) (l : list A) :
  (length (List.filter f l) <= length l)%nat.
Proof. induction l as [|x l IH]; simpl; [lia|]. destruct (f x); simpl; lia. Qed.

(** X28. [buildGroupsFromSnapshot] makes one group per epic, in order.
    Without counters from the server, the total is the number of dependents
    and the closed count is between 0 and the total; finite counters from the
    server are taken as they are. *)
Theorem derived_epic_counters (epic_entities : list EpicEntity) :
  let groups := (buildGroupsFromSnapshot epic_entities).1 in
  map group_epic groups = epic_entities
  /\ Forall (fun g =>
       total_children (group_epic g) = None ->
       closed_children (group_epic g) = None ->
       (0 <= group_closed_children g)%Q
       /\ (group_closed_children g <= group_total_children g)%Q
       /\ group_total_children g
          = inject_Z (Z.of_nat (length (default [] (dependents (group_epic g)))))) groups
  /\ Forall (fun g =>
       forall t c, total_children (group_epic g) = Some (Data.Fin t) ->
                   closed_children (group_epic g) = Some (Data.Fin c) ->
                   group_total_children g = t /\ group_closed_children g = c) groups.
Proof.
  cbv zeta. unfold buildGroupsFromSnapshot. simpl. split; [|split].
  - rewrite map_map. simpl. apply map_id.
  - apply List.Forall_forall. intros g Hg. apply in_map_iff in Hg as (e & <- & _).
    simpl. intros Ht Hc. rewrite Ht, Hc. simpl.
    split; [|split; [|reflexivity]].
    + unfold Qle. simpl. lia.
    + rewrite <- Zle_Qle. apply inj_le. apply filter_length_le.
  - apply List.Forall_forall. intros g Hg. apply in_map_iff in Hg as (e & <- & _).
    simpl. intros t c Ht Hc. now rewrite Ht, Hc.
Qed.

(** X29. [load] of the epics view never collapses an epic, leaves the
    first epic expanded when it has an id, and a second [load] changes
    nothing: it subscribes to nothing again. *)
Theorem epics_load_twice (epic_entities : list EpicEntity) (sh : Main.Shell) :
  load epic_entities (load epic_entities sh) = load epic_entities sh
  /\ Main.expanded sh ⊆ Main.expanded (load epic_entities sh)
  /\ (forall e rest, epic_entities = e :: rest -> Data.id (epic e) <> EmptyString ->
        Data.id (epic e) ∈ Main.expanded (load epic_entities sh)).
Proof.
  unfold load. destruct epic_entities as [|e rest]; simpl.
  { split; [reflexivity|]. split; [reflexivity|]. intros ? ? [=]. }
  destruct (String.eqb_spec (Data.id (epic e)) EmptyString) as [Hid|Hid]; simpl.
  { split; [reflexivity|]. split; [reflexivity|]. intros ? ? [= <- _] H. contradiction. }
  destruct (bool_decide (Data.id (epic e) ∈ Main.expanded sh)) eqn:E; simpl.
  - rewrite E. simpl. split; [reflexivity|]. split; [reflexivity|].
    intros ? ? [= <- _] _. now apply bool_decide_eq_true in E.
  - apply bool_decide_eq_false in E.
    assert (Hin : Data.id (epic e) ∈ Main.expanded (Main.toggle (Data.id (epic e)) sh)).
    { unfold Main.toggle. cbv zeta. rewrite bool_decide_eq_true_2 by exact E. simpl.
      apply elem_of_union. left. now apply elem_of_singleton. }
    rewrite (bool_decide_eq_true_2 _ Hin). simpl.
    split; [reflexivity|]. split.
    + unfold Main.toggle. cbv zeta. rewrite bool_decide_eq_true_2 by exact E. simpl.
      apply union_subseteq_r.
    + intros ? ? [= <- _] _. exact Hin.
Qed.

End EpicsFacts.

